(** * The minimisation driver of LAMMPS ([src/min.cpp], class [Min])

    A shallow embedding of [Min]: the extra-DOF registry ([request]), the
    energy/virial scheduler ([ev_setup], [ev_set]), the force norms
    ([fnorm_sqr], [fnorm_inf]), the evaluation pipeline ([energy_force],
    [force_clear]) and the life cycle ([init], [setup], [run], [cleanup]).

    Conventions of the embedding.
    - [int] and [bigint] are [Z]; signed overflow is undefined behaviour in
      C++ and lies outside the model.
    - [double] is a type [D] with the operations of the class [Scalar]; the
      instance [binary64] is IEEE 754 double precision as specified by
      [SpecFloat] (round to nearest, ties to even).
    - Arrays are lists; a pointer to an array of [double] is a [dptr] that
      names the storage it aliases, so that a write through one alias is
      seen through the others.
    - The objects [Min] talks to ([atom], [force], [comm], [domain],
      [neighbor], [update], [output], [modify], [timer], [error]) are not
      part of [min.cpp].  The fields that [min.cpp] reads or writes are
      record fields; their methods are the fields of [Hooks], taken as
      parameters, and every call of one is recorded in the [trace].
    - [error->all] aborts the program: a computation ends in [Abort].
    - A method that calls [MPI_Allreduce] is a computation of type [Par],
      which stops at the collective with the value it hands over; the
      processes of a run proceed together ([spmd]), and each receives the
      reduction of what all of them have handed over. *)

From Stdlib Require Import ZArith Lia Bool String Permutation SpecFloat Sorted.
From stdpp Require Import base list.

Local Open Scope Z_scope.

(** ** Scalars: the type [double] *)

Class Scalar (D : Type) := {
  d_zero : D;                 (* the literal 0.0 *)
  d_add : D -> D -> D;        (* a + b *)
  d_mul : D -> D -> D;        (* a * b *)
  d_div : D -> D -> D;        (* a / b *)
  d_fabs : D -> D;            (* fabs(a) *)
  d_gt : D -> D -> bool;      (* a > b *)
  d_sqrt : D -> D;            (* sqrt(a) *)
  d_of_bigint : Z -> D        (* conversion of an integer operand *)
}.

(** IEEE 754 binary64: 53 bits of precision, exponents below 1024. *)
Definition b64_of_Z (z : Z) : spec_float := binary_normalize 53 1024 z 0 false.

#[export] Instance binary64 : Scalar spec_float := {
  d_zero := S754_zero false;
  d_add := SFadd 53 1024;
  d_mul := SFmul 53 1024;
  d_div := SFdiv 53 1024;
  d_fabs := SFabs;
  d_gt := fun a b => SFltb b a;
  d_sqrt := SFsqrt 53 1024;
  d_of_bigint := b64_of_Z
}.

(** ** C idioms *)

(** An [int] used as a condition: [if (x)]. *)
Definition truthy (x : Z) : bool := negb (x =? 0).

(** A slot of an array obtained from [srealloc]/[grow]: [None] until it is
    first written. *)
Definition cell (A : Type) : Type := option A.

(** [memory->grow(a,n)] and [memory->srealloc(a,n*sizeof)]: the array has
    [n] slots afterwards, the old contents are kept and the new slots are
    unwritten. *)
Definition grow {A : Type} (a : list (cell A)) (n : Z) : list (cell A) :=
  resize (Z.to_nat n) None a.

(** [a[i] = v]. *)
Definition store {A : Type} (a : list A) (i : Z) (v : A) : list A :=
  <[Z.to_nat i := v]> a.

(** A row [f[i]] of a per-atom array of 3-vectors. *)
Record vec3 (D : Type) := Vec3 { c0 : D; c1 : D; c2 : D }.
Arguments Vec3 {D}.
Arguments c0 {D}.
Arguments c1 {D}.
Arguments c2 {D}.

(** What a [double *] of the minimiser points to. *)
Inductive dptr :=
| PNull                      (* NULL *)
| PAtomF                     (* atom->f[0]: the force array, row by row *)
| PStore (k : nat).          (* a vector owned by a fix or a pair style *)

(** The four lists of computes kept by [ev_setup]. *)
Inductive evlist := EGlobal | EAtom | VGlobal | VAtom.

(** The slots of [Timer]. *)
Inductive timer_slot := T_COMM | T_MODIFY | T_NEIGHBOR | T_PAIR | T_BOND | T_KSPACE.

(** Builds the function that overwrites one field of a record, from the
    eta-expansion [eta] of the record and the projection [proj]. *)
Ltac setter eta proj :=
  let body := eval cbv beta in eta in
  lazymatch eval pattern proj in body with
  | ?F _ => let t := eval cbv beta in (fun v r => F (fun _ => v) r) in exact t
  end.

(** ** The collaborators: the fields [min.cpp] touches *)

Module Atom.
Record t {D : Type} := mk {
  nlocal : Z; nghost : Z; natoms : Z;
  f : list (vec3 D);
  torque : list (vec3 D);
  erforce : list D;
  torque_flag : Z; erforce_flag : Z;
  molecular : Z; sortfreq : Z; nextsort : Z
}.
Arguments t : clear implicits.
Local Abbreviation eta D := (fun a : t D =>
  mk D (nlocal a) (nghost a) (natoms a) (f a) (torque a) (erforce a)
     (torque_flag a) (erforce_flag a) (molecular a) (sortfreq a) (nextsort a)).
Definition set_f {D} : list (vec3 D) -> t D -> t D :=
  ltac:(setter constr:(eta D) (@f D)).
Definition set_torque {D} : list (vec3 D) -> t D -> t D :=
  ltac:(setter constr:(eta D) (@torque D)).
Definition set_erforce {D} : list D -> t D -> t D :=
  ltac:(setter constr:(eta D) (@erforce D)).
End Atom.

Module Force.
(** [pair], [bond], ... are pointers; the model keeps whether they are
    non-NULL. *)
Record t := mk {
  newton : Z; newton_pair : Z;
  pair : bool; bond : bool; angle : bool; dihedral : bool; improper : bool;
  kspace : bool
}.
End Force.

Module Comm.
Record t := mk { me : Z; nthreads : Z }.
End Comm.

Module Domain.
Record t := mk { triclinic : Z; box_change : Z }.
End Domain.

Module Neighbor.
Record t := mk { every : Z; delay : Z; dist_check : Z; style : Z; ncalls : Z }.
Definition set_every (v : Z) (n : t) : t := mk v (delay n) (dist_check n) (style n) (ncalls n).
Definition set_delay (v : Z) (n : t) : t := mk (every n) v (dist_check n) (style n) (ncalls n).
Definition set_dist_check (v : Z) (n : t) : t := mk (every n) (delay n) v (style n) (ncalls n).
Definition set_ncalls (v : Z) (n : t) : t := mk (every n) (delay n) (dist_check n) (style n) v.
End Neighbor.

Module Update.
Record t := mk {
  ntimestep : Z; nsteps : Z;
  eflag_global : Z; eflag_atom : Z; vflag_global : Z; vflag_atom : Z;
  restrict_output : Z
}.
Local Abbreviation eta := (fun u : t =>
  mk (ntimestep u) (nsteps u) (eflag_global u) (eflag_atom u) (vflag_global u)
     (vflag_atom u) (restrict_output u)).
Definition set_nsteps : Z -> t -> t :=
  ltac:(setter constr:(eta) nsteps).
Definition set_eflag_global : Z -> t -> t :=
  ltac:(setter constr:(eta) eflag_global).
Definition set_eflag_atom : Z -> t -> t :=
  ltac:(setter constr:(eta) eflag_atom).
Definition set_vflag_global : Z -> t -> t :=
  ltac:(setter constr:(eta) vflag_global).
Definition set_vflag_atom : Z -> t -> t :=
  ltac:(setter constr:(eta) vflag_atom).
End Update.

Module Output.
(** [thermo_normflag] is [output->thermo->normflag]. *)
Record t := mk {
  ndump : Z; next_dump : list Z; next_dump_any : Z;
  restart_every : Z; next_restart : Z; next_thermo : Z;
  thermo_normflag : Z
}.
Local Abbreviation eta := (fun o : t =>
  mk (ndump o) (next_dump o) (next_dump_any o) (restart_every o) (next_restart o)
     (next_thermo o) (thermo_normflag o)).
Definition set_next_dump : list Z -> t -> t :=
  ltac:(setter constr:(eta) next_dump).
Definition set_next_dump_any : Z -> t -> t :=
  ltac:(setter constr:(eta) next_dump_any).
Definition set_next_restart : Z -> t -> t :=
  ltac:(setter constr:(eta) next_restart).
Definition set_next_thermo : Z -> t -> t :=
  ltac:(setter constr:(eta) next_thermo).
End Output.

Module Modify.
(** [compute] is the array [modify->compute] of [ncompute] computes; [nfix]
    counts the fixes, so that [modify->fix[nfix-1]] is the last one. *)
Record t {C : Type} := mk {
  ncompute : Z; compute : list C;
  nfix : Z;
  n_min_pre_exchange : Z; n_min_pre_force : Z; n_min_post_force : Z
}.
Arguments t : clear implicits.
Definition set_compute {C} (v : list C) (m : t C) : t C :=
  mk C (ncompute m) v (nfix m) (n_min_pre_exchange m) (n_min_pre_force m)
     (n_min_post_force m).
End Modify.

(** The communicator [world] as one process sees it: the value every
    process receives from a collective, given this process' contribution. *)
Record Communicator (D : Type) := mkCommunicator {
  allreduce_sum_double : D -> D;
  allreduce_max_double : D -> D;
  allreduce_sum_bigint : Z -> Z
}.
Arguments mkCommunicator {D}.
Arguments allreduce_sum_double {D}.
Arguments allreduce_max_double {D}.
Arguments allreduce_sum_bigint {D}.

(** ** Calls of collaborator methods, as recorded in the trace *)

Inductive Call :=
| ScreenPrint (msg : string)                    (* fprintf(screen,...) *)
| ErrorWarning (msg : string)                   (* error->warning *)
| ModifyAddFix (arg : list string)
| ModifyDeleteFix (id : string)
| ModifyMinDof
| ModifyFindCompute (id : string)
| ModifySetupPreForce (vflag : Z)
| ModifySetup (vflag : Z)
| ModifyMinPreExchange
| ModifyMinPreForce (vflag : Z)
| ModifyMinPostForce (vflag : Z)
| ModifyMinEnergy
| ModifyAddstepComputeAll (ntimestep : Z)
| ComputeMatchstep (l : evlist) (c : nat) (ntimestep : Z) (result : Z)
| ComputeScalar (c : Z)
| AtomSetup
| AtomSort
| DomainX2lamda (n : Z)
| DomainLamda2x (n : Z)
| DomainPbc
| DomainResetBox
| CommSetup
| CommExchange
| CommBorders
| CommForwardComm
| CommReverseComm
| NeighborSetupBins
| NeighborBuild
| NeighborDecide (result : Z)
| PairCompute (eflag vflag : Z)
| BondCompute (eflag vflag : Z)
| AngleCompute (eflag vflag : Z)
| DihedralCompute (eflag vflag : Z)
| ImproperCompute (eflag vflag : Z)
| KspaceSetup
| KspaceCompute (eflag vflag : Z)
| PairMinXfGet (m : Z)                          (* requestor[m]->min_xf_get(m) *)
| OutputSetup (flag : Z)
| OutputWrite (ntimestep : Z)
| TimerStamp (which : option timer_slot)
| FixMinimizeResetCoords                        (* fix_minimize->reset_coords() *)
| MinInitStyle                                  (* the virtual init_style() *)
| MinSetupStyle                                 (* the virtual setup_style() *)
| MinResetVectors                               (* the virtual reset_vectors() *)
| MinIterate (n : Z)                            (* the virtual iterate(n) *)
| MinEnergyForce (resetflag : Z).               (* entry of energy_force *)

(** The calls that evaluate a force-field contributor. *)
Definition force_contributor (c : Call) : bool :=
  match c with
  | PairCompute _ _ | BondCompute _ _ | AngleCompute _ _ | DihedralCompute _ _
  | ImproperCompute _ _ | KspaceCompute _ _ => true
  | _ => false
  end.

Section Model.

(** [D]: double; [P]: a pair style (the target of a [Pair *]); [C]: a
    compute; [S]: the data of the concrete minimiser derived from [Min];
    [X]: the state of the collaborators that [min.cpp] never looks at. *)
Context {D : Type} {SD : Scalar D}.
Context {P C S X : Type}.

(** *** The LAMMPS instance reached through [Pointers] *)

Record LAMMPS := mkLAMMPS {
  atom : Atom.t D;
  force : Force.t;
  comm : Comm.t;
  domain : Domain.t;
  neighbor : Neighbor.t;
  update : Update.t;
  output : Output.t;
  modify : Modify.t C;
  screen : bool;                 (* screen != NULL *)
  world : Communicator D;
  vstore : list (list D);        (* vectors owned by fixes and pair styles *)
  ext : X
}.

Definition set_atom (v : Atom.t D) (w : LAMMPS) : LAMMPS :=
  mkLAMMPS v (force w) (comm w) (domain w) (neighbor w) (update w) (output w)
           (modify w) (screen w) (world w) (vstore w) (ext w).
Definition set_neighbor (v : Neighbor.t) (w : LAMMPS) : LAMMPS :=
  mkLAMMPS (atom w) (force w) (comm w) (domain w) v (update w) (output w)
           (modify w) (screen w) (world w) (vstore w) (ext w).
Definition set_update (v : Update.t) (w : LAMMPS) : LAMMPS :=
  mkLAMMPS (atom w) (force w) (comm w) (domain w) (neighbor w) v (output w)
           (modify w) (screen w) (world w) (vstore w) (ext w).
Definition set_output (v : Output.t) (w : LAMMPS) : LAMMPS :=
  mkLAMMPS (atom w) (force w) (comm w) (domain w) (neighbor w) (update w) v
           (modify w) (screen w) (world w) (vstore w) (ext w).
Definition set_modify (v : Modify.t C) (w : LAMMPS) : LAMMPS :=
  mkLAMMPS (atom w) (force w) (comm w) (domain w) (neighbor w) (update w) (output w)
           v (screen w) (world w) (vstore w) (ext w).
Definition set_world (v : Communicator D) (w : LAMMPS) : LAMMPS :=
  mkLAMMPS (atom w) (force w) (comm w) (domain w) (neighbor w) (update w) (output w)
           (modify w) (screen w) v (vstore w) (ext w).

(** The components of a per-atom array of 3-vectors in memory order. *)
Definition flat3 (a : list (vec3 D)) : list D :=
  concat (map (fun v => [c0 v; c1 v; c2 v]) a).

(** The array a [double *] points to. *)
Definition deref (w : LAMMPS) (p : dptr) : list D :=
  match p with
  | PNull => []
  | PAtomF => flat3 (Atom.f (atom w))
  | PStore k => default [] (vstore w !! k)
  end.

(** [a[i]] for an array of slots; an unwritten or missing slot reads as
    [d] (in C++ the read is undefined). *)
Definition rd {A : Type} (d : A) (a : list (cell A)) (i : nat) : A :=
  match a !! i with
  | Some (Some v) => v
  | _ => d
  end.

(** *** The fields of [Min] *)

Record Min := mkMin {
  dmax : D; searchflag : Z; linestyle : Z;
  nelist_global : Z; nelist_atom : Z; nvlist_global : Z; nvlist_atom : Z;
  (* Compute **: the computes are named by their index in modify->compute *)
  elist_global : list nat; elist_atom : list nat;
  vlist_global : list nat; vlist_atom : list nat;
  nextra_global : Z; fextra : list D;
  nextra_atom : Z;
  xextra_atom : list (cell dptr); fextra_atom : list (cell dptr);
  extra_peratom : list (cell Z); extra_nlen : list (cell Z);
  extra_max : list (cell D); requestor : list (cell P);
  virial_style : Z; torqueflag : Z; erforceflag : Z; triclinic : Z;
  neigh_every : Z; neigh_delay : Z; neigh_dist_check : Z;
  niter : Z; neval : Z;
  fix_minimize : Z;              (* index of the fix in modify->fix *)
  pe_compute : Z;                (* index of the compute in modify->compute *)
  ndoftotal : Z;
  eflag : Z; vflag : Z;
  ecurrent : D; einitial : D; efinal : D;
  fnorm2_init : D; fnorminf_init : D; fnorm2_final : D; fnorminf_final : D;
  stop_condition : Z; stopstr : option string;
  nvec : Z; fvec : dptr;
  sub : S                        (* members of the derived class *)
}.

Local Abbreviation eta := (fun m : Min =>
  mkMin (dmax m) (searchflag m) (linestyle m)
        (nelist_global m) (nelist_atom m) (nvlist_global m) (nvlist_atom m)
        (elist_global m) (elist_atom m) (vlist_global m) (vlist_atom m)
        (nextra_global m) (fextra m)
        (nextra_atom m) (xextra_atom m) (fextra_atom m) (extra_peratom m)
        (extra_nlen m) (extra_max m) (requestor m)
        (virial_style m) (torqueflag m) (erforceflag m) (triclinic m)
        (neigh_every m) (neigh_delay m) (neigh_dist_check m)
        (niter m) (neval m) (fix_minimize m) (pe_compute m) (ndoftotal m)
        (eflag m) (vflag m)
        (ecurrent m) (einitial m) (efinal m)
        (fnorm2_init m) (fnorminf_init m) (fnorm2_final m) (fnorminf_final m)
        (stop_condition m) (stopstr m) (nvec m) (fvec m) (sub m)).

Definition set_nelist_global : Z -> Min -> Min := ltac:(setter constr:(eta) nelist_global).
Definition set_nelist_atom : Z -> Min -> Min := ltac:(setter constr:(eta) nelist_atom).
Definition set_nvlist_global : Z -> Min -> Min := ltac:(setter constr:(eta) nvlist_global).
Definition set_nvlist_atom : Z -> Min -> Min := ltac:(setter constr:(eta) nvlist_atom).
Definition set_elist_global : list nat -> Min -> Min := ltac:(setter constr:(eta) elist_global).
Definition set_elist_atom : list nat -> Min -> Min := ltac:(setter constr:(eta) elist_atom).
Definition set_vlist_global : list nat -> Min -> Min := ltac:(setter constr:(eta) vlist_global).
Definition set_vlist_atom : list nat -> Min -> Min := ltac:(setter constr:(eta) vlist_atom).
Definition set_nextra_global : Z -> Min -> Min := ltac:(setter constr:(eta) nextra_global).
Definition set_fextra : list D -> Min -> Min := ltac:(setter constr:(eta) fextra).
Definition set_nextra_atom : Z -> Min -> Min := ltac:(setter constr:(eta) nextra_atom).
Definition set_xextra_atom : list (cell dptr) -> Min -> Min := ltac:(setter constr:(eta) xextra_atom).
Definition set_fextra_atom : list (cell dptr) -> Min -> Min := ltac:(setter constr:(eta) fextra_atom).
Definition set_extra_peratom : list (cell Z) -> Min -> Min := ltac:(setter constr:(eta) extra_peratom).
Definition set_extra_nlen : list (cell Z) -> Min -> Min := ltac:(setter constr:(eta) extra_nlen).
Definition set_extra_max : list (cell D) -> Min -> Min := ltac:(setter constr:(eta) extra_max).
Definition set_requestor : list (cell P) -> Min -> Min := ltac:(setter constr:(eta) requestor).
Definition set_virial_style : Z -> Min -> Min := ltac:(setter constr:(eta) virial_style).
Definition set_torqueflag : Z -> Min -> Min := ltac:(setter constr:(eta) torqueflag).
Definition set_erforceflag : Z -> Min -> Min := ltac:(setter constr:(eta) erforceflag).
Definition set_triclinic : Z -> Min -> Min := ltac:(setter constr:(eta) triclinic).
Definition set_neigh_every : Z -> Min -> Min := ltac:(setter constr:(eta) neigh_every).
Definition set_neigh_delay : Z -> Min -> Min := ltac:(setter constr:(eta) neigh_delay).
Definition set_neigh_dist_check : Z -> Min -> Min := ltac:(setter constr:(eta) neigh_dist_check).
Definition set_niter : Z -> Min -> Min := ltac:(setter constr:(eta) niter).
Definition set_neval : Z -> Min -> Min := ltac:(setter constr:(eta) neval).
Definition set_fix_minimize : Z -> Min -> Min := ltac:(setter constr:(eta) fix_minimize).
Definition set_pe_compute : Z -> Min -> Min := ltac:(setter constr:(eta) pe_compute).
Definition set_ndoftotal : Z -> Min -> Min := ltac:(setter constr:(eta) ndoftotal).
Definition set_eflag : Z -> Min -> Min := ltac:(setter constr:(eta) eflag).
Definition set_vflag : Z -> Min -> Min := ltac:(setter constr:(eta) vflag).
Definition set_ecurrent : D -> Min -> Min := ltac:(setter constr:(eta) ecurrent).
Definition set_einitial : D -> Min -> Min := ltac:(setter constr:(eta) einitial).
Definition set_efinal : D -> Min -> Min := ltac:(setter constr:(eta) efinal).
Definition set_fnorm2_init : D -> Min -> Min := ltac:(setter constr:(eta) fnorm2_init).
Definition set_fnorminf_init : D -> Min -> Min := ltac:(setter constr:(eta) fnorminf_init).
Definition set_fnorm2_final : D -> Min -> Min := ltac:(setter constr:(eta) fnorm2_final).
Definition set_fnorminf_final : D -> Min -> Min := ltac:(setter constr:(eta) fnorminf_final).
Definition set_stop_condition : Z -> Min -> Min := ltac:(setter constr:(eta) stop_condition).
Definition set_stopstr : option string -> Min -> Min := ltac:(setter constr:(eta) stopstr).
Definition set_dmax : D -> Min -> Min := ltac:(setter constr:(eta) dmax).
Definition set_linestyle : Z -> Min -> Min := ltac:(setter constr:(eta) linestyle).

(** [Min::Min]: the object as the constructor leaves it.  The members the
    constructor does not initialise are parameters. *)
Definition Min_new (uninit : Min) : Min :=
  mkMin (d_div (d_of_bigint 1) (d_of_bigint 10)) 0 0
        (nelist_global uninit) (nelist_atom uninit) (nvlist_global uninit)
        (nvlist_atom uninit)
        [] [] [] []
        0 []
        0 [] [] [] [] [] []
        (virial_style uninit) (torqueflag uninit) (erforceflag uninit)
        (triclinic uninit)
        (neigh_every uninit) (neigh_delay uninit) (neigh_dist_check uninit)
        (niter uninit) (neval uninit) (fix_minimize uninit) (pe_compute uninit)
        (ndoftotal uninit) (eflag uninit) (vflag uninit)
        (ecurrent uninit) (einitial uninit) (efinal uninit)
        (fnorm2_init uninit) (fnorminf_init uninit) (fnorm2_final uninit)
        (fnorminf_final uninit)
        (stop_condition uninit) (stopstr uninit) (nvec uninit) (fvec uninit)
        (sub uninit).

(** *** State, errors and the trace *)

Record St := mkSt { minimize : Min; lmp : LAMMPS; trace : list Call }.

Inductive Res (A : Type) :=
| Ok (a : A) (s : St)
| Abort (msg : string) (s : St).      (* error->all(msg) *)
Arguments Ok {A}.
Arguments Abort {A}.

Definition M (A : Type) : Type := St -> Res A.

#[global] Instance M_ret : MRet M := fun A a s => Ok a s.
#[global] Instance M_bind : MBind M := fun A B k m s =>
  match m s with
  | Ok a s' => k a s'
  | Abort msg s' => Abort msg s'
  end.

(** The state a computation ends in when it returns, and the message and
    state when it aborts. *)
Definition final {A : Type} (r : Res A) : option St :=
  match r with
  | Ok _ s => Some s
  | Abort _ _ => None
  end.

Definition aborted {A : Type} (r : Res A) : option (string * St) :=
  match r with
  | Ok _ _ => None
  | Abort msg s => Some (msg, s)
  end.

Definition get_st : M St := fun s => Ok s s.
Definition upd_min (g : Min -> Min) : M unit :=
  fun s => Ok tt (mkSt (g (minimize s)) (lmp s) (trace s)).
Definition upd_lmp (g : LAMMPS -> LAMMPS) : M unit :=
  fun s => Ok tt (mkSt (minimize s) (g (lmp s)) (trace s)).
Definition log (c : Call) : M unit :=
  fun s => Ok tt (mkSt (minimize s) (lmp s) (trace s ++ [c])).

(** A call of a collaborator method without a result, and with one. *)
Definition call (c : Call) (g : LAMMPS -> LAMMPS) : M unit :=
  upd_lmp g;; log c.
Definition callv {A : Type} (c : A -> Call) (g : LAMMPS -> A * LAMMPS) : M A :=
  fun s => let '(a, w) := g (lmp s) in
           Ok a (mkSt (minimize s) w (trace s ++ [c a])).
(** A call of a virtual method implemented by the derived class. *)
Definition call_virtual (c : Call) (g : Min -> LAMMPS -> Min * LAMMPS) : M unit :=
  fun s => let '(m, w) := g (minimize s) (lmp s) in
           Ok tt (mkSt m w (trace s ++ [c])).

Definition error_all {A : Type} (msg : string) : M A := fun s => Abort msg s.
Definition error_warning (msg : string) : M unit := log (ErrorWarning msg).

Definition when (b : bool) (body : M unit) : M unit :=
  if b then body else mret tt.

(** [for (x in l) body]. *)
Fixpoint for_each {A : Type} (l : list A) (body : A -> M unit) : M unit :=
  match l with
  | [] => mret tt
  | x :: l' => body x;; for_each l' body
  end.

(** The indices [0 .. n-1] of a counting loop. *)
Definition upto (n : Z) : list nat := seq 0 (Z.to_nat n).

(** *** The methods of the collaborators and of the derived class *)

Record Hooks := mkHooks {
  modify_add_fix : list string -> LAMMPS -> LAMMPS;
  modify_delete_fix : string -> LAMMPS -> LAMMPS;
  modify_min_dof : LAMMPS -> Z * LAMMPS;
  modify_find_compute : string -> LAMMPS -> Z * LAMMPS;
  modify_setup_pre_force : Z -> LAMMPS -> LAMMPS;
  modify_setup : Z -> LAMMPS -> LAMMPS;
  modify_min_pre_exchange : LAMMPS -> LAMMPS;
  modify_min_pre_force : Z -> LAMMPS -> LAMMPS;
  modify_min_post_force : Z -> LAMMPS -> LAMMPS;
  (* min_energy(fextra) fills fextra and returns the energy *)
  modify_min_energy : list D -> LAMMPS -> (D * list D) * LAMMPS;
  modify_addstep_compute_all : Z -> LAMMPS -> LAMMPS;
  peflag : C -> Z;
  peatomflag : C -> Z;
  pressflag : C -> Z;
  pressatomflag : C -> Z;
  matchstep : Z -> C -> Z * C;
  compute_scalar : Z -> LAMMPS -> D * LAMMPS;
  atom_setup : LAMMPS -> LAMMPS;
  atom_sort : LAMMPS -> LAMMPS;
  domain_x2lamda : Z -> LAMMPS -> LAMMPS;
  domain_lamda2x : Z -> LAMMPS -> LAMMPS;
  domain_pbc : LAMMPS -> LAMMPS;
  domain_reset_box : LAMMPS -> LAMMPS;
  comm_setup : LAMMPS -> LAMMPS;
  comm_exchange : LAMMPS -> LAMMPS;
  comm_borders : LAMMPS -> LAMMPS;
  comm_forward_comm : LAMMPS -> LAMMPS;
  comm_reverse_comm : LAMMPS -> LAMMPS;
  neighbor_setup_bins : LAMMPS -> LAMMPS;
  neighbor_build : LAMMPS -> LAMMPS;
  neighbor_decide : LAMMPS -> Z * LAMMPS;
  pair_compute : Z -> Z -> LAMMPS -> LAMMPS;
  bond_compute : Z -> Z -> LAMMPS -> LAMMPS;
  angle_compute : Z -> Z -> LAMMPS -> LAMMPS;
  dihedral_compute : Z -> Z -> LAMMPS -> LAMMPS;
  improper_compute : Z -> Z -> LAMMPS -> LAMMPS;
  kspace_setup : LAMMPS -> LAMMPS;
  kspace_compute : Z -> Z -> LAMMPS -> LAMMPS;
  pair_min_xf_get : P -> Z -> LAMMPS -> LAMMPS;
  output_setup : Z -> LAMMPS -> LAMMPS;
  output_write : Z -> LAMMPS -> LAMMPS;
  timer_stamp : option timer_slot -> LAMMPS -> LAMMPS;
  fix_minimize_reset_coords : Z -> LAMMPS -> LAMMPS;
  (* contents of a fresh new double[n], slot by slot *)
  new_double : LAMMPS -> nat -> D;
  init_style : Min -> LAMMPS -> Min * LAMMPS;
  setup_style : Min -> LAMMPS -> Min * LAMMPS;
  reset_vectors : Min -> LAMMPS -> Min * LAMMPS;
  iterate : Z -> Min -> LAMMPS -> Z * (Min * LAMMPS)
}.

Variable h : Hooks.

Definition stamp (which : option timer_slot) : M unit :=
  call (TimerStamp which) (timer_stamp h which).

(** *** [Min::request] *)

(** The method only touches members of [Min]; it returns the flag and the
    updated object. *)
Definition request (pair : P) (peratom : Z) (maxvalue : D) (m : Min) : Z * Min :=
  let n := nextra_atom m + 1 in
  let m := set_xextra_atom (grow (xextra_atom m) n) m in
  let m := set_fextra_atom (grow (fextra_atom m) n) m in
  let m := set_extra_peratom (grow (extra_peratom m) n) m in
  let m := set_extra_nlen (grow (extra_nlen m) n) m in
  let m := set_extra_max (grow (extra_max m) n) m in
  let m := set_requestor (grow (requestor m) n) m in
  let m := set_requestor (store (requestor m) (nextra_atom m) (Some pair)) m in
  let m := set_extra_peratom (store (extra_peratom m) (nextra_atom m) (Some peratom)) m in
  let m := set_extra_max (store (extra_max m) (nextra_atom m) (Some maxvalue)) m in
  let m := set_nextra_atom (nextra_atom m + 1) m in
  (nextra_atom m - 1, m).

(** *** [Min::ev_setup] *)

(** One of the four filling loops: the computes whose flag is set, in the
    order of [modify->compute]. *)
Definition ev_collect (flag : C -> Z) (w : LAMMPS) : list nat :=
  foldl (fun acc i =>
           match Modify.compute (modify w) !! i with
           | Some c => if truthy (flag c) then acc ++ [i] else acc
           | None => acc
           end)
        [] (upto (Modify.ncompute (modify w))).

(** The counting pass and the filling pass test the same flags, so each
    counter ends as the length of its list. *)
Definition ev_setup : M unit :=
  s ← get_st;
  let w := lmp s in
  upd_min (set_elist_global (ev_collect (peflag h) w));;
  upd_min (set_elist_atom (ev_collect (peatomflag h) w));;
  upd_min (set_vlist_global (ev_collect (pressflag h) w));;
  upd_min (set_vlist_atom (ev_collect (pressatomflag h) w));;
  upd_min (set_nelist_global (Z.of_nat (length (ev_collect (peflag h) w))));;
  upd_min (set_nelist_atom (Z.of_nat (length (ev_collect (peatomflag h) w))));;
  upd_min (set_nvlist_global (Z.of_nat (length (ev_collect (pressflag h) w))));;
  upd_min (set_nvlist_atom (Z.of_nat (length (ev_collect (pressatomflag h) w)))).

(** *** [Min::ev_set] *)

(** [list[i]->matchstep(ntimestep)]: the compute is updated in place in
    [modify->compute], so a compute that sits in several lists is shared. *)
Definition call_matchstep (l : evlist) (c : nat) (ntimestep : Z) : M Z :=
  fun s =>
    match Modify.compute (modify (lmp s)) !! c with
    | Some cv =>
        let '(r, cv') := matchstep h ntimestep cv in
        Ok r (mkSt (minimize s)
                   (set_modify (Modify.set_compute
                                  (<[c := cv']> (Modify.compute (modify (lmp s))))
                                  (modify (lmp s))) (lmp s))
                   (trace s ++ [ComputeMatchstep l c ntimestep r]))
    | None => Ok 0 s
    end.

(** [for (i = 0; i < n; i++) if (list[i]->matchstep(ntimestep)) flag = 1;]
    started with [flag]. *)
Fixpoint scan (l : evlist) (cs : list nat) (ntimestep : Z) (flag : Z) : M Z :=
  match cs with
  | [] => mret flag
  | c :: cs' =>
      r ← call_matchstep l c ntimestep;
      scan l cs' ntimestep (if truthy r then 1 else flag)
  end.

Definition ev_set (ntimestep : Z) : M unit :=
  let eflag_global := 1 in
  s ← get_st;
  _ ← scan EGlobal (take (Z.to_nat (nelist_global (minimize s))) (elist_global (minimize s)))
           ntimestep 0;
  flag ← scan EAtom (take (Z.to_nat (nelist_atom (minimize s))) (elist_atom (minimize s)))
              ntimestep 0;
  let eflag_atom := if truthy flag then 2 else 0 in
  when (truthy eflag_global)
    (upd_lmp (fun w => set_update (Update.set_eflag_global (Update.ntimestep (update w))
                                                           (update w)) w));;
  when (truthy eflag_atom)
    (upd_lmp (fun w => set_update (Update.set_eflag_atom (Update.ntimestep (update w))
                                                         (update w)) w));;
  upd_min (set_eflag (eflag_global + eflag_atom));;
  flag ← scan VGlobal (take (Z.to_nat (nvlist_global (minimize s))) (vlist_global (minimize s)))
              ntimestep 0;
  let vflag_global := if truthy flag then virial_style (minimize s) else 0 in
  flag ← scan VAtom (take (Z.to_nat (nvlist_atom (minimize s))) (vlist_atom (minimize s)))
              ntimestep 0;
  let vflag_atom := if truthy flag then 4 else 0 in
  when (truthy vflag_global)
    (upd_lmp (fun w => set_update (Update.set_vflag_global (Update.ntimestep (update w))
                                                           (update w)) w));;
  when (truthy vflag_atom)
    (upd_lmp (fun w => set_update (Update.set_vflag_atom (Update.ntimestep (update w))
                                                         (update w)) w));;
  upd_min (set_vflag (vflag_global + vflag_atom)).

(** *** [Min::force_clear] *)

Definition zero3 : vec3 D := Vec3 d_zero d_zero d_zero.

(** [for (i = 0; i < n; i++) a[i] = z;] *)
Definition fill_prefix {A : Type} (z : A) (n : Z) (a : list A) : list A :=
  foldl (fun a i => <[i := z]> a) a (upto n).

Definition force_clear : M unit :=
  s ← get_st;
  let w := lmp s in
  let nall := if truthy (Force.newton (force w))
              then Atom.nlocal (atom w) + Atom.nghost (atom w)
              else Atom.nlocal (atom w) in
  let ntot := nall * Comm.nthreads (comm w) in
  upd_lmp (fun w => set_atom (Atom.set_f (fill_prefix zero3 ntot (Atom.f (atom w))) (atom w)) w);;
  when (truthy (torqueflag (minimize s)))
    (upd_lmp (fun w => set_atom (Atom.set_torque (fill_prefix zero3 nall (Atom.torque (atom w)))
                                                 (atom w)) w));;
  when (truthy (erforceflag (minimize s)))
    (upd_lmp (fun w => set_atom (Atom.set_erforce (fill_prefix d_zero nall (Atom.erforce (atom w)))
                                                  (atom w)) w)).

(** *** [Min::fnorm_sqr] and [Min::fnorm_inf] *)

(** The macro [MAX(A,B)]: [((A) > (B)) ? (A) : (B)]. *)
Definition MAX (a b : D) : D := if d_gt a b then a else b.

(** [acc += x*x] and [acc = MAX(fabs(x),acc)]. *)
Definition add_sq (acc x : D) : D := d_add acc (d_mul x x).
Definition max_abs (acc x : D) : D := MAX (d_fabs x) acc.

(** [for (i = 0; i < n; i++) acc = step(acc,v[i]);] *)
Definition over (step : D -> D -> D) (acc : D) (v : list D) (n : Z) : D :=
  foldl step acc (take (Z.to_nat n) v).

(** [if (nextra_atom) for (m = 0; m < nextra_atom; m++) { fatom =
    fextra_atom[m]; n = extra_nlen[m]; for (i ...) ... }] *)
Definition over_extra_atom (step : D -> D -> D) (m : Min) (w : LAMMPS) (acc : D) : D :=
  if truthy (nextra_atom m) then
    foldl (fun acc k => over step acc (deref w (rd PNull (fextra_atom m) k))
                             (rd 0 (extra_nlen m) k))
          acc (upto (nextra_atom m))
  else acc.

(** [if (nextra_global) for (i = 0; i < nextra_global; i++) ...fextra[i]...] *)
Definition over_extra_global (step : D -> D -> D) (m : Min) (acc : D) : D :=
  if truthy (nextra_global m) then over step acc (fextra m) (nextra_global m) else acc.

(** The reduction operations [min.cpp] passes to [MPI_Allreduce]. *)
Inductive mpi_op := MPI_SUM | MPI_MAX.

(** A computation of one process that takes part in collectives of the
    communicator [world]: it ends with a value, or it calls [MPI_Allreduce]
    on one [double] with the operation [op] and goes on with the value it
    receives. *)
Inductive Par (A : Type) :=
| Done (a : A)
| Allreduce (op : mpi_op) (send : D) (recv : D -> Par A).
Arguments Done {A}.
Arguments Allreduce {A}.

(** Such a computation as the process itself sees it: [world] answers each
    collective. *)
Fixpoint in_world {A : Type} (c : Communicator D) (p : Par A) : A :=
  match p with
  | Done a => a
  | Allreduce MPI_SUM x k => in_world c (k (allreduce_sum_double c x))
  | Allreduce MPI_MAX x k => in_world c (k (allreduce_max_double c x))
  end.

Definition local_norm2_sqr (m : Min) (w : LAMMPS) : D :=
  over_extra_atom add_sq m w (over add_sq d_zero (deref w (fvec m)) (nvec m)).

(** [fnorm_sqr] up to and after its [MPI_Allreduce], and as called by
    [setup] and [cleanup] on one process. *)
Definition fnorm_sqr_par (m : Min) (w : LAMMPS) : Par D :=
  Allreduce MPI_SUM (local_norm2_sqr m w)
            (fun norm2_sqr => Done (over_extra_global add_sq m norm2_sqr)).

Definition fnorm_sqr (m : Min) (w : LAMMPS) : D :=
  in_world (world w) (fnorm_sqr_par m w).

Definition local_norm_inf (m : Min) (w : LAMMPS) : D :=
  over_extra_atom max_abs m w (over max_abs d_zero (deref w (fvec m)) (nvec m)).

Definition fnorm_inf_par (m : Min) (w : LAMMPS) : Par D :=
  Allreduce MPI_MAX (local_norm_inf m w)
            (fun norm_inf => Done (over_extra_global max_abs m norm_inf)).

Definition fnorm_inf (m : Min) (w : LAMMPS) : D :=
  in_world (world w) (fnorm_inf_par m w).

(** *** The statements shared by [setup] and [energy_force] *)

(** [if (nextra_atom) for (m ...) requestor[m]->min_xf_get(m);] *)
Definition harvest_extra_atom : M unit :=
  s ← get_st;
  when (truthy (nextra_atom (minimize s)))
    (for_each (upto (nextra_atom (minimize s)))
       (fun k => match requestor (minimize s) !! k with
                 | Some (Some p) =>
                     call (PairMinXfGet (Z.of_nat k)) (pair_min_xf_get h p (Z.of_nat k))
                 | _ => mret tt
                 end)).

(** [e = pe_compute->compute_scalar(); if (nextra_global) e +=
    modify->min_energy(fextra); if (output->thermo->normflag) e /=
    atom->natoms;] *)
Definition potential_energy : M D :=
  s ← get_st;
  e ← callv (fun _ => ComputeScalar (pe_compute (minimize s)))
            (compute_scalar h (pe_compute (minimize s)));
  e ← (if truthy (nextra_global (minimize s)) then
         '(de, fx) ← callv (fun _ => ModifyMinEnergy)
                           (modify_min_energy h (fextra (minimize s)));
         upd_min (set_fextra fx);;
         mret (d_add e de)
       else mret e);
  s ← get_st;
  if truthy (Output.thermo_normflag (output (lmp s)))
  then mret (d_div e (d_of_bigint (Atom.natoms (atom (lmp s)))))
  else mret e.

(** *** [Min::energy_force] *)

Definition energy_force (resetflag : Z) : M D :=
  log (MinEnergyForce resetflag);;
  nflag ← callv NeighborDecide (neighbor_decide h);
  (if nflag =? 0 then
     stamp None;;
     call CommForwardComm (comm_forward_comm h);;
     stamp (Some T_COMM)
   else
     s ← get_st;
     when (truthy (Modify.n_min_pre_exchange (modify (lmp s))))
       (stamp None;;
        call ModifyMinPreExchange (modify_min_pre_exchange h);;
        stamp (Some T_MODIFY));;
     s ← get_st;
     when (truthy (triclinic (minimize s)))
       (call (DomainX2lamda (Atom.nlocal (atom (lmp s))))
             (domain_x2lamda h (Atom.nlocal (atom (lmp s)))));;
     call DomainPbc (domain_pbc h);;
     s ← get_st;
     when (truthy (Domain.box_change (domain (lmp s))))
       (call DomainResetBox (domain_reset_box h);;
        call CommSetup (comm_setup h);;
        s ← get_st;
        when (truthy (Neighbor.style (neighbor (lmp s))))
          (call NeighborSetupBins (neighbor_setup_bins h)));;
     stamp None;;
     call CommExchange (comm_exchange h);;
     s ← get_st;
     when ((0 <? Atom.sortfreq (atom (lmp s))) &&
           (Atom.nextsort (atom (lmp s)) <=? Update.ntimestep (update (lmp s))))
       (call AtomSort (atom_sort h));;
     call CommBorders (comm_borders h);;
     s ← get_st;
     when (truthy (triclinic (minimize s)))
       (call (DomainLamda2x (Atom.nlocal (atom (lmp s)) + Atom.nghost (atom (lmp s))))
             (domain_lamda2x h (Atom.nlocal (atom (lmp s)) + Atom.nghost (atom (lmp s)))));;
     stamp (Some T_COMM);;
     call NeighborBuild (neighbor_build h);;
     stamp (Some T_NEIGHBOR));;
  s ← get_st;
  ev_set (Update.ntimestep (update (lmp s)));;
  force_clear;;
  stamp None;;
  s ← get_st;
  when (truthy (Modify.n_min_pre_force (modify (lmp s))))
    (call (ModifyMinPreForce (vflag (minimize s))) (modify_min_pre_force h (vflag (minimize s)));;
     stamp (Some T_MODIFY));;
  s ← get_st;
  let ef := eflag (minimize s) in
  let vf := vflag (minimize s) in
  when (Force.pair (force (lmp s)))
    (call (PairCompute ef vf) (pair_compute h ef vf);;
     stamp (Some T_PAIR));;
  s ← get_st;
  when (truthy (Atom.molecular (atom (lmp s))))
    (s ← get_st;
     when (Force.bond (force (lmp s))) (call (BondCompute ef vf) (bond_compute h ef vf));;
     s ← get_st;
     when (Force.angle (force (lmp s))) (call (AngleCompute ef vf) (angle_compute h ef vf));;
     s ← get_st;
     when (Force.dihedral (force (lmp s)))
       (call (DihedralCompute ef vf) (dihedral_compute h ef vf));;
     s ← get_st;
     when (Force.improper (force (lmp s)))
       (call (ImproperCompute ef vf) (improper_compute h ef vf));;
     stamp (Some T_BOND));;
  s ← get_st;
  when (Force.kspace (force (lmp s)))
    (call (KspaceCompute ef vf) (kspace_compute h ef vf);;
     stamp (Some T_KSPACE));;
  s ← get_st;
  when (truthy (Force.newton (force (lmp s))))
    (call CommReverseComm (comm_reverse_comm h);;
     stamp (Some T_COMM));;
  harvest_extra_atom;;
  s ← get_st;
  when (truthy (Modify.n_min_post_force (modify (lmp s))))
    (stamp None;;
     call (ModifyMinPostForce vf) (modify_min_post_force h vf);;
     stamp (Some T_MODIFY));;
  energy ← potential_energy;
  when (truthy nflag)
    (s ← get_st;
     when (truthy resetflag)
       (call FixMinimizeResetCoords (fix_minimize_reset_coords h (fix_minimize (minimize s))));;
     call_virtual MinResetVectors (reset_vectors h));;
  mret energy.

(** *** [Min::init] *)

Definition msg_reneigh : string :=
  "Resetting reneighboring criteria during minimization"%string.

Definition init : M unit :=
  call (ModifyAddFix ["MINIMIZE"; "all"; "MINIMIZE"]%string)
       (modify_add_fix h ["MINIMIZE"; "all"; "MINIMIZE"]%string);;
  s ← get_st;
  upd_min (set_fix_minimize (Modify.nfix (modify (lmp s)) - 1));;
  (* clear out extra global and per-atom dof *)
  upd_min (set_nextra_global 0);;
  upd_min (set_fextra []);;
  upd_min (set_nextra_atom 0);;
  upd_min (set_xextra_atom []);;
  upd_min (set_fextra_atom []);;
  upd_min (set_extra_peratom []);;
  upd_min (set_extra_nlen []);;
  upd_min (set_extra_max []);;
  upd_min (set_requestor []);;
  upd_min (set_virial_style (if truthy (Force.newton_pair (force (lmp s))) then 2 else 1));;
  ev_setup;;
  upd_min (set_torqueflag 0);;
  when (truthy (Atom.torque_flag (atom (lmp s)))) (upd_min (set_torqueflag 1));;
  upd_min (set_erforceflag 0);;
  when (truthy (Atom.erforce_flag (atom (lmp s)))) (upd_min (set_erforceflag 1));;
  upd_min (set_triclinic (Domain.triclinic (domain (lmp s))));;
  (* reset reneighboring criteria if necessary *)
  upd_min (set_neigh_every (Neighbor.every (neighbor (lmp s))));;
  upd_min (set_neigh_delay (Neighbor.delay (neighbor (lmp s))));;
  upd_min (set_neigh_dist_check (Neighbor.dist_check (neighbor (lmp s))));;
  s ← get_st;
  when (negb (neigh_every (minimize s) =? 1) || negb (neigh_delay (minimize s) =? 0)
        || negb (neigh_dist_check (minimize s) =? 1))
    (when (Comm.me (comm (lmp s)) =? 0) (error_warning msg_reneigh));;
  upd_lmp (fun w => set_neighbor (Neighbor.set_every 1 (neighbor w)) w);;
  upd_lmp (fun w => set_neighbor (Neighbor.set_delay 0 (neighbor w)) w);;
  upd_lmp (fun w => set_neighbor (Neighbor.set_dist_check 1 (neighbor w)) w);;
  upd_min (set_niter 0);;
  upd_min (set_neval 0);;
  call_virtual MinInitStyle (init_style h).

(** *** [Min::setup] *)

(** The text [setup] prints: ["Setting up minimization ...\n"]. *)
Definition msg_setting_up : string :=
  String.append "Setting up minimization ..."%string (String (Ascii.ascii_of_nat 10) EmptyString).

Definition msg_no_pe : string := "Minimization could not find thermo_pe compute"%string.
Definition msg_box_relax : string :=
  "Cannot use a damped dynamics min style with fix box/relax"%string.
Definition msg_peratom_dof : string :=
  "Cannot use a damped dynamics min style with per-atom DOF"%string.

Definition setup : M unit :=
  s ← get_st;
  when ((Comm.me (comm (lmp s)) =? 0) && screen (lmp s))
    (log (ScreenPrint msg_setting_up));;
  (* setup extra global dof due to fixes; [min_dof()] is a count: for a
     negative one [new double[nextra_global]] fails, which is outside the
     model *)
  n ← callv (fun _ => ModifyMinDof) (modify_min_dof h);
  upd_min (set_nextra_global n);;
  s ← get_st;
  when (truthy n)
    (upd_min (set_fextra (map (new_double h (lmp s)) (upto n))));;
  (* compute for potential energy *)
  id ← callv (fun _ => ModifyFindCompute "thermo_pe"%string)
             (modify_find_compute h "thermo_pe"%string);
  (if id <? 0 then error_all msg_no_pe else mret tt);;
  upd_min (set_pe_compute id);;
  call_virtual MinSetupStyle (setup_style h);;
  (* ndoftotal = total dof for entire minimization problem *)
  s ← get_st;
  let ndofme :=
    foldl (fun acc k => acc + rd 0 (extra_peratom (minimize s)) k * Atom.nlocal (atom (lmp s)))
          (3 * Atom.nlocal (atom (lmp s))) (upto (nextra_atom (minimize s))) in
  upd_min (set_ndoftotal (allreduce_sum_bigint (world (lmp s)) ndofme));;
  upd_min (fun m => set_ndoftotal (ndoftotal m + nextra_global m) m);;
  (* setup domain, communication and neighboring *)
  call AtomSetup (atom_setup h);;
  s ← get_st;
  when (truthy (triclinic (minimize s)))
    (call (DomainX2lamda (Atom.nlocal (atom (lmp s))))
          (domain_x2lamda h (Atom.nlocal (atom (lmp s)))));;
  call DomainPbc (domain_pbc h);;
  call DomainResetBox (domain_reset_box h);;
  call CommSetup (comm_setup h);;
  s ← get_st;
  when (truthy (Neighbor.style (neighbor (lmp s))))
    (call NeighborSetupBins (neighbor_setup_bins h));;
  call CommExchange (comm_exchange h);;
  s ← get_st;
  when (0 <? Atom.sortfreq (atom (lmp s))) (call AtomSort (atom_sort h));;
  call CommBorders (comm_borders h);;
  s ← get_st;
  when (truthy (triclinic (minimize s)))
    (call (DomainLamda2x (Atom.nlocal (atom (lmp s)) + Atom.nghost (atom (lmp s))))
          (domain_lamda2x h (Atom.nlocal (atom (lmp s)) + Atom.nghost (atom (lmp s)))));;
  call NeighborBuild (neighbor_build h);;
  upd_lmp (fun w => set_neighbor (Neighbor.set_ncalls 0 (neighbor w)) w);;
  (* remove these restriction eventually *)
  s ← get_st;
  (if truthy (nextra_global (minimize s)) && (searchflag (minimize s) =? 0)
   then error_all msg_box_relax else mret tt);;
  (if truthy (nextra_atom (minimize s)) && (searchflag (minimize s) =? 0)
   then error_all msg_peratom_dof else mret tt);;
  (* atoms may have migrated in comm->exchange() *)
  call_virtual MinResetVectors (reset_vectors h);;
  (* compute all forces *)
  s ← get_st;
  ev_set (Update.ntimestep (update (lmp s)));;
  force_clear;;
  s ← get_st;
  let ef := eflag (minimize s) in
  let vf := vflag (minimize s) in
  call (ModifySetupPreForce vf) (modify_setup_pre_force h vf);;
  s ← get_st;
  when (Force.pair (force (lmp s))) (call (PairCompute ef vf) (pair_compute h ef vf));;
  s ← get_st;
  when (truthy (Atom.molecular (atom (lmp s))))
    (s ← get_st;
     when (Force.bond (force (lmp s))) (call (BondCompute ef vf) (bond_compute h ef vf));;
     s ← get_st;
     when (Force.angle (force (lmp s))) (call (AngleCompute ef vf) (angle_compute h ef vf));;
     s ← get_st;
     when (Force.dihedral (force (lmp s)))
       (call (DihedralCompute ef vf) (dihedral_compute h ef vf));;
     s ← get_st;
     when (Force.improper (force (lmp s)))
       (call (ImproperCompute ef vf) (improper_compute h ef vf)));;
  s ← get_st;
  when (Force.kspace (force (lmp s)))
    (call KspaceSetup (kspace_setup h);;
     call (KspaceCompute ef vf) (kspace_compute h ef vf));;
  s ← get_st;
  when (truthy (Force.newton (force (lmp s))))
    (call CommReverseComm (comm_reverse_comm h));;
  (* update per-atom minimization variables stored by pair styles *)
  harvest_extra_atom;;
  call (ModifySetup vf) (modify_setup h vf);;
  call (OutputSetup 1) (output_setup h 1);;
  (* stats for Finish to print *)
  e ← potential_energy;
  upd_min (set_ecurrent e);;
  upd_min (fun m => set_einitial (ecurrent m) m);;
  s ← get_st;
  upd_min (set_fnorm2_init (d_sqrt (fnorm_sqr (minimize s) (lmp s))));;
  upd_min (set_fnorminf_init (fnorm_inf (minimize s) (lmp s))).

(** *** [Min::stopstrings] *)

Definition stopstrings_table : list string :=
  ["max iterations"; "max force evaluations"; "energy tolerance";
   "force tolerance"; "search direction is not downhill";
   "linesearch alpha is zero"; "forces are zero";
   "quadratic factors are zero"; "trust region too small";
   "HFTN minimizer error"]%string.

(** [strings[n]]; outside the table the read is undefined, here [None]. *)
Definition stopstrings (n : Z) : option string :=
  if n <? 0 then None else stopstrings_table !! Z.to_nat n.

(** *** [Min::run] *)

Definition run (n : Z) : M unit :=
  stop ← (fun s => let '(r, (m, w)) := iterate h n (minimize s) (lmp s) in
                   Ok r (mkSt m w (trace s ++ [MinIterate n])));
  upd_min (set_stop_condition stop);;
  upd_min (fun m => set_stopstr (stopstrings (stop_condition m)) m);;
  s ← get_st;
  when (truthy (stop_condition (minimize s)))
    (upd_lmp (fun w => set_update (Update.set_nsteps (niter (minimize s)) (update w)) w);;
     s ← get_st;
     when (Update.restrict_output (update (lmp s)) =? 0)
       (upd_lmp (fun w =>
          set_output (Output.set_next_dump
                        (foldl (fun a idump => <[idump := Update.ntimestep (update w)]> a)
                               (Output.next_dump (output w)) (upto (Output.ndump (output w))))
                        (output w)) w);;
        upd_lmp (fun w => set_output (Output.set_next_dump_any (Update.ntimestep (update w))
                                                               (output w)) w);;
        s ← get_st;
        when (truthy (Output.restart_every (output (lmp s))))
          (upd_lmp (fun w => set_output (Output.set_next_restart (Update.ntimestep (update w))
                                                                 (output w)) w)));;
     upd_lmp (fun w => set_output (Output.set_next_thermo (Update.ntimestep (update w))
                                                          (output w)) w);;
     s ← get_st;
     call (ModifyAddstepComputeAll (Update.ntimestep (update (lmp s))))
          (modify_addstep_compute_all h (Update.ntimestep (update (lmp s))));;
     e ← energy_force 0;
     upd_min (set_ecurrent e);;
     s ← get_st;
     call (OutputWrite (Update.ntimestep (update (lmp s))))
          (output_write h (Update.ntimestep (update (lmp s))))).

(** *** [Min::cleanup] *)

Definition cleanup : M unit :=
  (* stats for Finish to print *)
  upd_min (fun m => set_efinal (ecurrent m) m);;
  s ← get_st;
  upd_min (set_fnorm2_final (d_sqrt (fnorm_sqr (minimize s) (lmp s))));;
  upd_min (set_fnorminf_final (fnorm_inf (minimize s) (lmp s)));;
  (* reset reneighboring criteria *)
  s ← get_st;
  upd_lmp (fun w => set_neighbor (Neighbor.set_every (neigh_every (minimize s)) (neighbor w)) w);;
  upd_lmp (fun w => set_neighbor (Neighbor.set_delay (neigh_delay (minimize s)) (neighbor w)) w);;
  upd_lmp (fun w => set_neighbor (Neighbor.set_dist_check (neigh_dist_check (minimize s))
                                                          (neighbor w)) w);;
  (* delete fix at end of run, so its atom arrays won't persist *)
  call (ModifyDeleteFix "MINIMIZE"%string) (modify_delete_fix h "MINIMIZE"%string).

(** *** [Min::setup_minimal] *)

Definition setup_minimal (flag : Z) : M unit :=
  (* setup domain, communication and neighboring *)
  when (truthy flag)
    (s ← get_st;
     when (truthy (triclinic (minimize s)))
       (call (DomainX2lamda (Atom.nlocal (atom (lmp s))))
             (domain_x2lamda h (Atom.nlocal (atom (lmp s)))));;
     call DomainPbc (domain_pbc h);;
     call DomainResetBox (domain_reset_box h);;
     call CommSetup (comm_setup h);;
     s ← get_st;
     when (truthy (Neighbor.style (neighbor (lmp s))))
       (call NeighborSetupBins (neighbor_setup_bins h));;
     call CommExchange (comm_exchange h);;
     call CommBorders (comm_borders h);;
     s ← get_st;
     when (truthy (triclinic (minimize s)))
       (call (DomainLamda2x (Atom.nlocal (atom (lmp s)) + Atom.nghost (atom (lmp s))))
             (domain_lamda2x h (Atom.nlocal (atom (lmp s)) + Atom.nghost (atom (lmp s)))));;
     call NeighborBuild (neighbor_build h);;
     upd_lmp (fun w => set_neighbor (Neighbor.set_ncalls 0 (neighbor w)) w));;
  (* atoms may have migrated in comm->exchange() *)
  call_virtual MinResetVectors (reset_vectors h);;
  (* compute all forces *)
  s ← get_st;
  ev_set (Update.ntimestep (update (lmp s)));;
  force_clear;;
  s ← get_st;
  let ef := eflag (minimize s) in
  let vf := vflag (minimize s) in
  call (ModifySetupPreForce vf) (modify_setup_pre_force h vf);;
  s ← get_st;
  when (Force.pair (force (lmp s))) (call (PairCompute ef vf) (pair_compute h ef vf));;
  s ← get_st;
  when (truthy (Atom.molecular (atom (lmp s))))
    (s ← get_st;
     when (Force.bond (force (lmp s))) (call (BondCompute ef vf) (bond_compute h ef vf));;
     s ← get_st;
     when (Force.angle (force (lmp s))) (call (AngleCompute ef vf) (angle_compute h ef vf));;
     s ← get_st;
     when (Force.dihedral (force (lmp s)))
       (call (DihedralCompute ef vf) (dihedral_compute h ef vf));;
     s ← get_st;
     when (Force.improper (force (lmp s)))
       (call (ImproperCompute ef vf) (improper_compute h ef vf)));;
  s ← get_st;
  when (Force.kspace (force (lmp s)))
    (call KspaceSetup (kspace_setup h);;
     call (KspaceCompute ef vf) (kspace_compute h ef vf));;
  s ← get_st;
  when (truthy (Force.newton (force (lmp s))))
    (call CommReverseComm (comm_reverse_comm h));;
  (* update per-atom minimization variables stored by pair styles *)
  harvest_extra_atom;;
  call (ModifySetup vf) (modify_setup h vf);;
  (* stats for Finish to print *)
  e ← potential_energy;
  upd_min (set_ecurrent e);;
  upd_min (fun m => set_einitial (ecurrent m) m);;
  s ← get_st;
  upd_min (set_fnorm2_init (d_sqrt (fnorm_sqr (minimize s) (lmp s))));;
  upd_min (set_fnorminf_init (fnorm_inf (minimize s) (lmp s))).

(** *** [Min::modify_params] *)

Definition msg_min_modify : string := "Illegal min_modify command"%string.

(** [while (iarg < narg) ...] on the arguments from [iarg] on.  [atof] is
    the function of the C library, a parameter here. *)
Fixpoint modify_params_from (atof : string -> D) (args : list string) : M unit :=
  match args with
  | [] => mret tt
  | key :: rest =>
      if String.eqb key "dmax" then
        match rest with
        | [] => error_all msg_min_modify
        | v :: rest' =>
            upd_min (set_dmax (atof v));;
            modify_params_from atof rest'
        end
      else if String.eqb key "line" then
        match rest with
        | [] => error_all msg_min_modify
        | v :: rest' =>
            (if String.eqb v "backtrack" then upd_min (set_linestyle 0)
             else if String.eqb v "quadratic" then upd_min (set_linestyle 1)
             else error_all msg_min_modify);;
            modify_params_from atof rest'
        end
      else error_all msg_min_modify
  end.

Definition modify_params (atof : string -> D) (args : list string) : M unit :=
  (if (Z.of_nat (length args) =? 0) then error_all msg_min_modify else mret tt);;
  modify_params_from atof args.

(** *** The processes of the communicator *)

(** One process of the parallel run: its [Min] object and its LAMMPS
    instance.  All processes execute the same calls. *)
Definition Rank : Type := Min * LAMMPS.

(** [MPI_Allreduce] of one value per process with the operation [op],
    combined in rank order. *)
Definition mpi_reduce (op : D -> D -> D) (contrib : list D) : D :=
  match contrib with
  | [] => d_zero
  | x :: xs => foldl op x xs
  end.

(** [MPI_SUM] is the addition of [double], [MPI_MAX] their maximum. *)
Definition reduction (op : mpi_op) : D -> D -> D :=
  match op with
  | MPI_SUM => d_add
  | MPI_MAX => MAX
  end.

Definition mpi_op_eqb (a b : mpi_op) : bool :=
  match a, b with
  | MPI_SUM, MPI_SUM | MPI_MAX, MPI_MAX => true
  | _, _ => false
  end.

(** What a process hands to the collective [op] and how it goes on, if
    that collective is what it calls next; and its result, if it is done. *)
Definition entering {A : Type} (op : mpi_op) (q : Par A) : option (D * (D -> Par A)) :=
  match q with
  | Allreduce op' x k => if mpi_op_eqb op op' then Some (x, k) else None
  | Done _ => None
  end.

Definition finished {A : Type} (q : Par A) : option A :=
  match q with
  | Done a => Some a
  | Allreduce _ _ _ => None
  end.

Fixpoint gather {A B : Type} (f : A -> option B) (l : list A) : option (list B) :=
  match l with
  | [] => Some []
  | x :: l' =>
      match f x, gather f l' with
      | Some y, Some ys => Some (y :: ys)
      | _, _ => None
      end
  end.

(** The processes of a run, [p] with rank 0 and [qs] after it: a
    collective completes when every process has called it, and every
    process receives the reduction of the values handed over.  [None]: the
    processes do not call the same collectives, and the run hangs. *)
Fixpoint spmd {A : Type} (p : Par A) (qs : list (Par A)) : option (list A) :=
  match p with
  | Done a =>
      match gather finished qs with
      | Some rest => Some (a :: rest)
      | None => None
      end
  | Allreduce op x k =>
      match gather (entering op) qs with
      | Some others =>
          let r := mpi_reduce (reduction op) (x :: map fst others) in
          spmd (k r) (map (fun o => o.2 r) others)
      | None => None
      end
  end.

(** A method of [Min] called by every process of the run [ranks]: the
    value each process gets, in rank order. *)
Definition cluster {A : Type} (method : Min -> LAMMPS -> Par A) (ranks : list Rank) :
  option (list A) :=
  match ranks with
  | [] => Some []
  | r :: rs => spmd (method r.1 r.2) (map (fun q => method q.1 q.2) rs)
  end.

Definition cluster_fnorm_sqr (ranks : list Rank) : option (list D) :=
  cluster fnorm_sqr_par ranks.

Definition cluster_fnorm_inf (ranks : list Rank) : option (list D) :=
  cluster fnorm_inf_par ranks.

(** What a computation hands to the collective it calls first. *)
Definition sent {A : Type} (p : Par A) : D :=
  match p with
  | Allreduce _ x _ => x
  | Done _ => d_zero
  end.

(** The LAMMPS instance [w] of the process of rank [i] in the run [ranks]
    when all call [method]: its communicator answers a collective with the
    reduction of what the processes hand over, this process in its
    place. *)
Definition in_run {A : Type} (method : Min -> LAMMPS -> Par A) (ranks : list Rank)
           (i : nat) (w : LAMMPS) : LAMMPS :=
  let handed := map (fun q => sent (method q.1 q.2)) ranks in
  set_world
    (mkCommunicator (fun x => mpi_reduce d_add (<[i := x]> handed))
                    (fun x => mpi_reduce MAX (<[i := x]> handed))
                    (allreduce_sum_bigint (world w)))
    w.

(** *** The quantities the specification speaks of *)

(** The force components a process holds: those of its atoms seen through
    [fvec], then those of every per-atom extra degree of freedom. *)
Definition local_components (r : Rank) : list D :=
  take (Z.to_nat (nvec r.1)) (deref r.2 (fvec r.1)) ++
  (if truthy (nextra_atom r.1) then
     concat (map (fun k => take (Z.to_nat (rd 0 (extra_nlen r.1) k))
                                (deref r.2 (rd PNull (fextra_atom r.1) k)))
                 (upto (nextra_atom r.1)))
   else []).

(** The forces on the global extra degrees of freedom. *)
Definition global_components (m : Min) : list D :=
  if truthy (nextra_global m) then take (Z.to_nat (nextra_global m)) (fextra m) else [].

Definition cluster_components (ranks : list Rank) : list D :=
  concat (map local_components ranks).




(** The reneighbouring criteria of [neighbor]: every, delay, dist_check. *)
Definition cadence (w : LAMMPS) : Z * Z * Z :=
  (Neighbor.every (neighbor w), Neighbor.delay (neighbor w),
   Neighbor.dist_check (neighbor w)).

(** The registry of per-atom extra degrees of freedom holds [n] slots in
    each of its parallel arrays. *)
Definition registry_slots (m : Min) (n : nat) : Prop :=
  nextra_atom m = Z.of_nat n /\
  length (xextra_atom m) = n /\ length (fextra_atom m) = n /\
  length (extra_peratom m) = n /\ length (extra_nlen m) = n /\
  length (extra_max m) = n /\ length (requestor m) = n.

End Model.

Arguments LAMMPS : clear implicits.
Arguments Min : clear implicits.
Arguments St : clear implicits.
Arguments Hooks : clear implicits.
Arguments Rank : clear implicits.
Arguments Par : clear implicits.
Arguments Done {D A}.
Arguments Allreduce {D A}.
Arguments Res : clear implicits.
Arguments M : clear implicits.
Arguments Ok {D P C S X A}.
Arguments Abort {D P C S X A}.

(** * Concrete inputs *)

(** ** Notions used in the statements *)

(** The calls the evaluation pipeline makes between the reneighbouring
    decision and the final reset of the minimiser's vectors. *)
Definition pipeline_call (c : Call) : bool :=
  match c with
  | TimerStamp _ | CommForwardComm | ModifyMinPreExchange | DomainX2lamda _
  | DomainPbc | DomainResetBox | CommSetup | NeighborSetupBins | CommExchange
  | AtomSort | CommBorders | DomainLamda2x _ | NeighborBuild
  | ComputeMatchstep _ _ _ _ | ModifyMinPreForce _
  | PairCompute _ _ | BondCompute _ _ | AngleCompute _ _ | DihedralCompute _ _
  | ImproperCompute _ _ | KspaceCompute _ _ | CommReverseComm | PairMinXfGet _
  | ModifyMinPostForce _ | ComputeScalar _ | ModifyMinEnergy => true
  | _ => false
  end.

(** What [energy_force] appends to the trace after the pipeline: the reset
    of the reference coordinates and of the vectors. *)
Definition reset_tail (nflag resetflag : Z) : list Call :=
  if truthy nflag then
    (if truthy resetflag then [FixMinimizeResetCoords] else []) ++ [MinResetVectors]
  else [].

(** What the check of [setup] on extra degrees of freedom reads. *)
Definition dof_view {D P S : Type} (m : Min D P S) : Z * Z * Z :=
  (searchflag m, nextra_atom m, nextra_global m).

(** The calls that do not evaluate a force-field contributor. *)
Definition no_force (c : Call) : bool := negb (force_contributor c).

(** The reneighbouring criteria [init] saves in [Min]. *)
Definition snapshot {D P S : Type} (m : Min D P S) : Z * Z * Z :=
  (neigh_every m, neigh_delay m, neigh_dist_check m).

(** The registry of per-atom extra degrees of freedom: the counter and the
    parallel arrays. *)
Definition registry {D P S : Type} (m : Min D P S) :
  Z * list (cell dptr) * list (cell dptr) * list (cell Z) * list (cell Z) *
  list (cell D) * list (cell P) :=
  (nextra_atom m, xextra_atom m, fextra_atom m, extra_peratom m, extra_nlen m,
   extra_max m, requestor m).

(** The arguments of [modify->add_fix] in [init]. *)
Definition add_fix_args : list string := ["MINIMIZE"; "all"; "MINIMIZE"]%string.

(** The test of [init] on the reneighbouring criteria. *)
Definition cadence_differs {D C X : Type} (w : LAMMPS D C X) : bool :=
  negb (Neighbor.every (neighbor w) =? 1) || negb (Neighbor.delay (neighbor w) =? 0)
  || negb (Neighbor.dist_check (neighbor w) =? 1).

(** The warning of [init]: issued if the criteria differ, by process 0. *)
Definition init_warning {D C X : Type} (w : LAMMPS D C X) : list Call :=
  if cadence_differs w && (Comm.me (comm w) =? 0)
  then [ErrorWarning msg_reneigh] else [].

(** The computes [ev_set] asks in the loop over the list [l]. *)
Definition ev_list {D P S : Type} (l : evlist) (m : Min D P S) : list nat :=
  match l with
  | EGlobal => take (Z.to_nat (nelist_global m)) (elist_global m)
  | EAtom => take (Z.to_nat (nelist_atom m)) (elist_atom m)
  | VGlobal => take (Z.to_nat (nvlist_global m)) (vlist_global m)
  | VAtom => take (Z.to_nat (nvlist_atom m)) (vlist_atom m)
  end.

Definition evlist_eqb (l l' : evlist) : bool :=
  match l, l' with
  | EGlobal, EGlobal | EAtom, EAtom | VGlobal, VGlobal | VAtom, VAtom => true
  | _, _ => false
  end.

(** A call of [matchstep] in the loop over [l] that answered non-zero: the
    compute is due at this step. *)
Definition matched (l : evlist) (c : Call) : bool :=
  match c with
  | ComputeMatchstep l' _ _ r => evlist_eqb l l' && truthy r
  | _ => false
  end.

(** Some compute of the list [l] was due. *)
Definition demand (l : evlist) (evs : list Call) : bool := existsb (matched l) evs.

(** The pointers of [Min] into the atom arrays and into the vectors of the
    extra degrees of freedom. *)
Definition aliases {D P S : Type} (m : Min D P S) :
  Z * dptr * list (cell dptr) * list (cell dptr) :=
  (nvec m, fvec m, xextra_atom m, fextra_atom m).

(** ** Inputs for the examples *)

Module Example.

(** A compute with its four flags and the steps at which it is due. *)
Record compute := mkCompute {
  c_pe : Z; c_peatom : Z; c_press : Z; c_pressatom : Z; c_times : list Z
}.

(** [matchstep] of such a compute: due when the step is in its list. *)
Definition c_matchstep (t : Z) (c : compute) : Z * compute :=
  (if existsb (Z.eqb t) (c_times c) then 1 else 0, c).

Section Builders.

Context {D : Type} {SD : Scalar D}.

(** Collaborators that do nothing; [neighbor->decide()] answers [nflag],
    [iterate] stops with [stop], [modify->min_dof()] is [ndof] and the
    compute thermo_pe has index [pe]. *)
Definition hooks (nflag stop ndof pe : Z) : Hooks D nat compute unit unit :=
  mkHooks
    (fun _ w => w) (fun _ w => w) (fun w => (ndof, w)) (fun _ w => (pe, w))
    (fun _ w => w) (fun _ w => w) (fun w => w) (fun _ w => w) (fun _ w => w)
    (fun fx w => ((d_zero, fx), w)) (fun _ w => w)
    c_pe c_peatom c_press c_pressatom c_matchstep
    (fun _ w => (d_zero, w))
    (fun w => w) (fun w => w) (fun _ w => w) (fun _ w => w) (fun w => w) (fun w => w)
    (fun w => w) (fun w => w) (fun w => w) (fun w => w) (fun w => w)
    (fun w => w) (fun w => w) (fun w => (nflag, w))
    (fun _ _ w => w) (fun _ _ w => w) (fun _ _ w => w) (fun _ _ w => w) (fun _ _ w => w)
    (fun w => w) (fun _ _ w => w)
    (fun _ _ w => w)
    (fun _ w => w) (fun _ w => w)
    (fun _ w => w)
    (fun _ w => w)
    (fun _ _ => d_zero)
    (fun m w => (m, w)) (fun m w => (m, w)) (fun m w => (m, w))
    (fun _ m w => (stop, (m, w))).

(** An atom object with [nlocal] owned and [nghost] ghost atoms. *)
Definition atom_of (nlocal nghost : Z) (f : list (vec3 D)) : Atom.t D :=
  Atom.mk D nlocal nghost nlocal f f (map c0 f) 1 1 0 0 0.

(** A LAMMPS instance on process [me], alone in its communicator, at step
    100, with reneighbouring every 10 steps after a delay of 5. *)
Definition lmp_of (a : Atom.t D) (newton me : Z) (cs : list compute) :
  LAMMPS D compute unit :=
  mkLAMMPS a (Force.mk newton newton true false false false false false)
           (Comm.mk me 1) (Domain.mk 0 0) (Neighbor.mk 10 5 0 1 0)
           (Update.mk 100 0 0 0 0 0 0) (Output.mk 2 [0; 0] 0 50 0 0 0)
           (Modify.mk compute (Z.of_nat (length cs)) cs 1 0 0 0)
           true (mkCommunicator (fun x => x) (fun x => x) (fun x => x)) [] tt.

(** A minimiser over [nvec] force components seen through [PAtomF], with
    [ng] global extra degrees of freedom whose forces are [fx]. *)
Definition min_of (searchflag nvec ng : Z) (fx : list D) : Min D nat unit :=
  mkMin d_zero searchflag 0 0 0 0 0 [] [] [] [] ng fx 0 [] [] [] [] [] []
        1 1 1 0 0 0 0 0 0 0 0 0 0 0
        d_zero d_zero d_zero d_zero d_zero d_zero d_zero 0 None nvec PAtomF tt.

(** A process that owns the atoms with forces [f] and nothing else. *)
Definition rank_of (f : list (vec3 D)) : Rank D nat compute unit unit :=
  (min_of 1 (3 * Z.of_nat (length f)) 0 [],
   lmp_of (atom_of (Z.of_nat (length f)) 0 f) 1 0 []).

Definition state_of (m : Min D nat unit) (w : LAMMPS D compute unit) :
  St D nat compute unit unit :=
  mkSt m w [].

End Builders.

(** A binary64 vector with integer components. *)
Definition v64 (a b c : Z) : vec3 spec_float := Vec3 (b64_of_Z a) (b64_of_Z b) (b64_of_Z c).

(** One owned atom and one ghost atom, forces not yet cleared, Newton's
    third law off. *)
Definition newton_off : St spec_float nat compute unit unit :=
  state_of (min_of 1 3 0 []) (lmp_of (atom_of 1 1 [v64 1 2 3; v64 4 5 6]) 0 0 []).

(** The same with Newton's third law on. *)
Definition newton_on : St spec_float nat compute unit unit :=
  state_of (min_of 1 3 0 []) (lmp_of (atom_of 1 1 [v64 1 2 3; v64 4 5 6]) 1 0 []).

(** The minimiser after iterations that stopped on the force tolerance
    (code 3) at step 100, with two dumps defined; and the same when the
    output is restricted. *)
Definition stopped : St spec_float nat compute unit unit :=
  state_of (min_of 1 3 0 []) (lmp_of (atom_of 1 0 [v64 1 0 0]) 1 0 []).

Definition stopped_restricted : St spec_float nat compute unit unit :=
  state_of (min_of 1 3 0 [])
           (set_update (Update.mk 100 0 0 0 0 0 1)
                       (lmp_of (atom_of 1 0 [v64 1 0 0]) 1 0 [])).

(** A damped-dynamics minimiser ([searchflag] 0) before [setup]. *)
Definition damped : St spec_float nat compute unit unit :=
  state_of (min_of 0 3 0 []) (lmp_of (atom_of 1 0 [v64 1 0 0]) 1 0 []).


Definition two_processes : list (Rank spec_float nat compute unit unit) :=
  [rank_of [v64 134217728 0 0]; rank_of [v64 1 1 1]].

(** The same in three processes, the second of which owns no atom, and
    with the atoms in the other order. *)
Definition three_processes : list (Rank spec_float nat compute unit unit) :=
  [rank_of [v64 1 1 1]; rank_of []; rank_of [v64 134217728 0 0]].






(** Three computes: the first tallies the global energy, the second the
    per-atom energy and the global pressure, the third the per-atom
    pressure; the lists of the minimiser are those [ev_setup] builds. *)
Definition three_computes : list compute :=
  [mkCompute 1 0 0 0 [100]; mkCompute 0 1 1 0 [100; 101]; mkCompute 0 0 0 1 [5]].

Definition scheduled : St spec_float nat compute unit unit :=
  match ev_setup (hooks 0 0 0 0)
                 (state_of (min_of 1 3 0 [])
                           (lmp_of (atom_of 1 0 [v64 1 0 0]) 1 0 three_computes)) with
  | Ok _ s => s
  | Abort _ s => s
  end.

End Example.

(** * Properties *)

(** ** Reasoning about runs: what a computation leaves unchanged *)

Section Frames.

Context {D : Type} {SD : Scalar D} {P C S X : Type}.

Local Abbreviation state := (St D P C S X).
Local Abbreviation action := (M D P C S X).

(** [runs R m]: from every state [m] returns, in a state related by [R]. *)
Definition runs {A : Type} (R : relation state) (m : action A) : Prop :=
  forall s, exists a s', m s = Ok a s' /\ R s s'.

(** [frame p pi rho]: the trace grew by calls that satisfy [p], and the
    view [pi] of the [Min] object and the view [rho] of the LAMMPS instance
    are the same. *)
Definition frame {T U : Type} (p : Call -> bool) (pi : Min D P S -> T)
           (rho : LAMMPS D C X -> U) : relation state :=
  fun s s' =>
    (exists evs, trace s' = trace s ++ evs /\ forallb p evs = true) /\
    pi (minimize s') = pi (minimize s) /\
    rho (lmp s') = rho (lmp s).

#[global] Instance frame_preorder {T U : Type} (p : Call -> bool) (pi : Min D P S -> T)
  (rho : LAMMPS D C X -> U) : PreOrder (frame p pi rho).
Proof.
  split.
  - intros s. split; [exists []; now rewrite app_nil_r | split; reflexivity].
  - intros s1 s2 s3 [(e1 & H1 & F1) [G1 L1]] [(e2 & H2 & F2) [G2 L2]]. split.
    + exists (e1 ++ e2). rewrite H2, H1, <- app_assoc. split; [reflexivity|].
      rewrite forallb_app, F1, F2. reflexivity.
    + split; congruence.
Qed.

Section Rules.

Context (R : relation state) {HR : PreOrder R}.

Lemma runs_ret {A : Type} (a : A) : runs R (mret a).
Proof. intros s. exists a, s. split; reflexivity. Qed.

Lemma runs_bind {A B : Type} (m : action A) (k : A -> action B) :
  runs R m -> (forall a, runs R (k a)) -> runs R (m ≫= k).
Proof.
  intros Hm Hk s. destruct (Hm s) as (a & s1 & E1 & R1).
  destruct (Hk a s1) as (b & s2 & E2 & R2). exists b, s2.
  unfold mbind, M_bind. rewrite E1. split; [exact E2 | etransitivity; eassumption].
Qed.

Lemma runs_get_st : runs R get_st.
Proof. intros s. exists s, s. split; reflexivity. Qed.

Lemma runs_when (b : bool) (body : action unit) : runs R body -> runs R (when b body).
Proof. intros Hb. destruct b; [exact Hb | apply runs_ret]. Qed.

Lemma runs_if {A : Type} (b : bool) (m1 m2 : action A) :
  runs R m1 -> runs R m2 -> runs R (if b then m1 else m2).
Proof. destruct b; auto. Qed.

Lemma runs_for_each {A : Type} (l : list A) (body : A -> action unit) :
  (forall x, runs R (body x)) -> runs R (for_each l body).
Proof.
  intros Hb. induction l as [|x l IH]; simpl; [apply runs_ret|].
  apply runs_bind; auto.
Qed.

(** Sequencing under a continuation: the rest of the program is examined
    in every state the first part can reach. *)
Lemma runs_then {A B : Type} (m : action A) (k : A -> action B) (Q : Res D P C S X B -> Prop)
      (s0 s : state) :
  R s0 s -> runs R m -> (forall a s', R s0 s' -> Q (k a s')) -> Q ((m ≫= k) s).
Proof.
  intros R0 Hm Hk. destruct (Hm s) as (a & s1 & E1 & R1).
  unfold mbind, M_bind. rewrite E1. apply Hk. etransitivity; eassumption.
Qed.

End Rules.

Section FrameRules.

Context {T U : Type} (p : Call -> bool) (pi : Min D P S -> T) (rho : LAMMPS D C X -> U).

Lemma runs_upd_min (g : Min D P S -> Min D P S) :
  (forall m, pi (g m) = pi m) -> runs (frame p pi rho) (upd_min g).
Proof.
  intros Hg s. eexists tt, _. split; [reflexivity|].
  split; simpl; [|split; [apply Hg | reflexivity]].
  exists []. now rewrite app_nil_r.
Qed.

Lemma runs_upd_lmp (g : LAMMPS D C X -> LAMMPS D C X) :
  (forall w, rho (g w) = rho w) -> runs (frame p pi rho) (upd_lmp g).
Proof.
  intros Hg s. eexists tt, _. split; [reflexivity|].
  split; simpl; [|split; [reflexivity | apply Hg]].
  exists []. now rewrite app_nil_r.
Qed.

Lemma runs_log (c : Call) : p c = true -> runs (frame p pi rho) (log c).
Proof.
  intros Hc s. eexists tt, _. split; [reflexivity|].
  split; simpl; [|split; reflexivity].
  exists [c]. split; [reflexivity|]. simpl. now rewrite Hc.
Qed.

Lemma runs_call (c : Call) (g : LAMMPS D C X -> LAMMPS D C X) :
  p c = true -> (forall w, rho (g w) = rho w) -> runs (frame p pi rho) (call c g).
Proof.
  intros Hc Hg. unfold call. apply runs_bind; [typeclasses eauto|now apply runs_upd_lmp|].
  intros _. now apply runs_log.
Qed.

Lemma runs_callv {A : Type} (c : A -> Call) (g : LAMMPS D C X -> A * LAMMPS D C X) :
  (forall a, p (c a) = true) -> (forall w, rho (g w).2 = rho w) ->
  runs (frame p pi rho) (callv c g).
Proof.
  intros Hc Hg s. unfold callv. specialize (Hg (lmp s)).
  destruct (g (lmp s)) as [a w]. eexists a, _.
  split; [reflexivity|]. split; simpl; [|split; [reflexivity | exact Hg]].
  exists [c a]. split; [reflexivity|]. simpl. now rewrite Hc.
Qed.

Lemma runs_call_virtual (c : Call) (g : Min D P S -> LAMMPS D C X -> Min D P S * LAMMPS D C X) :
  p c = true -> (forall m w, pi (g m w).1 = pi m) -> (forall m w, rho (g m w).2 = rho w) ->
  runs (frame p pi rho) (call_virtual c g).
Proof.
  intros Hc Hg Hl s. unfold call_virtual.
  specialize (Hg (minimize s) (lmp s)). specialize (Hl (minimize s) (lmp s)).
  destruct (g (minimize s) (lmp s)) as [m w]. eexists tt, _.
  split; [reflexivity|]. split; simpl; [|split; [exact Hg | exact Hl]].
  exists [c]. split; [reflexivity|]. simpl. now rewrite Hc.
Qed.

End FrameRules.

(** Evaluation of the first statement of a program. *)

Lemma bind_ret_eq {A B : Type} (a : A) (k : A -> action B) (s : state) :
  (mret a ≫= k) s = k a s.
Proof. reflexivity. Qed.

Lemma bind_get_st_eq {B : Type} (k : state -> action B) (s : state) :
  (get_st ≫= k) s = k s s.
Proof. reflexivity. Qed.

Lemma bind_upd_min_eq {B : Type} (g : Min D P S -> Min D P S) (k : unit -> action B)
      (s : state) :
  (upd_min g ≫= k) s = k tt (mkSt (g (minimize s)) (lmp s) (trace s)).
Proof. reflexivity. Qed.

Lemma bind_upd_lmp_eq {B : Type} (g : LAMMPS D C X -> LAMMPS D C X) (k : unit -> action B)
      (s : state) :
  (upd_lmp g ≫= k) s = k tt (mkSt (minimize s) (g (lmp s)) (trace s)).
Proof. reflexivity. Qed.

Lemma bind_log_eq {B : Type} (c : Call) (k : unit -> action B) (s : state) :
  (log c ≫= k) s = k tt (mkSt (minimize s) (lmp s) (trace s ++ [c])).
Proof. reflexivity. Qed.

Lemma bind_call_eq {B : Type} (c : Call) (g : LAMMPS D C X -> LAMMPS D C X)
      (k : unit -> action B) (s : state) :
  (call c g ≫= k) s = k tt (mkSt (minimize s) (g (lmp s)) (trace s ++ [c])).
Proof. reflexivity. Qed.

Lemma bind_callv_eq {A B : Type} (c : A -> Call) (g : LAMMPS D C X -> A * LAMMPS D C X)
      (k : A -> action B) (s : state) :
  (callv c g ≫= k) s =
  k (g (lmp s)).1 (mkSt (minimize s) (g (lmp s)).2 (trace s ++ [c (g (lmp s)).1])).
Proof. unfold mbind, M_bind, callv. destruct (g (lmp s)); reflexivity. Qed.

Lemma bind_error_all_eq {A B : Type} (msg : string) (k : A -> action B) (s : state) :
  (error_all msg ≫= k) s = Abort msg s.
Proof. reflexivity. Qed.

Lemma bind_when_log_eq {B : Type} (b : bool) (c : Call) (k : unit -> action B) (s : state) :
  (when b (log c) ≫= k) s =
  k tt (mkSt (minimize s) (lmp s) (trace s ++ (if b then [c] else []))).
Proof.
  destruct b; [reflexivity|]. unfold when, mbind, M_bind, mret, M_ret.
  rewrite app_nil_r. now destruct s.
Qed.

Lemma bind_when_upd_lmp_eq {B : Type} (b : bool) (g : LAMMPS D C X -> LAMMPS D C X)
      (k : unit -> action B) (s : state) :
  (when b (upd_lmp g) ≫= k) s =
  k tt (mkSt (minimize s) (if b then g (lmp s) else lmp s) (trace s)).
Proof. destruct b; [reflexivity|]. unfold when, mbind, M_bind, mret, M_ret. now destruct s. Qed.

Lemma bind_of_ok {A B : Type} (m : action A) (k : A -> action B) (s s' : state) (a : A) :
  m s = Ok a s' -> (m ≫= k) s = k a s'.
Proof. intros E. unfold mbind, M_bind. now rewrite E. Qed.

Lemma bind_when_warning_eq {B : Type} (b1 b2 : bool) (msg : string)
      (k : unit -> action B) (s : state) :
  (when b1 (when b2 (error_warning msg)) ≫= k) s =
  k tt (mkSt (minimize s) (lmp s)
             (trace s ++ (if b1 && b2 then [ErrorWarning msg] else []))).
Proof.
  destruct b1, b2; try reflexivity;
    unfold when, mbind, M_bind, mret, M_ret; cbn [andb]; rewrite app_nil_r; now destruct s.
Qed.

End Frames.

(** Decomposes a goal [runs (frame p pi) prog] along the syntax of [prog];
    the side conditions on [p] and [pi] hold by computation. *)
Ltac side_condition :=
  first [ reflexivity | intros; reflexivity | eassumption | intros; eauto ].

Ltac runs_step :=
  lazymatch goal with
  | |- runs _ (mret _) => apply (runs_ret _ (HR:=frame_preorder _ _ _))
  | |- runs _ (_ ≫= _) => apply (runs_bind _ (HR:=frame_preorder _ _ _)); [ | intros ?]
  | |- runs _ get_st => apply (runs_get_st _ (HR:=frame_preorder _ _ _))
  | |- runs _ (when _ _) => apply (runs_when _ (HR:=frame_preorder _ _ _))
  | |- runs _ (for_each _ _) => apply (runs_for_each _ (HR:=frame_preorder _ _ _)); intros ?
  | |- runs _ (upd_min _) => apply runs_upd_min; side_condition
  | |- runs _ (upd_lmp _) => apply runs_upd_lmp; side_condition
  | |- runs _ (log _) => apply runs_log; reflexivity
  | |- runs _ (error_warning _) => apply runs_log; reflexivity
  | |- runs _ (call _ _) => apply runs_call; side_condition
  | |- runs _ (stamp _ _) => apply runs_call; side_condition
  | |- runs _ (callv _ _) => apply runs_callv; side_condition
  | |- runs _ (call_virtual _ _) => apply runs_call_virtual; side_condition
  | |- runs _ (if _ then _ else _) => apply runs_if
  | |- runs _ (match ?x with _ => _ end) => destruct x
  | |- runs _ (ev_setup _) => unfold ev_setup
  end.

(** Evaluates the first statement of a program when it is a primitive. *)
Ltac exact_step :=
  cbv zeta;
  first [ rewrite bind_get_st_eq | rewrite bind_upd_min_eq | rewrite bind_upd_lmp_eq
        | rewrite bind_call_eq | rewrite bind_log_eq | rewrite bind_ret_eq ];
  cbv beta; cbn [minimize lmp trace].

Ltac runs_auto := repeat runs_step.

(** ** The evaluation pipeline *)

Section Pipeline.

Context {D : Type} {SD : Scalar D} {P C S X : Type}.
Variable h : Hooks D P C S X.

Local Abbreviation state := (St D P C S X).
Local Abbreviation pipe :=
  (frame (D:=D) (P:=P) (C:=C) (S:=S) (X:=X) pipeline_call aliases (fun _ => tt)).

Lemma runs_call_matchstep (l : evlist) (c : nat) (t : Z) :
  runs pipe (call_matchstep h l c t).
Proof.
  intros s. unfold call_matchstep.
  destruct (Modify.compute (modify (lmp s)) !! c) as [cv|].
  - destruct (matchstep h t cv) as [r cv']. eexists r, _. split; [reflexivity|].
    split; simpl; [|split; reflexivity]. exists [ComputeMatchstep l c t r]. split; reflexivity.
  - exists 0, s. split; [reflexivity|]. apply frame_preorder.
Qed.

Lemma runs_scan (l : evlist) (cs : list nat) (t flag : Z) :
  runs pipe (scan h l cs t flag).
Proof.
  revert flag. induction cs as [|c cs IH]; intros flag; simpl.
  - runs_step.
  - runs_step; [apply runs_call_matchstep | apply IH].
Qed.

Lemma runs_ev_set (t : Z) : runs pipe (ev_set h t).
Proof.
  unfold ev_set.
  repeat first [ apply runs_scan | runs_step ].
Qed.

Lemma runs_force_clear : runs pipe force_clear.
Proof. unfold force_clear. runs_auto. Qed.

Lemma runs_harvest_extra_atom : runs pipe (harvest_extra_atom h).
Proof. unfold harvest_extra_atom. runs_auto. Qed.

Lemma runs_potential_energy : runs pipe (potential_energy h).
Proof. unfold potential_energy. runs_auto. Qed.

End Pipeline.

Ltac pipeline_step :=
  lazymatch goal with
  | |- runs _ (ev_set _ _) => apply runs_ev_set
  | |- runs _ force_clear => apply runs_force_clear
  | |- runs _ (harvest_extra_atom _) => apply runs_harvest_extra_atom
  | |- runs _ (potential_energy _) => apply runs_potential_energy
  | |- _ => runs_step
  end.

(** Peels the first statement off a program, provided it stays within the
    frame; [get_st] is evaluated. *)
Ltac then_step :=
  cbv zeta;
  lazymatch goal with
  | |- ?Q ((get_st ≫= ?k) ?s) => rewrite bind_get_st_eq; cbv beta
  | |- ?Q ((?m ≫= ?k) ?s) =>
      eapply (runs_then _ (HR:=frame_preorder _ _ _) m k Q);
      [ eassumption | solve [ repeat pipeline_step ] | intros ? ? ? ]
  end.

Section EnergyForce.

Context {D : Type} {SD : Scalar D} {P C S X : Type}.
Variable h : Hooks D P C S X.

Local Abbreviation state := (St D P C S X).

(** The shape of every run of [energy_force]: it never aborts; it records
    its entry and the decision of [neighbor]; the pipeline follows; the
    resets come last, and only after a rebuild. *)
Lemma energy_force_shape (resetflag : Z) (s : state) :
  exists e s' body,
    energy_force h resetflag s = Ok e s' /\
    trace s' = trace s ++ [MinEnergyForce resetflag; NeighborDecide (neighbor_decide h (lmp s)).1]
                       ++ body ++ reset_tail (neighbor_decide h (lmp s)).1 resetflag /\
    forallb pipeline_call body = true /\
    ((neighbor_decide h (lmp s)).1 = 0 -> aliases (minimize s') = aliases (minimize s)).
Proof.
  unfold energy_force. rewrite bind_log_eq, bind_callv_eq.
  cbn [lmp minimize trace].
  destruct (neighbor_decide h (lmp s)) as [nflag w1]. cbn [fst snd].
  set (s2 := mkSt _ _ (_ ++ [NeighborDecide _])).
  assert (H0 : frame pipeline_call aliases (fun _ => tt) s2 s2) by reflexivity.
  assert (T2 : trace s2 = trace s ++ [MinEnergyForce resetflag; NeighborDecide nflag]).
  { unfold s2; simpl. now rewrite <- app_assoc. }
  assert (A2 : aliases (minimize s2) = aliases (minimize s)) by reflexivity.
  clearbody s2.
  set (Q := fun r : Res D P C S X D =>
              exists e s' body, r = Ok e s' /\
                trace s' = trace s ++ [MinEnergyForce resetflag; NeighborDecide nflag]
                                   ++ body ++ reset_tail nflag resetflag /\
                forallb pipeline_call body = true /\
                (nflag = 0 -> aliases (minimize s') = aliases (minimize s))).
  lazymatch goal with |- exists e s' body, ?prog = _ /\ _ => change (Q prog) end.
  do 19 then_step.
  lazymatch goal with
  | Hf : frame _ _ _ s2 ?sx |- Q (_ ?sx) => destruct Hf as [(body & Hb & Fb) [Ha _]]
  end.
  unfold Q, reset_tail. destruct (truthy nflag) eqn:En.
  - assert (Hne : nflag <> 0) by (unfold truthy in En; lia).
    destruct (truthy resetflag);
      unfold when, call, call_virtual, upd_lmp, log, get_st, mbind, M_bind, mret, M_ret;
      simpl; destruct (reset_vectors h _ _) as [m w]; eexists _, _, body;
      (split; [reflexivity|]); simpl; rewrite Hb, T2, <- !app_assoc; simpl;
      (repeat split; [assumption | intros; contradiction]).
  - unfold when, mbind, M_bind, mret, M_ret. eexists _, _, body.
    split; [reflexivity|]. rewrite Hb, T2, <- !app_assoc, app_nil_r. simpl.
    repeat split; [assumption | intros; congruence].
Qed.

End EnergyForce.

(** ** Arrays *)

Section Arrays.

Context {A : Type}.

Lemma fill_loop_length (z : A) (a : list A) (k : nat) :
  length (foldl (fun a i => <[i := z]> a) a (seq 0 k)) = length a.
Proof.
  induction k as [|k IH]; [reflexivity|].
  rewrite seq_S, foldl_app. cbn [foldl plus]. now rewrite length_insert.
Qed.

Lemma fill_loop_lookup (z : A) (a : list A) (k i : nat) :
  foldl (fun a i => <[i := z]> a) a (seq 0 k) !! i =
  if decide (i < k)%nat then (fun _ => z) <$> a !! i else a !! i.
Proof.
  induction k as [|k IH]; [reflexivity|].
  rewrite seq_S, foldl_app. cbn [foldl plus].
  destruct (decide (i = k)) as [->|Hne].
  - destruct (decide (k < S k)%nat); [|lia].
    destruct (decide (k < k)%nat); [lia|].
    destruct (a !! k) as [x|] eqn:Ea.
    + rewrite list_lookup_insert_eq; [reflexivity|].
      rewrite fill_loop_length. now apply lookup_lt_Some in Ea.
    + rewrite list_insert_ge; [now rewrite IH|].
      rewrite fill_loop_length. now apply lookup_ge_None in Ea.
  - rewrite list_lookup_insert_ne by congruence. rewrite IH.
    destruct (decide (i < k)%nat), (decide (i < S k)%nat); try reflexivity; lia.
Qed.

(** [for (i = 0; i < n; i++) a[i] = z;] slot by slot. *)
Lemma fill_prefix_lookup (z : A) (n : Z) (a : list A) (i : nat) :
  fill_prefix z n a !! i =
  if decide (Z.of_nat i < n) then (fun _ => z) <$> a !! i else a !! i.
Proof.
  unfold fill_prefix, upto. rewrite fill_loop_lookup.
  destruct (decide (i < Z.to_nat n)%nat), (decide (Z.of_nat i < n)); try reflexivity; lia.
Qed.

Lemma fill_prefix_length (z : A) (n : Z) (a : list A) :
  length (fill_prefix z n a) = length a.
Proof. apply fill_loop_length. Qed.

End Arrays.

(** ** [force_clear] *)

Section ForceClear.

Context {D : Type} {SD : Scalar D} {P C S X : Type}.

Local Abbreviation state := (St D P C S X).

(** The atoms [force_clear] covers: ghosts are included only if the
    [newton] flag is set. *)
Definition nall_of (w : LAMMPS D C X) : Z :=
  if truthy (Force.newton (force w))
  then Atom.nlocal (atom w) + Atom.nghost (atom w)
  else Atom.nlocal (atom w).

Lemma force_clear_eq (s : state) :
  force_clear s =
  Ok tt (mkSt (minimize s)
              (set_atom
                 (Atom.set_erforce
                    (if truthy (erforceflag (minimize s))
                     then fill_prefix d_zero (nall_of (lmp s)) (Atom.erforce (atom (lmp s)))
                     else Atom.erforce (atom (lmp s)))
                    (Atom.set_torque
                       (if truthy (torqueflag (minimize s))
                        then fill_prefix zero3 (nall_of (lmp s)) (Atom.torque (atom (lmp s)))
                        else Atom.torque (atom (lmp s)))
                       (Atom.set_f
                          (fill_prefix zero3 (nall_of (lmp s) * Comm.nthreads (comm (lmp s)))
                                       (Atom.f (atom (lmp s))))
                          (atom (lmp s)))))
                 (lmp s))
              (trace s)).
Proof.
  unfold force_clear, nall_of. destruct s as [m w t].
  cbv [mbind M_bind mret M_ret get_st upd_lmp when]. cbn [minimize lmp trace].
  destruct (truthy (torqueflag m)), (truthy (erforceflag m)); reflexivity.
Qed.

(** C4, as amended.  [force_clear] never fails and touches nothing but the
    three per-atom arrays.  It zeroes the force of every owned atom, and of
    every ghost atom if the [newton] flag of [force] is set; with the flag
    clear and one thread the forces of the ghost atoms are left as they
    are.  In general the rows [0 .. nall*nthreads-1] of [f] are zeroed,
    where [nall] counts the owned atoms, plus the ghosts under [newton].
    Torques and electron forces are zeroed for the rows below [nall] when
    the atom style has them ([torqueflag], [erforceflag]) and are left
    alone otherwise. *)
Theorem force_clear_zeroes_owned_forces (s : state) :
  exists s',
    force_clear s = Ok tt s' /\ minimize s' = minimize s /\ trace s' = trace s /\
    (forall i : nat,
        Atom.f (atom (lmp s')) !! i =
        if decide (Z.of_nat i < nall_of (lmp s) * Comm.nthreads (comm (lmp s)))
        then (fun _ => zero3) <$> Atom.f (atom (lmp s)) !! i
        else Atom.f (atom (lmp s)) !! i) /\
    (1 <= Comm.nthreads (comm (lmp s)) -> 0 <= Atom.nghost (atom (lmp s)) ->
     forall (i : nat) (v : vec3 D),
       Z.of_nat i < Atom.nlocal (atom (lmp s)) ->
       Atom.f (atom (lmp s)) !! i = Some v ->
       Atom.f (atom (lmp s')) !! i = Some zero3) /\
    (Force.newton (force (lmp s)) <> 0 -> 1 <= Comm.nthreads (comm (lmp s)) ->
     forall (i : nat) (v : vec3 D),
       Z.of_nat i < Atom.nlocal (atom (lmp s)) + Atom.nghost (atom (lmp s)) ->
       Atom.f (atom (lmp s)) !! i = Some v ->
       Atom.f (atom (lmp s')) !! i = Some zero3) /\
    (Force.newton (force (lmp s)) = 0 -> Comm.nthreads (comm (lmp s)) = 1 ->
     forall i : nat,
       Atom.nlocal (atom (lmp s)) <= Z.of_nat i ->
       Atom.f (atom (lmp s')) !! i = Atom.f (atom (lmp s)) !! i) /\
    (forall i : nat,
        Atom.torque (atom (lmp s')) !! i =
        if truthy (torqueflag (minimize s))
        then (if decide (Z.of_nat i < nall_of (lmp s))
              then (fun _ => zero3) <$> Atom.torque (atom (lmp s)) !! i
              else Atom.torque (atom (lmp s)) !! i)
        else Atom.torque (atom (lmp s)) !! i) /\
    (forall i : nat,
        Atom.erforce (atom (lmp s')) !! i =
        if truthy (erforceflag (minimize s))
        then (if decide (Z.of_nat i < nall_of (lmp s))
              then (fun _ => d_zero) <$> Atom.erforce (atom (lmp s)) !! i
              else Atom.erforce (atom (lmp s)) !! i)
        else Atom.erforce (atom (lmp s)) !! i).
Proof.
  eexists. split; [apply force_clear_eq|].
  cbn [minimize lmp trace atom set_atom Atom.f Atom.torque Atom.erforce
       Atom.set_f Atom.set_torque Atom.set_erforce].
  assert (F : forall i : nat,
             fill_prefix zero3 (nall_of (lmp s) * Comm.nthreads (comm (lmp s)))
                         (Atom.f (atom (lmp s))) !! i =
             if decide (Z.of_nat i < nall_of (lmp s) * Comm.nthreads (comm (lmp s)))
             then (fun _ => zero3) <$> Atom.f (atom (lmp s)) !! i
             else Atom.f (atom (lmp s)) !! i) by (intros; apply fill_prefix_lookup).
  repeat split.
  - exact F.
  - intros Ht Hg i v Hi Hv. rewrite F, Hv.
    destruct (decide _) as [|Hd]; [reflexivity|]. exfalso. apply Hd.
    unfold nall_of in *. destruct (truthy _); nia.
  - intros Hnw Ht i v Hi Hv. rewrite F, Hv.
    destruct (decide _) as [|Hd]; [reflexivity|]. exfalso. apply Hd.
    unfold nall_of, truthy in *. destruct (Z.eqb_spec (Force.newton (force (lmp s))) 0);
      [contradiction|]. cbn [negb]. nia.
  - intros Hnw Ht i Hi. rewrite F.
    destruct (decide _) as [Hd|]; [|reflexivity]. exfalso.
    unfold nall_of, truthy in Hd. rewrite Hnw, Ht in Hd. cbn in Hd. lia.
  - intros i. destruct (truthy (torqueflag (minimize s))); [|reflexivity].
    apply fill_prefix_lookup.
  - intros i. destruct (truthy (erforceflag (minimize s))); [|reflexivity].
    apply fill_prefix_lookup.
Qed.

End ForceClear.

(** C4 as the specification words it fails when the [newton] flag is
    clear: the force of the ghost atom survives [force_clear]. *)
Lemma force_clear_keeps_ghost_forces :
  (exists s',
      force_clear Example.newton_off = Ok tt s' /\
      Atom.f (atom (lmp s')) = [Vec3 d_zero d_zero d_zero; Example.v64 4 5 6]) /\
  Atom.nlocal (atom (lmp Example.newton_off)) = 1 /\
  Atom.nghost (atom (lmp Example.newton_off)) = 1 /\
  Example.v64 4 5 6 <> Vec3 d_zero d_zero d_zero.
Proof.
  split; [|split; [reflexivity | split; [reflexivity | discriminate]]].
  eexists. split; [apply force_clear_eq | reflexivity].
Qed.

(** ** [run]: what follows the iterations *)

Section RunProperties.

Context {D : Type} {SD : Scalar D} {P C S X : Type}.
Variable h : Hooks D P C S X.

Local Abbreviation state := (St D P C S X).

(** The assignments of [run] between [if (stop_condition)] and the call of
    [addstep_compute_all], applied to the LAMMPS instance. *)
Definition output_due (niter : Z) (w : LAMMPS D C X) : LAMMPS D C X :=
  let w := set_update (Update.set_nsteps niter (update w)) w in
  let w :=
    if Update.restrict_output (update w) =? 0 then
      let w := set_output (Output.set_next_dump
                             (fill_prefix (Update.ntimestep (update w)) (Output.ndump (output w))
                                          (Output.next_dump (output w)))
                             (output w)) w in
      let w := set_output (Output.set_next_dump_any (Update.ntimestep (update w)) (output w)) w in
      if truthy (Output.restart_every (output w))
      then set_output (Output.set_next_restart (Update.ntimestep (update w)) (output w)) w
      else w
    else w in
  set_output (Output.set_next_thermo (Update.ntimestep (update w)) (output w)) w.

(** The last statements of [run]: [modify->addstep_compute_all], the
    evaluation, [output->write]. *)
Definition run_finish : M D P C S X unit :=
  s ← get_st;
  call (ModifyAddstepComputeAll (Update.ntimestep (update (lmp s))))
       (modify_addstep_compute_all h (Update.ntimestep (update (lmp s))));;
  e ← energy_force h 0;
  upd_min (set_ecurrent e);;
  s ← get_st;
  call (OutputWrite (Update.ntimestep (update (lmp s))))
       (output_write h (Update.ntimestep (update (lmp s)))).

Lemma run_eq (n : Z) (s : state) :
  run h n s =
  let r := iterate h n (minimize s) (lmp s) in
  let m := set_stopstr (stopstrings r.1) (set_stop_condition r.1 r.2.1) in
  if truthy r.1
  then run_finish (mkSt m (output_due (niter m) r.2.2) (trace s ++ [MinIterate n]))
  else Ok tt (mkSt m r.2.2 (trace s ++ [MinIterate n])).
Proof.
  unfold run, run_finish, output_due.
  cbv [mbind M_bind mret M_ret get_st upd_min upd_lmp when].
  destruct (iterate h n (minimize s) (lmp s)) as [stop [m1 w1]].
  cbn [fst snd minimize lmp trace].
  change (stop_condition (set_stopstr _ (set_stop_condition stop m1))) with stop.
  destruct (truthy stop); [|reflexivity].
  cbn [minimize lmp trace update output set_update set_output Update.restrict_output
       Update.set_nsteps Update.ntimestep Output.restart_every Output.set_next_dump
       Output.set_next_dump_any Output.set_next_restart Output.ndump Output.next_dump].
  destruct (Update.restrict_output (update w1) =? 0).
  - cbn [minimize lmp trace update output set_update set_output Update.restrict_output
         Update.set_nsteps Update.ntimestep Output.restart_every Output.set_next_dump
         Output.set_next_dump_any Output.set_next_restart Output.ndump Output.next_dump].
    destruct (truthy (Output.restart_every (output w1))); reflexivity.
  - reflexivity.
Qed.

Ltac output_due_norm :=
  unfold output_due;
  cbn [update output set_update set_output Update.restrict_output Update.set_nsteps
       Update.ntimestep Update.nsteps Output.restart_every Output.set_next_dump
       Output.set_next_dump_any Output.set_next_restart Output.set_next_thermo
       Output.ndump Output.next_dump Output.next_dump_any Output.next_restart
       Output.next_thermo].

Lemma output_due_update (niter : Z) (w : LAMMPS D C X) :
  update (output_due niter w) = Update.set_nsteps niter (update w).
Proof.
  output_due_norm. destruct (Update.restrict_output (update w) =? 0); [|reflexivity].
  output_due_norm. destruct (truthy (Output.restart_every (output w))); reflexivity.
Qed.

Lemma output_due_thermo (niter : Z) (w : LAMMPS D C X) :
  Output.next_thermo (output (output_due niter w)) = Update.ntimestep (update w).
Proof.
  output_due_norm. destruct (Update.restrict_output (update w) =? 0); [|reflexivity].
  output_due_norm. destruct (truthy (Output.restart_every (output w))); reflexivity.
Qed.

Lemma output_due_unrestricted (niter : Z) (w : LAMMPS D C X) :
  Update.restrict_output (update w) = 0 ->
  Output.next_dump (output (output_due niter w)) =
    fill_prefix (Update.ntimestep (update w)) (Output.ndump (output w))
                (Output.next_dump (output w)) /\
  Output.next_dump_any (output (output_due niter w)) = Update.ntimestep (update w) /\
  Output.next_restart (output (output_due niter w)) =
    if truthy (Output.restart_every (output w)) then Update.ntimestep (update w)
    else Output.next_restart (output w).
Proof.
  intros Hr. output_due_norm. rewrite Hr. cbn [Z.eqb]. output_due_norm.
  destruct (truthy (Output.restart_every (output w))); repeat split.
Qed.

Lemma output_due_restricted (niter : Z) (w : LAMMPS D C X) :
  Update.restrict_output (update w) <> 0 ->
  Output.next_dump (output (output_due niter w)) = Output.next_dump (output w) /\
  Output.next_dump_any (output (output_due niter w)) = Output.next_dump_any (output w) /\
  Output.next_restart (output (output_due niter w)) = Output.next_restart (output w).
Proof.
  intros Hr. output_due_norm.
  destruct (Z.eqb_spec (Update.restrict_output (update w)) 0); [contradiction|].
  repeat split.
Qed.

Lemma run_finish_shape (s : state) :
  exists s' body t,
    run_finish s = Ok tt s' /\
    forallb pipeline_call body = true /\
    let w := modify_addstep_compute_all h (Update.ntimestep (update (lmp s))) (lmp s) in
    trace s' = trace s ++ [ModifyAddstepComputeAll (Update.ntimestep (update (lmp s)));
                           MinEnergyForce 0; NeighborDecide (neighbor_decide h w).1]
                       ++ body ++ reset_tail (neighbor_decide h w).1 0 ++ [OutputWrite t].
Proof.
  unfold run_finish. cbv [mbind M_bind mret M_ret get_st call upd_lmp log upd_min].
  cbn [minimize lmp trace].
  set (s1 := mkSt _ _ _).
  destruct (energy_force_shape h 0 s1) as (e & s2 & body & E & T & B & _).
  rewrite E. eexists _, body, _. split; [reflexivity|]. split; [exact B|].
  cbn [trace lmp]. rewrite T. unfold s1. cbn [trace lmp]. now rewrite <- !app_assoc.
Qed.

(** C3, as amended.  When [iterate] returns 0 (the iterations ran out),
    [run] only records the stop condition: the LAMMPS instance is the one
    [iterate] left and the trace holds the call of [iterate] alone.
    Otherwise [run] sets [update->nsteps] to [niter] and forces the output:
    [next_thermo] becomes the current step always, and [next_dump[0 ..
    ndump-1]], [next_dump_any] and (when [restart_every] is set)
    [next_restart] become the current step only if [update->restrict_output]
    is 0.  Then it calls [modify->addstep_compute_all], evaluates once more
    with [energy_force(0)], that is with [resetflag] clear, so that the
    reference coordinates are never reset, and calls [output->write]. *)
Theorem run_forces_output_after_stop (n : Z) (s : state) :
  ((iterate h n (minimize s) (lmp s)).1 = 0 ->
   exists s',
     run h n s = Ok tt s' /\
     trace s' = trace s ++ [MinIterate n] /\
     lmp s' = (iterate h n (minimize s) (lmp s)).2.2 /\
     stop_condition (minimize s') = 0) /\
  ((iterate h n (minimize s) (lmp s)).1 <> 0 ->
   exists (s_due s' : state) (body : list Call) (t : Z),
     let w1 := (iterate h n (minimize s) (lmp s)).2.2 in
     let now := Update.ntimestep (update w1) in
     trace s_due = trace s ++ [MinIterate n] /\
     stop_condition (minimize s_due) = (iterate h n (minimize s) (lmp s)).1 /\
     Update.ntimestep (update (lmp s_due)) = now /\
     Update.nsteps (update (lmp s_due)) = niter (iterate h n (minimize s) (lmp s)).2.1 /\
     Output.next_thermo (output (lmp s_due)) = now /\
     (Update.restrict_output (update w1) = 0 ->
      Output.next_dump (output (lmp s_due)) =
        fill_prefix now (Output.ndump (output w1)) (Output.next_dump (output w1)) /\
      Output.next_dump_any (output (lmp s_due)) = now /\
      Output.next_restart (output (lmp s_due)) =
        if truthy (Output.restart_every (output w1)) then now
        else Output.next_restart (output w1)) /\
     (Update.restrict_output (update w1) <> 0 ->
      Output.next_dump (output (lmp s_due)) = Output.next_dump (output w1) /\
      Output.next_dump_any (output (lmp s_due)) = Output.next_dump_any (output w1) /\
      Output.next_restart (output (lmp s_due)) = Output.next_restart (output w1)) /\
     run h n s = Ok tt s' /\
     forallb pipeline_call body = true /\
     pipeline_call FixMinimizeResetCoords = false /\
     let nflag := (neighbor_decide h (modify_addstep_compute_all h now (lmp s_due))).1 in
     trace s' = trace s_due ++ [ModifyAddstepComputeAll now; MinEnergyForce 0;
                                NeighborDecide nflag]
                            ++ body ++ (if truthy nflag then [MinResetVectors] else [])
                            ++ [OutputWrite t]).
Proof.
  rewrite run_eq. cbv zeta.
  destruct (iterate h n (minimize s) (lmp s)) as [stop [m1 w1]]. cbn [fst snd].
  split.
  - intros ->. cbn [truthy Z.eqb negb]. eexists. repeat split.
  - intros Hstop.
    assert (Ht : truthy stop = true) by (unfold truthy; destruct (Z.eqb_spec stop 0); easy).
    rewrite Ht.
    set (m2 := set_stopstr (stopstrings stop) (set_stop_condition stop m1)).
    set (s_due := mkSt m2 (output_due (niter m2) w1) (trace s ++ [MinIterate n])).
    destruct (run_finish_shape s_due) as (s' & body & t & E & B & T).
    assert (Hnow : Update.ntimestep (update (lmp s_due)) = Update.ntimestep (update w1)).
    { unfold s_due. cbn [lmp]. now rewrite output_due_update. }
    exists s_due, s', body, t. cbv zeta in T |- *. rewrite Hnow in T.
    split; [reflexivity|]. split; [reflexivity|]. split; [exact Hnow|].
    split; [unfold s_due; cbn [lmp]; now rewrite output_due_update|].
    split; [apply output_due_thermo|].
    split; [apply output_due_unrestricted|].
    split; [apply output_due_restricted|].
    split; [exact E|]. split; [exact B|]. split; [reflexivity|].
    exact T.
Qed.

End RunProperties.

(** C3 as the specification words it fails on two counts.  After a stop on
    the force tolerance the extra evaluation is [energy_force(0)]: the
    reset flag is clear and, although [neighbor] rebuilds,
    [fix_minimize->reset_coords()] is not called.  And when
    [update->restrict_output] is set the dumps keep their next step (0 here)
    instead of the current step 100. *)
Lemma run_evaluates_without_reset :
  trace <$> final (run (Example.hooks 1 3 0 0) 10 Example.stopped) =
    Some [MinIterate 10; ModifyAddstepComputeAll 100; MinEnergyForce 0; NeighborDecide 1;
          DomainPbc; TimerStamp None; CommExchange; CommBorders; TimerStamp (Some T_COMM);
          NeighborBuild; TimerStamp (Some T_NEIGHBOR); TimerStamp None; PairCompute 1 0;
          TimerStamp (Some T_PAIR); CommReverseComm; TimerStamp (Some T_COMM);
          ComputeScalar 0; MinResetVectors; OutputWrite 100] /\
  (fun s => (Update.ntimestep (update (lmp s)), Output.next_dump (output (lmp s))))
    <$> final (run (Example.hooks 1 3 0 0) 10 Example.stopped_restricted) =
    Some (100, [0; 0]).
Proof. split; vm_compute; reflexivity. Qed.

(** ** [setup]: extra degrees of freedom need a line search *)

Section SetupProperties.

Context {D : Type} {SD : Scalar D} {P C S X : Type}.
Variable h : Hooks D P C S X.

Local Abbreviation state := (St D P C S X).

(** C5.  Suppose the style-specific setup leaves [searchflag] and the
    counts of extra degrees of freedom alone, [searchflag] is 0, and there
    is a global extra degree of freedom ([modify->min_dof()] is non-zero) or
    a registered per-atom one.  Then [setup] aborts with [error->all], and
    no force-field contributor (pair, bond, angle, dihedral, improper,
    kspace) has been evaluated when it does.  The message is one of the two
    of the damped-dynamics check unless the compute thermo_pe is missing,
    which aborts earlier. *)
Theorem setup_rejects_extra_dof_without_search (s : state) :
  (forall m w, dof_view (setup_style h m w).1 = dof_view m) ->
  searchflag (minimize s) = 0 ->
  (modify_min_dof h (lmp s)).1 <> 0 \/ nextra_atom (minimize s) <> 0 ->
  exists msg s' evs,
    setup h s = Abort msg s' /\
    trace s' = trace s ++ evs /\
    forallb no_force evs = true /\
    (msg = msg_no_pe \/
     (modify_min_dof h (lmp s)).1 <> 0 /\ msg = msg_box_relax \/
     (modify_min_dof h (lmp s)).1 = 0 /\ msg = msg_peratom_dof).
Proof.
  intros Hstyle Hsf Hdof. unfold setup.
  rewrite bind_get_st_eq. cbv beta.
  rewrite bind_when_log_eq, bind_callv_eq. cbn [minimize lmp trace].
  destruct (modify_min_dof h (lmp s)) as [n w1]. cbn [fst snd] in *.
  rewrite bind_upd_min_eq. cbn [minimize lmp trace].
  set (s3 := mkSt _ _ _).
  assert (H0 : frame no_force dof_view (fun _ => tt) s3 s3) by reflexivity.
  assert (T3 : exists evs, trace s3 = trace s ++ evs /\ forallb no_force evs = true).
  { eexists. unfold s3; cbn [trace]. rewrite <- app_assoc. split; [reflexivity|].
    destruct (_ && _); reflexivity. }
  assert (V3 : dof_view (minimize s3) = (0, nextra_atom (minimize s), n)).
  { unfold s3, dof_view. cbn [minimize]. now rewrite <- Hsf. }
  clearbody s3.
  set (Q := fun r : Res D P C S X unit =>
              exists msg s' evs, r = Abort msg s' /\
                trace s' = trace s ++ evs /\ forallb no_force evs = true /\
                (msg = msg_no_pe \/ n <> 0 /\ msg = msg_box_relax \/
                 n = 0 /\ msg = msg_peratom_dof)).
  lazymatch goal with |- exists msg s' evs, ?prog = _ /\ _ => change (Q prog) end.
  assert (HQ : forall msg s', frame no_force dof_view (fun _ => tt) s3 s' ->
                 (msg = msg_no_pe \/ n <> 0 /\ msg = msg_box_relax \/
                  n = 0 /\ msg = msg_peratom_dof) -> Q (Abort msg s')).
  { intros msg s' [(e1 & T1 & F1) _] Hm. destruct T3 as (e3 & T3 & F3).
    exists msg, s', (e3 ++ e1). split; [reflexivity|].
    rewrite T1, T3, <- app_assoc, forallb_app, F3, F1. auto. }
  do 3 then_step.
  (* the compute thermo_pe *)
  lazymatch goal with
  | |- Q (((if ?c then _ else _) ≫= _) ?sx) =>
      destruct c; [rewrite bind_error_all_eq; apply HQ; [assumption | auto] |]
  end.
  rewrite bind_ret_eq; cbv beta.
  repeat then_step.
  (* the check on extra degrees of freedom *)
  lazymatch goal with
  | Hf : frame _ _ _ s3 ?sx |- Q (_ ?sx) =>
      pose proof Hf as Hk; destruct Hf as [_ [Hv _]]; rewrite V3 in Hv;
      unfold dof_view in Hv; injection Hv as Hv1 Hv2 Hv3
  end.
  rewrite Hv1, Hv2, Hv3. cbn [Z.eqb]. rewrite !andb_true_r.
  assert (Ht : forall x, truthy x = negb (x =? 0)) by reflexivity.
  destruct (truthy n) eqn:En.
  - rewrite bind_error_all_eq.
    apply HQ; [assumption|]. right; left. split; [|reflexivity].
    rewrite Ht in En. destruct (Z.eqb_spec n 0); [discriminate | assumption].
  - rewrite bind_ret_eq; cbv beta.
    assert (Hn : n = 0) by (rewrite Ht in En; destruct (Z.eqb_spec n 0); [assumption | discriminate]).
    destruct (truthy (nextra_atom (minimize s))) eqn:Ea.
    + rewrite bind_error_all_eq.
      apply HQ; [assumption|]. right; right. split; [assumption | reflexivity].
    + exfalso. rewrite Ht in Ea.
      destruct (Z.eqb_spec (nextra_atom (minimize s)) 0); [|discriminate].
      destruct Hdof; contradiction.
Qed.

End SetupProperties.

(** The theorem at a damped-dynamics minimiser with two global extra
    degrees of freedom contributed by a fix. *)
Lemma setup_rejects_extra_dof_witness :
  exists msg s' evs,
    setup (Example.hooks 1 0 2 0) Example.damped = Abort msg s' /\
    trace s' = trace Example.damped ++ evs /\
    forallb no_force evs = true /\
    (msg = msg_no_pe \/
     (modify_min_dof (Example.hooks 1 0 2 0) (lmp Example.damped)).1 <> 0 /\
       msg = msg_box_relax \/
     (modify_min_dof (Example.hooks 1 0 2 0) (lmp Example.damped)).1 = 0 /\
       msg = msg_peratom_dof).
Proof.
  apply (setup_rejects_extra_dof_without_search (Example.hooks 1 0 2 0) Example.damped).
  - intros m w. reflexivity.
  - reflexivity.
  - left. vm_compute. discriminate.
Defined.

(** ** [init], [cleanup] and the registry *)

Section InitProperties.

Context {D : Type} {SD : Scalar D} {P C S X : Type}.
Variable h : Hooks D P C S X.

Local Abbreviation state := (St D P C S X).

Lemma no_calls (evs : list Call) : forallb (fun _ => false) evs = true -> evs = [].
Proof. destruct evs; [reflexivity | discriminate]. Qed.

(** [init] up to its last statement, the call of [init_style]: the
    registry is empty, the criteria of [neighbor] as [add_fix] left them are
    saved, and [neighbor] reneighbours every step. *)
Lemma init_before_style (s : state) :
  exists m w tr,
    init h s = call_virtual MinInitStyle (init_style h) (mkSt m w tr) /\
    tr = trace s ++ [ModifyAddFix add_fix_args]
                 ++ init_warning (modify_add_fix h add_fix_args (lmp s)) /\
    registry m = (0, [], [], [], [], [], []) /\
    snapshot m = cadence (modify_add_fix h add_fix_args (lmp s)) /\
    cadence w = (1, 0, 1).
Proof.
  unfold init.
  set (Q := fun r : Res D P C S X unit =>
              exists m w tr,
                r = call_virtual MinInitStyle (init_style h) (mkSt m w tr) /\
                tr = trace s ++ [ModifyAddFix add_fix_args]
                             ++ init_warning (modify_add_fix h add_fix_args (lmp s)) /\
                registry m = (0, [], [], [], [], [], []) /\
                snapshot m = cadence (modify_add_fix h add_fix_args (lmp s)) /\
                cadence w = (1, 0, 1)).
  lazymatch goal with |- exists m w tr, ?prog = _ /\ _ => change (Q prog) end.
  exact_step. fold add_fix_args.
  set (s1 := mkSt _ _ _).
  do 12 exact_step.
  set (s2 := mkSt _ _ _).
  assert (H0 : frame (fun _ => false) registry (fun w => w) s2 s2) by reflexivity.
  assert (V2 : registry (minimize s2) = (0, [], [], [], [], [], [])) by reflexivity.
  assert (L2 : lmp s2 = modify_add_fix h add_fix_args (lmp s)) by reflexivity.
  assert (T2 : trace s2 = trace s ++ [ModifyAddFix add_fix_args]) by reflexivity.
  clearbody s2.
  do 6 then_step.
  lazymatch goal with
  | Hf : frame _ _ _ s2 ?sx |- Q (_ ?sx) =>
      destruct Hf as [(evs & Ht & Hn) [Hv Hl]]; apply no_calls in Hn; subst evs;
      rewrite app_nil_r in Ht; rewrite V2 in Hv; rewrite L2 in Hl
  end.
  do 4 exact_step.
  rewrite bind_when_warning_eq. cbn [minimize lmp trace].
  do 5 exact_step.
  unfold Q. eexists _, _, _. split; [reflexivity|].
  split; [|split; [|split]].
  - rewrite Ht, T2, Hl, <- app_assoc. reflexivity.
  - exact Hv.
  - reflexivity.
  - reflexivity.
Qed.



Lemma request_fields (pair : P) (peratom : Z) (maxvalue : D) (m : Min D P S) :
  (request pair peratom maxvalue m).1 = nextra_atom m + 1 - 1 /\
  nextra_atom (request pair peratom maxvalue m).2 = nextra_atom m + 1 /\
  xextra_atom (request pair peratom maxvalue m).2 =
    grow (xextra_atom m) (nextra_atom m + 1) /\
  fextra_atom (request pair peratom maxvalue m).2 =
    grow (fextra_atom m) (nextra_atom m + 1) /\
  extra_nlen (request pair peratom maxvalue m).2 =
    grow (extra_nlen m) (nextra_atom m + 1) /\
  extra_peratom (request pair peratom maxvalue m).2 =
    store (grow (extra_peratom m) (nextra_atom m + 1)) (nextra_atom m) (Some peratom) /\
  extra_max (request pair peratom maxvalue m).2 =
    store (grow (extra_max m) (nextra_atom m + 1)) (nextra_atom m) (Some maxvalue) /\
  requestor (request pair peratom maxvalue m).2 =
    store (grow (requestor m) (nextra_atom m + 1)) (nextra_atom m) (Some pair).
Proof. repeat split. Qed.

Lemma grow_old {A : Type} (a : list (cell A)) (n i : nat) :
  length a = n -> (i < n)%nat -> grow a (Z.of_nat n + 1) !! i = a !! i.
Proof.
  intros Hl Hi. unfold grow, cell in *. apply lookup_resize; lia.
Qed.

Lemma grow_new {A : Type} (a : list (cell A)) (n : nat) :
  length a = n -> grow a (Z.of_nat n + 1) !! n = Some None.
Proof.
  intros Hl. unfold grow, cell in *. apply lookup_resize_new; lia.
Qed.

Lemma grow_length {A : Type} (a : list (cell A)) (n : nat) :
  length (grow a (Z.of_nat n + 1)) = Datatypes.S n.
Proof. unfold grow. rewrite length_resize. lia. Qed.

Lemma store_new {A : Type} (a : list (cell A)) (n : nat) (v : cell A) :
  length a = n -> store (grow a (Z.of_nat n + 1)) (Z.of_nat n) v !! n = Some v.
Proof.
  intros Hl. unfold store. rewrite Nat2Z.id. apply list_lookup_insert_eq.
  rewrite grow_length. lia.
Qed.

Lemma store_old {A : Type} (a : list (cell A)) (n i : nat) (v : cell A) :
  length a = n -> (i < n)%nat ->
  store (grow a (Z.of_nat n + 1)) (Z.of_nat n) v !! i = a !! i.
Proof.
  intros Hl Hi. unfold store. rewrite Nat2Z.id.
  rewrite list_lookup_insert_ne by lia. now apply grow_old.
Qed.

Lemma store_length {A : Type} (a : list (cell A)) (n : nat) (v : cell A) :
  length (store (grow a (Z.of_nat n + 1)) (Z.of_nat n) v) = Datatypes.S n.
Proof. unfold store. now rewrite length_insert, grow_length. Qed.

(** C6.  On a registry of [n] slots, [request] returns [n], leaves a
    registry of [n+1] slots (each parallel array one slot longer), keeps the
    first [n] slots of every array, and writes the pair style, the number of
    components per atom and the bound in slot [n]; the slots [n] of
    [extra_nlen], [xextra_atom] and [fextra_atom] exist and are not written
    yet.  After [init] the registry has no slot, so that the next [request]
    returns 0, provided the style-specific [init_style] registers nothing. *)
Theorem request_appends_slot (pair : P) (peratom : Z) (maxvalue : D) :
  (forall (m : Min D P S) (n : nat),
      registry_slots m n ->
      (request pair peratom maxvalue m).1 = Z.of_nat n /\
      registry_slots (request pair peratom maxvalue m).2 (Datatypes.S n) /\
      requestor (request pair peratom maxvalue m).2 !! n = Some (Some pair) /\
      extra_peratom (request pair peratom maxvalue m).2 !! n = Some (Some peratom) /\
      extra_max (request pair peratom maxvalue m).2 !! n = Some (Some maxvalue) /\
      extra_nlen (request pair peratom maxvalue m).2 !! n = Some None /\
      xextra_atom (request pair peratom maxvalue m).2 !! n = Some None /\
      fextra_atom (request pair peratom maxvalue m).2 !! n = Some None /\
      (forall i : nat, (i < n)%nat ->
         requestor (request pair peratom maxvalue m).2 !! i = requestor m !! i /\
         extra_peratom (request pair peratom maxvalue m).2 !! i = extra_peratom m !! i /\
         extra_max (request pair peratom maxvalue m).2 !! i = extra_max m !! i /\
         extra_nlen (request pair peratom maxvalue m).2 !! i = extra_nlen m !! i /\
         xextra_atom (request pair peratom maxvalue m).2 !! i = xextra_atom m !! i /\
         fextra_atom (request pair peratom maxvalue m).2 !! i = fextra_atom m !! i)) /\
  (forall s : state,
      (forall m w, registry (init_style h m w).1 = registry m) ->
      exists s1,
        init h s = Ok tt s1 /\
        registry_slots (minimize s1) 0 /\
        (request pair peratom maxvalue (minimize s1)).1 = 0).
Proof.
  split.
  - intros m n (Hn & Hx & Hf & Hp & Hl & Hm & Hr).
    destruct (request_fields pair peratom maxvalue m)
      as (E0 & E1 & E2 & E3 & E4 & E5 & E6 & E7).
    rewrite E0, E2, E3, E4, E5, E6, E7. unfold registry_slots.
    rewrite E1, E2, E3, E4, E5, E6, E7, Hn.
    rewrite !store_length, !grow_length.
    rewrite !store_new, !grow_new by assumption.
    repeat split; try reflexivity; try lia.
    all: first [ now apply store_old | now apply grow_old ].
  - intros s Hreg.
    destruct (init_before_style s) as (m & w & tr & E & _ & R & _ & _).
    rewrite E. unfold call_virtual. cbn [minimize lmp trace].
    specialize (Hreg m w). destruct (init_style h m w) as [m' w']. cbn [fst] in Hreg.
    eexists. split; [reflexivity|]. cbn [minimize].
    rewrite R in Hreg. unfold registry in Hreg.
    injection Hreg as H1 H2 H3 H4 H5 H6 H7.
    destruct (request_fields pair peratom maxvalue m') as (E0 & _).
    rewrite E0, H1. unfold registry_slots. rewrite H1, H2, H3, H4, H5, H6, H7.
    repeat split.
Qed.


End InitProperties.

(** The first registration on an empty registry: handle 0, one slot. *)
Lemma request_appends_slot_witness :
  (request 7%nat 3 (b64_of_Z 1) (minimize Example.damped)).1 = 0 /\
  registry_slots (request 7%nat 3 (b64_of_Z 1) (minimize Example.damped)).2 1 /\
  requestor (request 7%nat 3 (b64_of_Z 1) (minimize Example.damped)).2 !! 0%nat
    = Some (Some 7%nat).
Proof.
  destruct (request_appends_slot (Example.hooks 1 0 0 0) 7%nat 3 (b64_of_Z 1)) as [H _].
  destruct (H (minimize Example.damped) 0%nat) as (H1 & H2 & H3 & _).
  - repeat split.
  - exact (conj H1 (conj H2 H3)).
Defined.


(** ** [ev_set]: what is demanded at a step *)

Section Scheduler.

Context {D : Type} {SD : Scalar D} {P C S X : Type}.
Variable h : Hooks D P C S X.

Local Abbreviation state := (St D P C S X).

(** A call of [matchstep] at step [t] in the loop over [l], on one of the
    computes [cs]. *)
Definition asks (l : evlist) (cs : list nat) (t : Z) (c : Call) : Prop :=
  exists k r, c = ComputeMatchstep l k t r /\ k ∈ cs.

Lemma matched_same (l : evlist) (k : nat) (t r : Z) :
  matched l (ComputeMatchstep l k t r) = truthy r.
Proof. now destruct l. Qed.

Lemma matched_other (l l' : evlist) (cs : list nat) (t : Z) (evs : list Call) :
  l <> l' -> Forall (asks l' cs t) evs -> demand l evs = false.
Proof.
  intros Hne Hall. unfold demand. induction Hall as [|c evs (k & r & -> & _) _ IH].
  - reflexivity.
  - cbn [existsb matched]. rewrite IH. now destruct l, l'.
Qed.

Lemma scan_spec (l : evlist) (cs : list nat) (t flag : Z) (s : state) :
  exists s' evs,
    scan h l cs t flag s = Ok (if demand l evs then 1 else flag) s' /\
    trace s' = trace s ++ evs /\
    minimize s' = minimize s /\
    update (lmp s') = update (lmp s) /\
    Forall (asks l cs t) evs.
Proof.
  revert flag s. induction cs as [|c cs IH]; intros flag s.
  - exists s, []. cbn. rewrite app_nil_r. repeat split. constructor.
  - cbn [scan]. unfold call_matchstep at 1.
    destruct (Modify.compute (modify (lmp s)) !! c) as [cv|] eqn:Ec.
    + destruct (matchstep h t cv) as [r cv'] eqn:Em.
      pose (s1 := mkSt (minimize s)
                       (set_modify (Modify.set_compute
                                      (<[c := cv']> (Modify.compute (modify (lmp s))))
                                      (modify (lmp s))) (lmp s))
                       (trace s ++ [ComputeMatchstep l c t r])).
      destruct (IH (if truthy r then 1 else flag) s1) as (s' & evs & E & T & M1 & U & F).
      exists s', (ComputeMatchstep l c t r :: evs).
      split.
      { unfold mbind, M_bind. cbv beta. rewrite Ec, Em. fold s1. rewrite E.
        unfold demand. cbn [existsb]. rewrite matched_same. fold (demand l evs).
        destruct (truthy r), (demand l evs); reflexivity. }
      split; [rewrite T; unfold s1; cbn [trace]; now rewrite <- app_assoc|].
      split; [exact M1|]. split; [exact U|].
      constructor.
      * exists c, r. split; [reflexivity | now left].
      * eapply Forall_impl; [exact F|]. intros x (k & r' & -> & Hk).
        exists k, r'. split; [reflexivity | now right].
    + destruct (IH flag s) as (s' & evs & E & T & M1 & U & F).
      exists s', evs. split.
      { unfold mbind, M_bind. cbv beta. rewrite Ec.
        change (truthy 0) with false. cbn iota. exact E. }
      repeat split; try assumption.
      eapply Forall_impl; [exact F|]. intros x (k & r' & -> & Hk).
      exists k, r'. split; [reflexivity | now right].
Qed.

Lemma demand_app (l : evlist) (e1 e2 : list Call) :
  demand l (e1 ++ e2) = demand l e1 || demand l e2.
Proof. apply existsb_app. Qed.

Lemma demand_witness (l : evlist) (cs : evlist -> list nat) (t : Z) (evs : list Call) :
  Forall (fun c => exists l', asks l' (cs l') t c) evs ->
  demand l evs = true ->
  exists k r, In (ComputeMatchstep l k t r) evs /\ r <> 0 /\ k ∈ cs l.
Proof.
  intros Hall Hd. apply existsb_exists in Hd as (c & Hin & Hm).
  rewrite Forall_forall in Hall. destruct (Hall c) as (l' & k & r & -> & Hk).
  { now apply list_elem_of_In. }
  cbn [matched] in Hm. apply andb_prop in Hm as [Hl Hr].
  assert (l = l') as <- by (destruct l, l'; (reflexivity || discriminate)).
  exists k, r. split; [exact Hin|]. split; [|exact Hk].
  unfold truthy in Hr. destruct (Z.eqb_spec r 0); [discriminate | assumption].
Qed.

(** C2.  [ev_set] never fails; all it records are calls of [matchstep] at
    the given step, each on a compute of the list it loops over.  The flag
    [eflag] always has its global component set (bit 1), and
    [update->eflag_global] is set to the current step.  The per-atom
    component of [eflag] (2) is set exactly when a compute of [elist_atom]
    answered that it is due, and the per-atom component of [vflag] (4)
    exactly when one of [vlist_atom] did; the global component of [vflag] is
    [virial_style] when a compute of [vlist_global] is due and 0 otherwise.
    When no per-atom compute is due both per-atom components are zero and
    [update->eflag_atom], [update->vflag_atom] are not touched. *)
Theorem ev_set_demands (ntimestep : Z) (s : state) :
  exists s' evs,
    ev_set h ntimestep s = Ok tt s' /\
    trace s' = trace s ++ evs /\
    Forall (fun c => exists l, asks l (ev_list l (minimize s)) ntimestep c) evs /\
    Z.land (eflag (minimize s')) 1 = 1 /\
    Update.eflag_global (update (lmp s')) = Update.ntimestep (update (lmp s)) /\
    eflag (minimize s') = 1 + (if demand EAtom evs then 2 else 0) /\
    vflag (minimize s') =
      (if demand VGlobal evs then virial_style (minimize s) else 0) +
      (if demand VAtom evs then 4 else 0) /\
    (demand EAtom evs = true ->
     exists k r, In (ComputeMatchstep EAtom k ntimestep r) evs /\ r <> 0 /\
                 k ∈ ev_list EAtom (minimize s)) /\
    (demand VAtom evs = true ->
     exists k r, In (ComputeMatchstep VAtom k ntimestep r) evs /\ r <> 0 /\
                 k ∈ ev_list VAtom (minimize s)) /\
    (demand EAtom evs = false ->
     eflag (minimize s') = 1 /\
     Update.eflag_atom (update (lmp s')) = Update.eflag_atom (update (lmp s))) /\
    (demand VAtom evs = false ->
     (vflag (minimize s') = 0 \/ vflag (minimize s') = virial_style (minimize s)) /\
     Update.vflag_atom (update (lmp s')) = Update.vflag_atom (update (lmp s))).
Proof.
  unfold ev_set. cbv zeta.
  rewrite bind_get_st_eq. cbv beta.
  destruct (scan_spec EGlobal (ev_list EGlobal (minimize s)) ntimestep 0 s)
    as (s1 & e1 & E1 & T1 & M1 & U1 & F1).
  rewrite (bind_of_ok _ _ _ _ _ E1). cbv beta.
  destruct (scan_spec EAtom (ev_list EAtom (minimize s)) ntimestep 0 s1)
    as (s2 & e2 & E2 & T2 & M2 & U2 & F2).
  rewrite (bind_of_ok _ _ _ _ _ E2). cbv beta.
  rewrite !bind_when_upd_lmp_eq. cbn [minimize lmp trace].
  rewrite bind_upd_min_eq. cbn [minimize lmp trace].
  set (s3 := mkSt _ _ _).
  destruct (scan_spec VGlobal (ev_list VGlobal (minimize s)) ntimestep 0 s3)
    as (s4 & e4 & E4 & T4 & M4 & U4 & F4).
  rewrite (bind_of_ok _ _ _ _ _ E4). cbv beta.
  destruct (scan_spec VAtom (ev_list VAtom (minimize s)) ntimestep 0 s4)
    as (s5 & e5 & E5 & T5 & M5 & U5 & F5).
  rewrite (bind_of_ok _ _ _ _ _ E5). cbv beta.
  rewrite !bind_when_upd_lmp_eq. cbn [minimize lmp trace].
  assert (DE : demand EAtom (e1 ++ e2 ++ e4 ++ e5) = demand EAtom e2).
  { rewrite !demand_app.
    rewrite (matched_other EAtom EGlobal _ _ _ ltac:(discriminate) F1).
    rewrite (matched_other EAtom VGlobal _ _ _ ltac:(discriminate) F4).
    rewrite (matched_other EAtom VAtom _ _ _ ltac:(discriminate) F5).
    cbn [orb]. now rewrite !orb_false_r. }
  assert (DG : demand VGlobal (e1 ++ e2 ++ e4 ++ e5) = demand VGlobal e4).
  { rewrite !demand_app.
    rewrite (matched_other VGlobal EGlobal _ _ _ ltac:(discriminate) F1).
    rewrite (matched_other VGlobal EAtom _ _ _ ltac:(discriminate) F2).
    rewrite (matched_other VGlobal VAtom _ _ _ ltac:(discriminate) F5).
    cbn [orb]. now rewrite !orb_false_r. }
  assert (DA : demand VAtom (e1 ++ e2 ++ e4 ++ e5) = demand VAtom e5).
  { rewrite !demand_app.
    rewrite (matched_other VAtom EGlobal _ _ _ ltac:(discriminate) F1).
    rewrite (matched_other VAtom EAtom _ _ _ ltac:(discriminate) F2).
    rewrite (matched_other VAtom VGlobal _ _ _ ltac:(discriminate) F4).
    reflexivity. }
  assert (FA : Forall (fun c => exists l, asks l (ev_list l (minimize s)) ntimestep c)
                      (e1 ++ e2 ++ e4 ++ e5)).
  { rewrite !Forall_app. repeat split.
    - eapply Forall_impl; [exact F1|]. intros c Hc. now exists EGlobal.
    - eapply Forall_impl; [exact F2|]. intros c Hc. now exists EAtom.
    - eapply Forall_impl; [exact F4|]. intros c Hc. now exists VGlobal.
    - eapply Forall_impl; [exact F5|]. intros c Hc. now exists VAtom. }
  assert (W := fun l => demand_witness l (fun l => ev_list l (minimize s)) ntimestep _ FA).
  eexists _, (e1 ++ e2 ++ e4 ++ e5). split; [reflexivity|].
  cbn [minimize lmp trace]. rewrite DE, DG, DA in *.
  split.
  { rewrite T5, T4. unfold s3. cbn [trace]. rewrite T2, T1, <- !app_assoc. reflexivity. }
  split; [exact FA|].
  change (eflag (set_vflag ?v ?m)) with (eflag m).
  change (vflag (set_vflag ?v ?m)) with v.
  rewrite M5, M4. unfold s3. cbn [minimize]. change (eflag (set_eflag ?v ?m)) with v.
  assert (HU : forall (b : bool) (g : LAMMPS D C X -> LAMMPS D C X) (w : LAMMPS D C X),
             update (if b then g w else w) = if b then update (g w) else update w)
    by (intros []; reflexivity).
  rewrite !HU. cbn [update set_update]. rewrite !U5, !U4. unfold s3. cbn [lmp].
  rewrite !HU. cbn [update set_update]. rewrite !U2, !U1.
  specialize (W EAtom) as WE. specialize (W VAtom) as WV.
  rewrite DE in WE. rewrite DA in WV. clear W.
  destruct (demand EAtom e2), (demand VGlobal e4), (demand VAtom e5);
    cbn [truthy Z.eqb negb Z.add Pos.add Z.land Pos.land Update.eflag_global
         Update.set_eflag_global Update.set_eflag_atom Update.eflag_atom];
    destruct (truthy (virial_style (minimize s)));
    cbn [truthy Z.eqb negb Z.add Pos.add Update.eflag_global Update.vflag_atom
         Update.set_eflag_global Update.set_eflag_atom Update.eflag_atom
         Update.set_vflag_global Update.set_vflag_atom];
    repeat split; auto; try discriminate; try lia.
Qed.

End Scheduler.

(** ** The norms: loops as folds over the components *)

Section NormLoops.

Context {D : Type} {SD : Scalar D} {P C S X : Type}.

Lemma foldl_concat_map {A B : Type} (step : A -> B -> A) (g : nat -> list B)
      (ks : list nat) (acc : A) :
  foldl (fun acc k => foldl step acc (g k)) acc ks = foldl step acc (concat (map g ks)).
Proof.
  revert acc. induction ks as [|k ks IH]; intros acc; [reflexivity|].
  cbn [foldl map concat]. now rewrite foldl_app, IH.
Qed.

(** The local part of either norm is one fold over the components the
    process holds. *)
Lemma local_fold (step : D -> D -> D) (r : Rank D P C S X) :
  over_extra_atom step r.1 r.2 (over step d_zero (deref r.2 (fvec r.1)) (nvec r.1)) =
  foldl step d_zero (local_components r).
Proof.
  unfold over_extra_atom, over, local_components. rewrite foldl_app.
  destruct (truthy (nextra_atom r.1)); [|reflexivity].
  apply (foldl_concat_map step
           (fun k => take (Z.to_nat (rd 0 (extra_nlen r.1) k))
                          (deref r.2 (rd PNull (fextra_atom r.1) k)))).
Qed.

Lemma global_fold (step : D -> D -> D) (m : Min D P S) (acc : D) :
  over_extra_global step m acc = foldl step acc (global_components m).
Proof.
  unfold over_extra_global, over, global_components. now destruct (truthy _).
Qed.

Lemma gather_map {A B E : Type} (f : A -> option B) (g : E -> A) (k : E -> B) (l : list E) :
  (forall x, f (g x) = Some (k x)) -> gather f (map g l) = Some (map k l).
Proof.
  intros H. induction l as [|x l IH]; [reflexivity|].
  cbn [map gather]. now rewrite H, IH.
Qed.

(** A method that calls one collective and then returns: every process
    gets its own continuation of the reduction of what all have sent. *)
Lemma cluster_one_collective {A : Type} (op : mpi_op)
      (send : Min D P S -> LAMMPS D C X -> D) (fin : Min D P S -> LAMMPS D C X -> D -> A)
      (ranks : list (Rank D P C S X)) :
  cluster (fun m w => Allreduce op (send m w) (fun r => Done (fin m w r))) ranks =
  Some (map (fun q => fin q.1 q.2
                        (mpi_reduce (reduction op) (map (fun q => send q.1 q.2) ranks)))
            ranks).
Proof.
  destruct ranks as [|r rs]; [reflexivity|]. cbn [cluster spmd].
  rewrite (gather_map (entering op) _
             (fun q : Rank D P C S X => (send q.1 q.2, fun x => Done (fin q.1 q.2 x))))
    by (intros q; cbn [entering]; destruct op; reflexivity).
  cbv zeta. rewrite !map_map. cbn [fst snd spmd map].
  rewrite (gather_map finished _
             (fun q : Rank D P C S X =>
                fin q.1 q.2 (mpi_reduce (reduction op)
                                        (send r.1 r.2 :: map (fun q => send q.1 q.2) rs))))
    by reflexivity.
  reflexivity.
Qed.

Lemma insert_map_id {A B : Type} (f : A -> B) (l : list A) (i : nat) (x : A) :
  l !! i = Some x -> <[i := f x]> (map f l) = map f l.
Proof.
  revert i. induction l as [|y l IH]; intros [|i] H; try discriminate.
  - injection H as ->. reflexivity.
  - cbn [map]. cbn. f_equal. now apply IH.
Qed.

(** The same method as one process of the run sees it through its
    communicator. *)
Lemma in_run_one_collective {A : Type} (op : mpi_op)
      (send : Min D P S -> LAMMPS D C X -> D) (fin : Min D P S -> LAMMPS D C X -> D -> A)
      (ranks : list (Rank D P C S X)) (i : nat) (r : Rank D P C S X) :
  let method := fun m w => Allreduce op (send m w) (fun x => Done (fin m w x)) in
  ranks !! i = Some r ->
  (forall m w c, send m (set_world c w) = send m w) ->
  (forall m w c x, fin m (set_world c w) x = fin m w x) ->
  in_world (world (in_run method ranks i r.2)) (method r.1 (in_run method ranks i r.2)) =
  fin r.1 r.2 (mpi_reduce (reduction op) (map (fun q => send q.1 q.2) ranks)).
Proof.
  intros method Hi Hs Hf. unfold method, in_run. cbn [sent].
  destruct op; cbn [in_world world set_world allreduce_sum_double allreduce_max_double reduction];
    rewrite Hs, Hf, (insert_map_id (fun q : Min D P S * LAMMPS D C X => send q.1 q.2) ranks i r Hi);
    reflexivity.
Qed.

(** [fnorm_sqr] and [fnorm_inf] in a run: the reduction of the local
    folds, then on each process the fold over its global components. *)
Lemma cluster_fnorm_sqr_fold (ranks : list (Rank D P C S X)) :
  cluster_fnorm_sqr ranks =
  Some (map (fun r =>
               foldl add_sq
                     (mpi_reduce d_add
                        (map (fun q => foldl add_sq d_zero (local_components q)) ranks))
                     (global_components r.1))
            ranks).
Proof.
  unfold cluster_fnorm_sqr, fnorm_sqr_par.
  rewrite (cluster_one_collective MPI_SUM local_norm2_sqr
             (fun m _ x => over_extra_global add_sq m x)).
  f_equal. apply map_ext. intros r. rewrite global_fold. cbn [reduction]. do 2 f_equal.
  apply map_ext. intros q. apply local_fold.
Qed.

Lemma cluster_fnorm_inf_fold (ranks : list (Rank D P C S X)) :
  cluster_fnorm_inf ranks =
  Some (map (fun r =>
               foldl max_abs
                     (mpi_reduce MAX
                        (map (fun q => foldl max_abs d_zero (local_components q)) ranks))
                     (global_components r.1))
            ranks).
Proof.
  unfold cluster_fnorm_inf, fnorm_inf_par.
  rewrite (cluster_one_collective MPI_MAX local_norm_inf
             (fun m _ x => over_extra_global max_abs m x)).
  f_equal. apply map_ext. intros r. rewrite global_fold. cbn [reduction]. do 2 f_equal.
  apply map_ext. intros q. apply local_fold.
Qed.

(** What [setup] and [cleanup] get from [fnorm_sqr] and [fnorm_inf] on a
    process of the run is that process' value of the run. *)
Lemma fnorm_sqr_in_run (ranks : list (Rank D P C S X)) (i : nat) (r : Rank D P C S X) :
  ranks !! i = Some r ->
  fnorm_sqr r.1 (in_run fnorm_sqr_par ranks i r.2) =
  foldl add_sq
        (mpi_reduce d_add (map (fun q => foldl add_sq d_zero (local_components q)) ranks))
        (global_components r.1).
Proof.
  intros Hi. unfold fnorm_sqr, fnorm_sqr_par.
  rewrite (in_run_one_collective MPI_SUM local_norm2_sqr
             (fun m _ x => over_extra_global add_sq m x) ranks i r Hi)
    by reflexivity.
  rewrite global_fold. cbn [reduction]. do 2 f_equal.
  apply map_ext. intros q. apply local_fold.
Qed.

Lemma fnorm_inf_in_run (ranks : list (Rank D P C S X)) (i : nat) (r : Rank D P C S X) :
  ranks !! i = Some r ->
  fnorm_inf r.1 (in_run fnorm_inf_par ranks i r.2) =
  foldl max_abs
        (mpi_reduce MAX (map (fun q => foldl max_abs d_zero (local_components q)) ranks))
        (global_components r.1).
Proof.
  intros Hi. unfold fnorm_inf, fnorm_inf_par.
  rewrite (in_run_one_collective MPI_MAX local_norm_inf
             (fun m _ x => over_extra_global max_abs m x) ranks i r Hi)
    by reflexivity.
  rewrite global_fold. cbn [reduction]. do 2 f_equal.
  apply map_ext. intros q. apply local_fold.
Qed.




Lemma elem_of_map {A B : Type} (f : A -> B) (l : list A) (y : B) :
  y ∈ map f l <-> exists x, y = f x /\ x ∈ l.
Proof.
  rewrite list_elem_of_In, in_map_iff.
  split; intros (x & H1 & H2); exists x; [rewrite list_elem_of_In|rewrite <- list_elem_of_In]; auto.
Qed.

Lemma elem_of_concat {A : Type} (x : A) (ls : list (list A)) :
  x ∈ concat ls <-> exists l, x ∈ l /\ l ∈ ls.
Proof.
  rewrite list_elem_of_In, in_concat.
  split; intros (l & H1 & H2); exists l; [rewrite !list_elem_of_In|rewrite <- !list_elem_of_In]; auto.
Qed.

(** The values of a run, process by process. *)
Lemma Forall2_map_self {A B : Type} (Q : A -> B -> Prop) (f : A -> B) (l : list A) :
  (forall x, x ∈ l -> Q x (f x)) -> Forall2 Q l (map f l).
Proof.
  induction l as [|x l IH]; intros H; cbn [map]; constructor.
  - apply H. left.
  - apply IH. intros y Hy. apply H. now right.
Qed.

End NormLoops.

(** ** Sums of integers in double precision *)






Section Exact64.

Context {P C S X : Type}.




























End Exact64.

(** ** The L2 norm squared *)




(** ** The maximum norm in double precision *)

Section MaxNorm.

Context {P C S X : Type}.

(** The doubles that [fabs] returns on a number: sign bit clear, no NaN. *)
Definition magnitude (x : spec_float) : bool :=
  match x with
  | S754_zero false | S754_infinity false | S754_finite false _ _ => true
  | _ => false
  end.

(** Class, exponent and mantissa: [<] on magnitudes is the lexicographic
    order of their keys. *)
Definition key (x : spec_float) : Z * Z * Z :=
  match x with
  | S754_zero _ => (0, 0, 0)
  | S754_finite _ m e => (1, e, Z.pos m)
  | S754_infinity _ => (2, 0, 0)
  | S754_nan => (3, 0, 0)
  end.

Definition key_lt (a b : Z * Z * Z) : Prop :=
  a.1.1 < b.1.1 \/
  (a.1.1 = b.1.1 /\ (a.1.2 < b.1.2 \/ (a.1.2 = b.1.2 /\ a.2 < b.2))).

(** [r] is the largest absolute value in [l], or 0.0 if there is none
    above it. *)
Definition is_max_abs (r : spec_float) (l : list spec_float) : Prop :=
  magnitude r = true /\
  (r = S754_zero false \/ exists y, y ∈ l /\ r = SFabs y) /\
  (forall y, y ∈ l -> SFltb r (SFabs y) = false).

Lemma SFltb_key (a b : spec_float) :
  magnitude a = true -> magnitude b = true ->
  SFltb a b = true <-> key_lt (key a) (key b).
Proof.
  destruct a as [[]|[]| |[] m1 e1], b as [[]|[]| |[] m2 e2]; try discriminate;
    intros _ _; unfold key_lt, SFltb, SFcompare; cbn [key fst snd].
  all: try (split; [discriminate | lia]).
  all: try (split; [lia | reflexivity]).
  destruct (Z.compare_spec e1 e2) as [He|He|He].
  - rewrite Pos.compare_cont_spec. cbn [Pos.switch_Eq].
    destruct (Pos.compare_spec m1 m2); split; try discriminate; try lia; reflexivity.
  - split; [lia | reflexivity].
  - split; [discriminate | lia].
Qed.

Lemma SFltb_false_key (a b : spec_float) :
  magnitude a = true -> magnitude b = true ->
  SFltb a b = false <-> ~ key_lt (key a) (key b).
Proof.
  intros Ha Hb. rewrite <- (SFltb_key a b Ha Hb). now destruct (SFltb a b).
Qed.

Lemma key_inj (a b : spec_float) :
  magnitude a = true -> magnitude b = true -> key a = key b -> a = b.
Proof.
  destruct a as [[]|[]| |[] m1 e1], b as [[]|[]| |[] m2 e2]; try discriminate;
    intros _ _ H; try reflexivity; inversion H; reflexivity.
Qed.

Lemma SFabs_magnitude (a : spec_float) : magnitude a = true -> SFabs a = a.
Proof. destruct a as [[]|[]| |[] m e]; try discriminate; reflexivity. Qed.

Lemma SFabs_cases (x : spec_float) : magnitude (SFabs x) = true \/ SFabs x = S754_nan.
Proof. destruct x as [[]|[]| |[] m e]; cbn; auto. Qed.

Lemma SFltb_nan (a : spec_float) : SFltb a S754_nan = false.
Proof. now destruct a. Qed.

Lemma SFltb_true_magnitude (a x : spec_float) :
  SFltb a (SFabs x) = true -> magnitude (SFabs x) = true.
Proof.
  destruct (SFabs_cases x) as [H|H]; [trivial|]. rewrite H, SFltb_nan. discriminate.
Qed.

Lemma SFltb_irrefl (a : spec_float) : SFltb a a = false.
Proof.
  destruct a as [[]|[]| |[] m e]; try reflexivity; unfold SFltb, SFcompare;
    rewrite Z.compare_refl, Pos.compare_cont_refl; reflexivity.
Qed.

Lemma SFltb_asym (a b : spec_float) :
  magnitude a = true -> magnitude b = true -> SFltb a b = true -> SFltb b a = false.
Proof.
  intros Ha Hb H. apply SFltb_key in H; trivial. apply SFltb_false_key; trivial.
  unfold key_lt in *. lia.
Qed.

Lemma SFle_antisym (a b : spec_float) :
  magnitude a = true -> magnitude b = true ->
  SFltb a b = false -> SFltb b a = false -> a = b.
Proof.
  intros Ha Hb H1 H2. apply SFltb_false_key in H1, H2; trivial.
  apply key_inj; trivial. unfold key_lt in *.
  destruct (key a) as [[a1 a2] a3], (key b) as [[b1 b2] b3]. cbn [fst snd] in *.
  repeat f_equal; lia.
Qed.

(** [c <= b] and [b <= a] give [c <= a], where [c] is what [fabs]
    returns. *)
Lemma SFle_trans (a b x : spec_float) :
  magnitude a = true -> magnitude b = true ->
  SFltb a b = false -> SFltb b (SFabs x) = false -> SFltb a (SFabs x) = false.
Proof.
  intros Ha Hb H1 H2. destruct (SFabs_cases x) as [Hx|Hx].
  - apply SFltb_false_key in H1, H2; trivial. apply SFltb_false_key; trivial.
    unfold key_lt in *. lia.
  - rewrite Hx. apply SFltb_nan.
Qed.

Lemma SFltb_zero (a : spec_float) : magnitude a = true -> SFltb a (S754_zero false) = false.
Proof. destruct a as [[]|[]| |[] m e]; try discriminate; reflexivity. Qed.

(** One step of the loop. *)
Lemma max_abs_step (acc x : spec_float) :
  magnitude acc = true ->
  magnitude (max_abs acc x) = true /\
  (max_abs acc x = acc \/ max_abs acc x = SFabs x) /\
  SFltb (max_abs acc x) acc = false /\
  SFltb (max_abs acc x) (SFabs x) = false.
Proof.
  intros Hacc. unfold max_abs, MAX. cbn [d_gt d_fabs binary64].
  destruct (SFltb acc (SFabs x)) eqn:E.
  - pose proof (SFltb_true_magnitude _ _ E) as Hx.
    repeat split; auto using SFltb_asym, SFltb_irrefl.
  - repeat split; auto using SFltb_irrefl.
Qed.

Lemma foldl_max_abs_spec (l : list spec_float) (acc : spec_float) :
  magnitude acc = true ->
  magnitude (foldl max_abs acc l) = true /\
  (foldl max_abs acc l = acc \/ exists y, y ∈ l /\ foldl max_abs acc l = SFabs y) /\
  SFltb (foldl max_abs acc l) acc = false /\
  (forall y, y ∈ l -> SFltb (foldl max_abs acc l) (SFabs y) = false).
Proof.
  revert acc. induction l as [|x l IH]; intros acc Hacc; cbn [foldl].
  - repeat split; auto using SFltb_irrefl. intros y Hy. inversion Hy.
  - destruct (max_abs_step acc x Hacc) as (Hm & Hc & Hle & Hx).
    destruct (IH _ Hm) as (Hm' & Hc' & Hle' & Hup). repeat split; trivial.
    + destruct Hc' as [->|(y & Hy & ->)].
      * destruct Hc as [->| ->]; [now left|right]. exists x. split; [left|reflexivity].
      * right. exists y. split; [now right|reflexivity].
    + pose proof (SFle_trans _ (max_abs acc x) acc Hm' Hm Hle') as H.
      rewrite (SFabs_magnitude acc Hacc) in H. now apply H.
    + intros y Hy. apply elem_of_cons in Hy as [->|Hy]; [|now apply Hup].
      apply (SFle_trans _ (max_abs acc x)); trivial.
Qed.

Lemma foldl_is_max_abs (l : list spec_float) :
  is_max_abs (foldl max_abs (S754_zero false) l) l.
Proof.
  destruct (foldl_max_abs_spec l (S754_zero false) eq_refl) as (Hm & Hc & _ & Hup).
  repeat split; trivial.
Qed.

Lemma is_max_abs_unique (l : list spec_float) (r1 r2 : spec_float) :
  is_max_abs r1 l -> is_max_abs r2 l -> r1 = r2.
Proof.
  intros (Hm1 & Hc1 & Hu1) (Hm2 & Hc2 & Hu2). apply SFle_antisym; trivial.
  - destruct Hc2 as [->|(y & Hy & ->)]; [now apply SFltb_zero | now apply Hu1].
  - destruct Hc1 as [->|(y & Hy & ->)]; [now apply SFltb_zero | now apply Hu2].
Qed.

Lemma is_max_abs_perm (l1 l2 : list spec_float) (r : spec_float) :
  l1 ≡ₚ l2 -> is_max_abs r l1 -> is_max_abs r l2.
Proof.
  intros Hp (Hm & Hc & Hu). repeat split; trivial.
  - destruct Hc as [->|(y & Hy & ->)]; [now left|right].
    exists y. split; [now rewrite <- Hp|reflexivity].
  - intros y Hy. apply Hu. now rewrite Hp.
Qed.

(** On magnitudes the reduction operator is the step of the loop. *)
Lemma MAX_max_abs (a b : spec_float) :
  magnitude a = true -> magnitude b = true -> MAX a b = max_abs a b.
Proof.
  intros Ha Hb. unfold max_abs, MAX. cbn [d_gt d_fabs binary64].
  rewrite (SFabs_magnitude b Hb).
  destruct (SFltb b a) eqn:E1, (SFltb a b) eqn:E2; trivial.
  - apply SFltb_asym in E1; trivial. congruence.
  - now apply SFle_antisym.
Qed.

Lemma mpi_max_fold (xs : list spec_float) :
  Forall (fun x => magnitude x = true) xs ->
  mpi_reduce MAX xs = foldl max_abs (S754_zero false) xs.
Proof.
  destruct 1 as [|x xs Hx Hxs]; [reflexivity|]. cbn [mpi_reduce foldl].
  assert (max_abs (S754_zero false) x = x) as ->.
  { destruct (max_abs_step (S754_zero false) x eq_refl) as (Hm & Hc & _ & Hge).
    rewrite (SFabs_magnitude x Hx) in Hc, Hge. apply SFle_antisym; trivial.
    destruct Hc as [-> | ->]; [now apply SFltb_zero | apply SFltb_irrefl]. }
  revert x Hx. induction Hxs as [|y ys Hy _ IH]; intros x Hx; [reflexivity|].
  cbn [foldl]. rewrite MAX_max_abs by trivial. apply IH.
  now destruct (max_abs_step x y Hx).
Qed.

(** The maximum of the local maxima is the maximum of all components. *)
Lemma max_of_maxima {A : Type} (g : A -> list spec_float) (qs : list A) :
  foldl max_abs (S754_zero false) (map (fun q => foldl max_abs (S754_zero false) (g q)) qs) =
  foldl max_abs (S754_zero false) (concat (map g qs)).
Proof.
  apply (is_max_abs_unique (concat (map g qs))); [|apply foldl_is_max_abs].
  destruct (foldl_is_max_abs (map (fun q => foldl max_abs (S754_zero false) (g q)) qs))
    as (Hm & Hc & Hu).
  repeat split; trivial.
  - destruct Hc as [Hc|(y & Hy & Hc)]; [now left|].
    apply elem_of_map in Hy as (q & -> & Hq).
    destruct (foldl_is_max_abs (g q)) as (Hmq & Hcq & _).
    rewrite (SFabs_magnitude _ Hmq) in Hc.
    destruct Hcq as [Hz|(z & Hz & Hr)]; [left; congruence|right].
    exists z. split; [|congruence].
    apply elem_of_concat. exists (g q). split; [trivial|].
    apply elem_of_map. now exists q.
  - intros z Hz. apply elem_of_concat in Hz as (l & Hz & Hl).
    apply elem_of_map in Hl as (q & -> & Hq).
    destruct (foldl_is_max_abs (g q)) as (Hmq & _ & Huq).
    apply (SFle_trans _ (foldl max_abs (S754_zero false) (g q))); trivial.
    + rewrite <- (SFabs_magnitude _ Hmq). apply Hu.
      apply elem_of_map. now exists q.
    + now apply Huq.
Qed.

Lemma norm_inf_value (ranks : list (Rank spec_float P C S X)) (r : Rank spec_float P C S X) :
  foldl max_abs
        (mpi_reduce MAX (map (fun q => foldl max_abs d_zero (local_components q)) ranks))
        (global_components r.1) =
  foldl max_abs d_zero (cluster_components ranks ++ global_components r.1).
Proof.
  rewrite foldl_app. f_equal. rewrite mpi_max_fold.
  - apply (max_of_maxima local_components).
  - apply Forall_forall. intros x Hx. apply elem_of_map in Hx as (q & -> & _).
    now destruct (foldl_is_max_abs (local_components q)).
Qed.

Lemma cluster_fnorm_inf_max (ranks : list (Rank spec_float P C S X)) :
  cluster_fnorm_inf ranks =
  Some (map (fun r => foldl max_abs d_zero (cluster_components ranks ++ global_components r.1))
            ranks).
Proof.
  rewrite cluster_fnorm_inf_fold. f_equal. apply map_ext. intros r. apply norm_inf_value.
Qed.

(** C8. [fnorm_inf] does not depend on the partition: two runs that hold
    the same multiset of atom and per-atom extra force components, however
    split among their processes, and whose processes all hold the global
    extra forces [g], return one and the same value on every process of
    either run; it is the value of the loop run over all components
    followed by the global ones, that is the largest absolute value among
    them (0.0 if there is none).  It is the value of the run, and what a
    call of [fnorm_inf] gets on a process whose communicator is that of the
    run. *)
Theorem fnorm_inf_partition_invariant
        (c1 c2 : list (Rank spec_float P C S X)) (g : list spec_float) :
  cluster_components c1 ≡ₚ cluster_components c2 ->
  (forall r, r ∈ c1 ++ c2 -> global_components r.1 ≡ₚ g) ->
  exists v,
    cluster_fnorm_inf c1 = Some (map (fun _ => v) c1) /\
    cluster_fnorm_inf c2 = Some (map (fun _ => v) c2) /\
    (forall i r, c1 !! i = Some r -> fnorm_inf r.1 (in_run fnorm_inf_par c1 i r.2) = v) /\
    (forall i r, c2 !! i = Some r -> fnorm_inf r.1 (in_run fnorm_inf_par c2 i r.2) = v) /\
    v = foldl max_abs d_zero (cluster_components c1 ++ g) /\
    is_max_abs v (cluster_components c1 ++ g).
Proof.
  intros Hc Hg. exists (foldl max_abs d_zero (cluster_components c1 ++ g)).
  assert (G : forall (c : list (Rank spec_float P C S X)) (r : Rank spec_float P C S X),
             cluster_components c1 ≡ₚ cluster_components c -> global_components r.1 ≡ₚ g ->
             foldl max_abs d_zero (cluster_components c ++ global_components r.1) =
             foldl max_abs d_zero (cluster_components c1 ++ g)).
  { intros c r Hp Hr.
    apply (is_max_abs_unique (cluster_components c1 ++ g)); [|apply foldl_is_max_abs].
    apply (is_max_abs_perm (cluster_components c ++ global_components r.1)).
    - now apply Permutation_app.
    - apply foldl_is_max_abs. }
  rewrite !cluster_fnorm_inf_max. split; [|split; [|split; [|split; [|split]]]].
  - f_equal. apply map_ext_in. intros r Hr. apply list_elem_of_In in Hr.
    apply G; [reflexivity | apply Hg, elem_of_app; now left].
  - f_equal. apply map_ext_in. intros r Hr. apply list_elem_of_In in Hr.
    apply G; [trivial | apply Hg, elem_of_app; now right].
  - intros i r Hi. rewrite fnorm_inf_in_run, norm_inf_value by trivial.
    apply G; [reflexivity | apply Hg, elem_of_app; left; now apply (list_elem_of_lookup_2 _ i)].
  - intros i r Hi. rewrite fnorm_inf_in_run, norm_inf_value by trivial.
    apply G; [trivial | apply Hg, elem_of_app; right; now apply (list_elem_of_lookup_2 _ i)].
  - reflexivity.
  - apply foldl_is_max_abs.
Qed.

End MaxNorm.

(** The atoms of [Example.two_processes], split among three processes in
    another order: 2^27 on every process of either run. *)
Lemma fnorm_inf_partition_witness :
  exists v,
    cluster_fnorm_inf Example.two_processes = Some [v; v] /\
    cluster_fnorm_inf Example.three_processes = Some [v; v; v] /\
    v = b64_of_Z 134217728.
Proof.
  destruct (fnorm_inf_partition_invariant
              Example.two_processes Example.three_processes [])
    as (v & H1 & H2 & _ & _ & Hv & _).
  - exact (Permutation_app_comm [b64_of_Z 134217728; b64_of_Z 0; b64_of_Z 0]
                                [b64_of_Z 1; b64_of_Z 1; b64_of_Z 1]).
  - intros r Hr. repeat (apply elem_of_cons in Hr as [->|Hr]; [reflexivity|]).
    inversion Hr.
  - exists v. split; [exact H1|]. split; [exact H2|]. rewrite Hv. vm_compute. reflexivity.
Defined.

(** ** The result of [energy_force] is a function of the state *)

Section Repeat.

Context {D : Type} {SD : Scalar D} {P C S X : Type}.
Variable h : Hooks D P C S X.

Local Abbreviation state := (St D P C S X).
Local Abbreviation action := (M D P C S X).

(** The same [Min] object and LAMMPS instance, after another history. *)
Definition retrace (t : list Call) (s : state) : state :=
  mkSt (minimize s) (lmp s) t.

(** Two outcomes with the same result, [Min] object and LAMMPS instance,
    reached through the same calls after the histories [t0] and [t]. *)
Definition replay {A : Type} (t0 t : list Call) (r r' : Res D P C S X A) : Prop :=
  match r, r' with
  | Ok a s, Ok a' s' =>
      a = a' /\ minimize s = minimize s' /\ lmp s = lmp s' /\
      exists evs, trace s = t0 ++ evs /\ trace s' = t ++ evs
  | Abort x s, Abort x' s' =>
      x = x' /\ minimize s = minimize s' /\ lmp s = lmp s' /\
      exists evs, trace s = t0 ++ evs /\ trace s' = t ++ evs
  | _, _ => False
  end.

(** [blind m]: what [m] returns, leaves behind and calls does not depend
    on the calls made before it. *)
Definition blind {A : Type} (m : action A) : Prop :=
  forall s t, replay (trace s) t (m s) (m (retrace t s)).

Lemma retrace_of (s s' : state) :
  minimize s = minimize s' -> lmp s = lmp s' -> s' = retrace (trace s') s.
Proof. destruct s, s'. cbn. intros -> ->. reflexivity. Qed.

Ltac replayed evs :=
  cbn; repeat split; exists evs; rewrite ?app_nil_r; split; reflexivity.

Lemma blind_ret {A : Type} (a : A) : blind (mret a : action A).
Proof. intros s t. replayed (@nil Call). Qed.

Lemma blind_bind {A B : Type} (m : action A) (k : A -> action B) :
  blind m -> (forall a, blind (k a)) -> blind (m ≫= k).
Proof.
  intros Hm Hk s t. specialize (Hm s t). unfold mbind, M_bind.
  destruct (m s) as [a s1|x s1], (m (retrace t s)) as [a' s1'|x' s1']; cbn in Hm;
    try contradiction; [|exact Hm].
  destruct Hm as (<- & Hmin & Hlmp & evs1 & T1 & T1').
  specialize (Hk a s1 (trace s1')). rewrite <- (retrace_of s1 s1' Hmin Hlmp) in Hk.
  unfold replay in *.
  destruct (k a s1) as [b s2|y s2], (k a s1') as [b' s2'|y' s2']; try contradiction;
    destruct Hk as (-> & Hmin2 & Hlmp2 & evs2 & T2 & T2'); repeat split; trivial;
    exists (evs1 ++ evs2); rewrite T2, T2', T1, T1', <- !app_assoc; split; reflexivity.
Qed.

Lemma blind_get_st {A : Type} (k : state -> action A) :
  (forall s t, k (retrace t s) = k s) -> (forall s, blind (k s)) -> blind (get_st ≫= k).
Proof.
  intros Hk Hb s t. unfold mbind, M_bind, get_st. rewrite Hk. apply Hb.
Qed.

Lemma blind_upd_min (g : Min D P S -> Min D P S) : blind (upd_min g : action unit).
Proof. intros s t. replayed (@nil Call). Qed.

Lemma blind_upd_lmp (g : LAMMPS D C X -> LAMMPS D C X) : blind (upd_lmp g : action unit).
Proof. intros s t. replayed (@nil Call). Qed.

Lemma blind_log (c : Call) : blind (log c : action unit).
Proof. intros s t. replayed [c]. Qed.

Lemma blind_call (c : Call) (g : LAMMPS D C X -> LAMMPS D C X) : blind (call c g : action unit).
Proof. apply blind_bind; [apply blind_upd_lmp | intros _; apply blind_log]. Qed.

Lemma blind_callv {A : Type} (c : A -> Call) (g : LAMMPS D C X -> A * LAMMPS D C X) :
  blind (callv c g : action A).
Proof. intros s t. unfold callv. cbn. destruct (g (lmp s)) as [a w]. replayed [c a]. Qed.

Lemma blind_call_virtual (c : Call)
      (g : Min D P S -> LAMMPS D C X -> Min D P S * LAMMPS D C X) :
  blind (call_virtual c g : action unit).
Proof.
  intros s t. unfold call_virtual. cbn. destruct (g (minimize s) (lmp s)). replayed [c].
Qed.

Lemma blind_when (b : bool) (body : action unit) : blind body -> blind (when b body).
Proof. intros Hb. destruct b; [exact Hb | apply blind_ret]. Qed.

Lemma blind_for_each {A : Type} (l : list A) (body : A -> action unit) :
  (forall x, blind (body x)) -> blind (for_each l body).
Proof.
  intros Hb. induction l as [|x l IH]; cbn [for_each]; [apply blind_ret|].
  apply blind_bind; auto.
Qed.

Lemma blind_call_matchstep (l : evlist) (c : nat) (ntimestep : Z) :
  blind (call_matchstep h l c ntimestep).
Proof.
  intros s t. unfold call_matchstep. cbn [retrace lmp minimize].
  destruct (Modify.compute (modify (lmp s)) !! c) as [cv|]; [|replayed (@nil Call)].
  destruct (matchstep h ntimestep cv) as [r cv']. replayed [ComputeMatchstep l c ntimestep r].
Qed.

Lemma blind_scan (l : evlist) (cs : list nat) (ntimestep flag : Z) :
  blind (scan h l cs ntimestep flag).
Proof.
  revert flag. induction cs as [|c cs IH]; intros flag; cbn [scan]; [apply blind_ret|].
  apply blind_bind; [apply blind_call_matchstep | intros r; apply IH].
Qed.

End Repeat.

(** One statement of a program whose result does not depend on the
    history. *)
Ltac blind_step :=
  cbv beta zeta;
  lazymatch goal with
  | |- blind (mret _) => apply blind_ret
  | |- blind (get_st ≫= _) => apply blind_get_st; [intros ? ?; reflexivity | intros ?]
  | |- blind (_ ≫= _) => apply blind_bind; [| intros ?]
  | |- blind (when _ _) => apply blind_when
  | |- blind (for_each _ _) => apply blind_for_each; intros ?
  | |- blind (upd_min _) => apply blind_upd_min
  | |- blind (upd_lmp _) => apply blind_upd_lmp
  | |- blind (log _) => apply blind_log
  | |- blind (call _ _) => apply blind_call
  | |- blind (stamp _ _) => apply blind_call
  | |- blind (callv _ _) => apply blind_callv
  | |- blind (call_virtual _ _) => apply blind_call_virtual
  | |- blind (scan _ _ _ _ _) => apply blind_scan
  | |- blind (if ?b then _ else _) => destruct b
  | |- blind (match ?x with _ => _ end) => destruct x
  end.

Section Repeatable.

Context {D : Type} {SD : Scalar D} {P C S X : Type}.
Variable h : Hooks D P C S X.

Local Abbreviation state := (St D P C S X).

Lemma blind_ev_set (ntimestep : Z) : blind (ev_set h ntimestep).
Proof. unfold ev_set. repeat blind_step. Qed.

Lemma blind_force_clear : blind (force_clear (D:=D) (P:=P) (C:=C) (S:=S) (X:=X)).
Proof. unfold force_clear. repeat blind_step. Qed.

Lemma blind_harvest_extra_atom : blind (harvest_extra_atom h).
Proof. unfold harvest_extra_atom. repeat blind_step. Qed.

Lemma blind_potential_energy : blind (potential_energy h).
Proof. unfold potential_energy. repeat blind_step. Qed.

Lemma blind_energy_force (resetflag : Z) : blind (energy_force h resetflag).
Proof.
  unfold energy_force.
  repeat first [ apply blind_ev_set | apply blind_force_clear
               | apply blind_harvest_extra_atom | apply blind_potential_energy
               | blind_step ].
Qed.

End Repeatable.

(** ** Two evaluations in a row *)






Section Simulation.

Context {D : Type} {SD : Scalar D} {P C S X : Type}.
Variable h : Hooks D P C S X.

Local Abbreviation state := (St D P C S X).
Local Abbreviation action := (M D P C S X).














Section Rules.





Context {T : Type} (pi : Min D P S -> T) (t0 t0' : list Call).






End Rules.






End Simulation.

Section TwoEvaluations.

Context {D : Type} {SD : Scalar D} {P C S X : Type}.
Variable h : Hooks D P C S X.

Local Abbreviation state := (St D P C S X).



End TwoEvaluations.


(** * Further properties of the code *)

(** ** [ev_setup]: the four lists of computes *)

Section EvSetup.

Context {D : Type} {SD : Scalar D} {P C S X : Type}.
Variable h : Hooks D P C S X.

Local Abbreviation state := (St D P C S X).

(** The array of the list [l] as [ev_setup] allocates and fills it, and
    its counter. *)
Definition ev_array (l : evlist) (m : Min D P S) : list nat :=
  match l with
  | EGlobal => elist_global m
  | EAtom => elist_atom m
  | VGlobal => vlist_global m
  | VAtom => vlist_atom m
  end.

Definition ev_count (l : evlist) (m : Min D P S) : Z :=
  match l with
  | EGlobal => nelist_global m
  | EAtom => nelist_atom m
  | VGlobal => nvlist_global m
  | VAtom => nvlist_atom m
  end.

(** The flag of a compute that puts it on the list [l]. *)
Definition ev_flag (l : evlist) : C -> Z :=
  match l with
  | EGlobal => peflag h
  | EAtom => peatomflag h
  | VGlobal => pressflag h
  | VAtom => pressatomflag h
  end.

(** [modify->compute[i]] exists and has the flag set. *)
Definition flagged (flag : C -> Z) (w : LAMMPS D C X) (i : nat) : bool :=
  match Modify.compute (modify w) !! i with
  | Some c => truthy (flag c)
  | None => false
  end.

Lemma ev_collect_from (flag : C -> Z) (w : LAMMPS D C X) (l acc : list nat) :
  foldl (fun acc i =>
           match Modify.compute (modify w) !! i with
           | Some c => if truthy (flag c) then acc ++ [i] else acc
           | None => acc
           end) acc l =
  acc ++ List.filter (flagged flag w) l.
Proof.
  revert acc. induction l as [|i l IH]; intros acc; cbn [foldl List.filter].
  - now rewrite app_nil_r.
  - rewrite IH. unfold flagged at 2.
    destruct (Modify.compute (modify w) !! i) as [c|]; [|reflexivity].
    destruct (truthy (flag c)); [|reflexivity]. now rewrite <- app_assoc.
Qed.

Lemma ev_collect_filter (flag : C -> Z) (w : LAMMPS D C X) :
  ev_collect flag w = List.filter (flagged flag w) (upto (Modify.ncompute (modify w))).
Proof. unfold ev_collect. now rewrite ev_collect_from. Qed.

Lemma upto_sorted (n : Z) : StronglySorted lt (upto n).
Proof.
  unfold upto. generalize 0%nat. induction (Z.to_nat n) as [|k IH]; intros a; cbn [seq].
  - constructor.
  - constructor; [apply IH|]. apply Forall_forall. intros x Hx.
    apply list_elem_of_In, in_seq in Hx. lia.
Qed.

Lemma filter_sorted (f : nat -> bool) (l : list nat) :
  StronglySorted lt l -> StronglySorted lt (List.filter f l).
Proof.
  induction 1 as [|x l Hl IH Hx]; cbn [List.filter]; [constructor|].
  destruct (f x); [|exact IH]. constructor; [exact IH|].
  apply Forall_forall. intros y Hy. apply list_elem_of_In, filter_In in Hy as [Hy _].
  rewrite Forall_forall in Hx. apply Hx. now apply list_elem_of_In.
Qed.

Lemma ev_setup_eq (s : state) :
  exists m,
    ev_setup h s = Ok tt (mkSt m (lmp s) (trace s)) /\
    forall l, ev_list l m = ev_collect (ev_flag l) (lmp s).
Proof.
  unfold ev_setup. cbv [mbind M_bind get_st upd_min]. cbn [minimize lmp trace].
  eexists. split; [reflexivity|].
  intros l. destruct l; cbn [ev_list ev_flag]; cbn; rewrite Nat2Z.id; apply firstn_all.
Qed.

Lemma ev_setup_arrays (s : state) :
  exists m,
    ev_setup h s = Ok tt (mkSt m (lmp s) (trace s)) /\
    forall l, ev_array l m = ev_collect (ev_flag l) (lmp s) /\
              ev_count l m = Z.of_nat (length (ev_collect (ev_flag l) (lmp s))).
Proof.
  unfold ev_setup. cbv [mbind M_bind get_st upd_min]. cbn [minimize lmp trace].
  eexists. split; [reflexivity|].
  intros l. destruct l; split; reflexivity.
Qed.

(** X1.  [ev_setup] never fails and touches neither the LAMMPS instance
    nor the trace.  Each of the four lists it builds holds exactly the
    indices [i] below [modify->ncompute] of the computes whose flag for that
    list is set, in increasing order; the counter of the list is its
    length, so that the loops of [ev_set] run over the whole list. *)
Theorem ev_setup_lists (s : state) :
  exists s',
    ev_setup h s = Ok tt s' /\ lmp s' = lmp s /\ trace s' = trace s /\
    forall l : evlist,
      ev_count l (minimize s') = Z.of_nat (length (ev_array l (minimize s'))) /\
      ev_list l (minimize s') = ev_array l (minimize s') /\
      (forall i : nat,
          i ∈ ev_array l (minimize s') <->
          Z.of_nat i < Modify.ncompute (modify (lmp s)) /\
          exists c, Modify.compute (modify (lmp s)) !! i = Some c /\ ev_flag l c <> 0) /\
      StronglySorted lt (ev_array l (minimize s')).
Proof.
  destruct (ev_setup_arrays s) as (m & E & L). eexists. split; [exact E|].
  split; [reflexivity|]. split; [reflexivity|]. cbn [minimize].
  intros l. destruct (L l) as [La Lc]. split; [now rewrite Lc, La|].
  split.
  { assert (H : ev_list l m = take (Z.to_nat (ev_count l m)) (ev_array l m))
      by (destruct l; reflexivity).
    rewrite H, Lc, La, Nat2Z.id. apply firstn_all. }
  rewrite La, ev_collect_filter. split.
  - intros i. rewrite list_elem_of_In, filter_In. unfold upto, flagged. rewrite in_seq.
    split.
    + intros [Hi Hf]. split; [lia|].
      destruct (Modify.compute (modify (lmp s)) !! i) as [c|]; [|discriminate].
      exists c. split; [reflexivity|]. unfold truthy in Hf.
      now apply negb_true_iff, Z.eqb_neq in Hf.
    + intros [Hi (c & -> & Hc)]. split; [lia|].
      unfold truthy. now apply negb_true_iff, Z.eqb_neq.
  - apply filter_sorted, upto_sorted.
Qed.

End EvSetup.

(** ** [ev_set]: every listed compute is asked, once per list and in order *)

(** The list, the compute and the step of a call of [matchstep]. *)
Definition target (c : Call) : option (evlist * nat * Z) :=
  match c with
  | ComputeMatchstep l k t _ => Some (l, k, t)
  | _ => None
  end.

(** What [ev_set] asks at step [t] along the list [l]. *)
Definition asked {D P S : Type} (t : Z) (m : Min D P S) (l : evlist) :
  list (option (evlist * nat * Z)) :=
  map (fun k => Some (l, k, t)) (ev_list l m).

Section EvSetTargets.

Context {D : Type} {SD : Scalar D} {P C S X : Type}.
Variable h : Hooks D P C S X.

Local Abbreviation state := (St D P C S X).

(** The computes of [modify], counted. *)
Definition computes (s : state) : nat := length (Modify.compute (modify (lmp s))).

Lemma scan_targets (l : evlist) (cs : list nat) (t flag : Z) (s : state) :
  Forall (fun k => (k < computes s)%nat) cs ->
  exists r s' evs,
    scan h l cs t flag s = Ok r s' /\
    trace s' = trace s ++ evs /\
    minimize s' = minimize s /\
    computes s' = computes s /\
    map target evs = map (fun k => Some (l, k, t)) cs.
Proof.
  revert flag s. induction cs as [|c cs IH]; intros flag s Hv.
  - exists flag, s, []. cbn. rewrite app_nil_r. repeat split.
  - apply Forall_cons in Hv as [Hc Hv]. cbn [scan]. unfold call_matchstep at 1.
    destruct (lookup_lt_is_Some_2 _ _ Hc) as [cv Ec]. fold (computes s) in Hc.
    destruct (matchstep h t cv) as [r cv'] eqn:Em.
    pose (s1 := mkSt (minimize s)
                     (set_modify (Modify.set_compute
                                    (<[c := cv']> (Modify.compute (modify (lmp s))))
                                    (modify (lmp s))) (lmp s))
                     (trace s ++ [ComputeMatchstep l c t r])).
    assert (H1 : computes s1 = computes s).
    { unfold computes, s1. cbn. apply length_insert. }
    destruct (IH (if truthy r then 1 else flag) s1) as (r' & s' & evs & E & T & M1 & L & Tg).
    { now rewrite H1. }
    exists r', s', (ComputeMatchstep l c t r :: evs). split.
    { unfold mbind, M_bind. cbv beta. rewrite Ec, Em. fold s1. exact E. }
    split; [rewrite T; unfold s1; cbn [trace]; now rewrite <- app_assoc|].
    split; [exact M1|]. split; [congruence|]. cbn [map target]. now rewrite Tg.
Qed.

(** X2.  When every compute on the four lists exists, [ev_set] calls
    [matchstep] at the given step on every compute of [elist_global], then
    of [elist_atom], of [vlist_global] and of [vlist_atom], once per list
    and in the order of the lists, whether or not an earlier compute was
    due; it makes no other call. *)
Theorem ev_set_asks_listed_computes (t : Z) (s : state) :
  (forall l k, k ∈ ev_list l (minimize s) -> (k < computes s)%nat) ->
  exists s' evs,
    ev_set h t s = Ok tt s' /\
    trace s' = trace s ++ evs /\
    map target evs =
      asked t (minimize s) EGlobal ++ asked t (minimize s) EAtom ++
      asked t (minimize s) VGlobal ++ asked t (minimize s) VAtom.
Proof.
  intros Hv.
  assert (V : forall l, Forall (fun k => (k < computes s)%nat) (ev_list l (minimize s))).
  { intros l. apply Forall_forall. intros k Hk. now apply (Hv l). }
  unfold ev_set. cbv zeta. rewrite bind_get_st_eq. cbv beta.
  destruct (scan_targets EGlobal (ev_list EGlobal (minimize s)) t 0 s (V EGlobal))
    as (r1 & s1 & e1 & E1 & T1 & M1 & L1 & G1).
  rewrite (bind_of_ok _ _ _ _ _ E1). cbv beta.
  destruct (scan_targets EAtom (ev_list EAtom (minimize s)) t 0 s1)
    as (r2 & s2 & e2 & E2 & T2 & M2 & L2 & G2).
  { rewrite L1. apply V. }
  rewrite (bind_of_ok _ _ _ _ _ E2). cbv beta.
  rewrite !bind_when_upd_lmp_eq, bind_upd_min_eq. cbn [minimize lmp trace].
  set (s3 := mkSt _ _ (trace s2)).
  assert (L3 : computes s3 = computes s).
  { rewrite <- L1, <- L2. unfold computes, s3. cbn [lmp].
    destruct (truthy 1); destruct (truthy _); reflexivity. }
  destruct (scan_targets VGlobal (ev_list VGlobal (minimize s)) t 0 s3)
    as (r4 & s4 & e4 & E4 & T4 & M4 & L4 & G4).
  { rewrite L3. apply V. }
  rewrite (bind_of_ok _ _ _ _ _ E4). cbv beta.
  destruct (scan_targets VAtom (ev_list VAtom (minimize s)) t 0 s4)
    as (r5 & s5 & e5 & E5 & T5 & M5 & L5 & G5).
  { rewrite L4, L3. apply V. }
  rewrite (bind_of_ok _ _ _ _ _ E5). cbv beta.
  rewrite !bind_when_upd_lmp_eq. cbn [minimize lmp trace].
  eexists _, (e1 ++ e2 ++ e4 ++ e5). split; [reflexivity|]. cbn [trace]. split.
  - rewrite T5, T4. unfold s3. cbn [trace]. rewrite T2, T1. now rewrite <- !app_assoc.
  - rewrite !map_app, G1, G2, G4, G5. reflexivity.
Qed.

End EvSetTargets.

(** At step 100 the first two computes are asked along the lists they are
    on, and so is the third although it is not due. *)
Lemma ev_set_asks_listed_witness :
  exists s' evs,
    ev_set (Example.hooks 0 0 0 0) 100 Example.scheduled = Ok tt s' /\
    trace s' = trace Example.scheduled ++ evs /\
    map target evs =
      [Some (EGlobal, 0%nat, 100); Some (EAtom, 1%nat, 100);
       Some (VGlobal, 1%nat, 100); Some (VAtom, 2%nat, 100)].
Proof.
  apply (ev_set_asks_listed_computes (Example.hooks 0 0 0 0) 100 Example.scheduled).
  intros l k Hk. apply list_elem_of_In in Hk.
  destruct l; vm_compute in Hk; intuition subst; vm_compute; lia.
Defined.

(** ** [request]: a series of registrations *)

(** The pair styles register their per-atom degrees of freedom one after
    the other; the handles they get, and the object left. *)
Fixpoint requests {D : Type} {SD : Scalar D} {P S : Type}
         (rs : list (P * Z * D)) (m : Min D P S) : list Z * Min D P S :=
  match rs with
  | [] => ([], m)
  | (style, peratom, maxvalue) :: rs' =>
      let hm := request style peratom maxvalue m in
      let rest := requests rs' hm.2 in
      (hm.1 :: rest.1, rest.2)
  end.

(** The members of [Min] outside the registry. *)
Definition beside_registry {D P S : Type} (m : Min D P S) :=
  (dmax m, searchflag m, linestyle m,
   (nelist_global m, nelist_atom m, nvlist_global m, nvlist_atom m),
   (elist_global m, elist_atom m, vlist_global m, vlist_atom m),
   (nextra_global m, fextra m),
   (virial_style m, torqueflag m, erforceflag m, triclinic m),
   (neigh_every m, neigh_delay m, neigh_dist_check m),
   (niter m, neval m, fix_minimize m, pe_compute m, ndoftotal m),
   (eflag m, vflag m),
   (ecurrent m, einitial m, efinal m),
   (fnorm2_init m, fnorminf_init m, fnorm2_final m, fnorminf_final m),
   (stop_condition m, stopstr m, nvec m, fvec m, sub m)).

Section Requests.

Context {D : Type} {SD : Scalar D} {P S : Type}.

Lemma request_beside_registry (pair : P) (peratom : Z) (maxvalue : D) (m : Min D P S) :
  beside_registry (request pair peratom maxvalue m).2 = beside_registry m.
Proof. reflexivity. Qed.

(** One registration, on a registry of [n] slots. *)
Lemma request_slot (pair : P) (peratom : Z) (maxvalue : D) (m : Min D P S) (n : nat) :
  registry_slots m n ->
  let m' := (request pair peratom maxvalue m).2 in
  (request pair peratom maxvalue m).1 = Z.of_nat n /\
  registry_slots m' (Datatypes.S n) /\
  requestor m' !! n = Some (Some pair) /\
  extra_peratom m' !! n = Some (Some peratom) /\
  extra_max m' !! n = Some (Some maxvalue) /\
  (forall i : nat, (i < n)%nat ->
     requestor m' !! i = requestor m !! i /\
     extra_peratom m' !! i = extra_peratom m !! i /\
     extra_max m' !! i = extra_max m !! i /\
     extra_nlen m' !! i = extra_nlen m !! i /\
     xextra_atom m' !! i = xextra_atom m !! i /\
     fextra_atom m' !! i = fextra_atom m !! i).
Proof.
  intros (Hn & Hx & Hf & Hp & Hl & Hm & Hr). cbv zeta.
  destruct (request_fields pair peratom maxvalue m)
    as (E0 & E1 & E2 & E3 & E4 & E5 & E6 & E7).
  rewrite E0, E2, E3, E4, E5, E6, E7. unfold registry_slots.
  rewrite E1, E2, E3, E4, E5, E6, E7, Hn.
  rewrite !store_length, !grow_length.
  repeat split; try lia; auto using store_new, store_old, grow_old.
Qed.

(** X3.  On a registry of [n] slots a series of [request]s returns the
    consecutive handles [n], [n+1], ...; the registry then has one slot per
    registration more; the pair style, the number of components per atom
    and the bound of the [j]-th registration are read back at handle
    [n+j]; the [n] slots there were are unchanged; and no member of [Min]
    outside the registry is touched. *)
Theorem requests_give_consecutive_handles (rs : list (P * Z * D)) (m : Min D P S) (n : nat) :
  registry_slots m n ->
  (requests rs m).1 = map Z.of_nat (seq n (length rs)) /\
  registry_slots (requests rs m).2 (n + length rs) /\
  beside_registry (requests rs m).2 = beside_registry m /\
  (forall (j : nat) (pair : P) (peratom : Z) (maxvalue : D),
      rs !! j = Some (pair, peratom, maxvalue) ->
      requestor (requests rs m).2 !! (n + j)%nat = Some (Some pair) /\
      extra_peratom (requests rs m).2 !! (n + j)%nat = Some (Some peratom) /\
      extra_max (requests rs m).2 !! (n + j)%nat = Some (Some maxvalue)) /\
  (forall i : nat, (i < n)%nat ->
      requestor (requests rs m).2 !! i = requestor m !! i /\
      extra_peratom (requests rs m).2 !! i = extra_peratom m !! i /\
      extra_max (requests rs m).2 !! i = extra_max m !! i /\
      extra_nlen (requests rs m).2 !! i = extra_nlen m !! i /\
      xextra_atom (requests rs m).2 !! i = xextra_atom m !! i /\
      fextra_atom (requests rs m).2 !! i = fextra_atom m !! i).
Proof.
  revert m n. induction rs as [|[[style peratom] maxvalue] rs IH]; intros m n Hreg.
  - cbn [requests length seq map fst snd]. rewrite Nat.add_0_r.
    split; [reflexivity|]. split; [exact Hreg|]. split; [reflexivity|].
    split; [intros j p pa mx Hj; discriminate | intros i Hi; repeat split].
  - cbn [requests length seq map fst snd].
    destruct (request_slot style peratom maxvalue m n Hreg) as (H0 & H1 & Hq & Hp & Hm & Hold).
    destruct (IH _ _ H1) as (I0 & I1 & I2 & Inew & Iold).
    split; [now rewrite H0, I0|].
    split; [now replace (n + Datatypes.S (length rs))%nat
                  with (Datatypes.S n + length rs)%nat by lia|].
    split.
    { rewrite I2. apply request_beside_registry. }
    split.
    + intros [|j] p pa mx Hj.
      * injection Hj as -> -> ->. rewrite Nat.add_0_r.
        destruct (Iold n ltac:(lia)) as (R1 & R2 & R3 & _).
        split; [exact (eq_trans R1 Hq)|]. split; [exact (eq_trans R2 Hp) | exact (eq_trans R3 Hm)].
      * replace (n + Datatypes.S j)%nat with (Datatypes.S n + j)%nat by lia.
        now apply Inew.
    + intros i Hi. destruct (Iold i ltac:(lia)) as (R1 & R2 & R3 & R4 & R5 & R6).
      destruct (Hold i Hi) as (O1 & O2 & O3 & O4 & O5 & O6).
      split; [exact (eq_trans R1 O1)|]. split; [exact (eq_trans R2 O2)|].
      split; [exact (eq_trans R3 O3)|]. split; [exact (eq_trans R4 O4)|].
      split; [exact (eq_trans R5 O5) | exact (eq_trans R6 O6)].
Qed.

End Requests.

(** Two registrations on a fresh minimiser: handles 0 and 1, and the
    second pair style can be read back at handle 1. *)
Lemma requests_handles_witness :
  (requests [(7%nat, 1, b64_of_Z 2); (9%nat, 2, b64_of_Z 3)]
            (Example.min_of (D:=spec_float) 1 3 0 [])).1 = [0; 1] /\
  requestor (requests [(7%nat, 1, b64_of_Z 2); (9%nat, 2, b64_of_Z 3)]
                      (Example.min_of (D:=spec_float) 1 3 0 [])).2 !! 1%nat =
    Some (Some 9%nat).
Proof.
  destruct (requests_give_consecutive_handles
              [(7%nat, 1, b64_of_Z 2); (9%nat, 2, b64_of_Z 3)]
              (Example.min_of (D:=spec_float) 1 3 0 []) 0)
    as (H0 & _ & _ & Hnew & _).
  - repeat split.
  - split; [exact H0|]. exact (proj1 (Hnew 1%nat 9%nat 2 (b64_of_Z 3) eq_refl)).
Defined.

(** ** [modify_params]: the arguments of min_modify *)

(** One setting of the command: [dmax v], [line backtrack] or
    [line quadratic]. *)
Inductive setting :=
| Dmax (v : string)
| Line (quadratic : bool).

(** The two arguments that spell a setting. *)
Definition setting_args (x : setting) : list string :=
  match x with
  | Dmax v => ["dmax"; v]
  | Line false => ["line"; "backtrack"]
  | Line true => ["line"; "quadratic"]
  end%string.

Definition settings_args (xs : list setting) : list string :=
  concat (map setting_args xs).

(** What a setting assigns. *)
Definition apply_setting {D P S : Type} (atof : string -> D) (m : Min D P S) (x : setting) :
  Min D P S :=
  match x with
  | Dmax v => set_dmax (atof v) m
  | Line q => set_linestyle (if q then 1 else 0) m
  end.

(** The arguments at which the loop stops with an error: a keyword that is
    neither [dmax] nor [line], a keyword without its value, or [line] with
    a value that is neither [backtrack] nor [quadratic]. *)
Definition offending (args : list string) : Prop :=
  match args with
  | [] => False
  | key :: rest =>
      (key <> "dmax" /\ key <> "line")%string \/
      rest = [] \/
      (key = "line"%string /\
       exists v rest', rest = v :: rest' /\ v <> "backtrack"%string /\ v <> "quadratic"%string)
  end.

Section ModifyParams.

Context {D : Type} {SD : Scalar D} {P C S X : Type}.
Variable atof : string -> D.

Local Abbreviation state := (St D P C S X).

Lemma modify_params_from_settings (xs : list setting) (rest : list string) (s : state) :
  modify_params_from atof (settings_args xs ++ rest) s =
  modify_params_from atof rest
    (mkSt (foldl (apply_setting atof) (minimize s) xs) (lmp s) (trace s)).
Proof.
  revert s. induction xs as [|x xs IH]; intros s.
  - cbn. now destruct s.
  - unfold settings_args in *. cbn [map concat foldl]. rewrite <- app_assoc.
    destruct x as [v|[|]]; cbn [setting_args app modify_params_from String.eqb Ascii.eqb
                                 Bool.eqb apply_setting];
      rewrite bind_upd_min_eq, IH; reflexivity.
Qed.

(** Every argument list splits into the settings the loop accepts and the
    rest, which is empty or offending. *)
Lemma settings_prefix (args : list string) :
  exists xs rest, args = settings_args xs ++ rest /\ (rest = [] \/ offending rest).
Proof.
  remember (length args) as n eqn:Hn. revert args Hn.
  induction n as [n IH] using lt_wf_ind. intros args Hn.
  destruct args as [|key [|v rest]].
  - exists [], []. split; [reflexivity | now left].
  - exists [], [key]. split; [reflexivity|]. right. cbn. auto.
  - destruct (IH (length rest) ltac:(cbn in Hn; lia) rest eq_refl) as (xs & r & -> & Hr).
    destruct (String.eqb_spec key "dmax") as [->|Hd].
    { exists (Dmax v :: xs), r. split; [reflexivity | exact Hr]. }
    destruct (String.eqb_spec key "line") as [->|Hl].
    2:{ exists [], (key :: v :: settings_args xs ++ r). split; [reflexivity|].
        right. cbn. auto. }
    destruct (String.eqb_spec v "backtrack") as [->|Hb].
    { exists (Line false :: xs), r. split; [reflexivity | exact Hr]. }
    destruct (String.eqb_spec v "quadratic") as [->|Hq].
    { exists (Line true :: xs), r. split; [reflexivity | exact Hr]. }
    exists [], ("line"%string :: v :: settings_args xs ++ r). split; [reflexivity|].
    right. cbn. right. right. split; [reflexivity|]. eauto.
Qed.

Lemma modify_params_from_offending (rest : list string) (s : state) :
  offending rest -> modify_params_from atof rest s = Abort msg_min_modify s.
Proof.
  destruct rest as [|key rest]; [contradiction|]. cbn [offending modify_params_from].
  intros [[Hd Hl]|[->|(-> & v & rest' & -> & Hb & Hq)]].
  - apply String.eqb_neq in Hd, Hl. now rewrite Hd, Hl.
  - destruct (key =? "dmax")%string; [reflexivity|].
    destruct (key =? "line")%string; reflexivity.
  - cbn [String.eqb Ascii.eqb Bool.eqb]. apply String.eqb_neq in Hb, Hq.
    rewrite Hb, Hq. reflexivity.
Qed.

(** X4.  [modify_params] reads its arguments two by two: [dmax v] assigns
    [atof(v)] to [dmax], [line backtrack] and [line quadratic] assign 0 and
    1 to [linestyle], later settings overriding earlier ones.  It returns
    exactly when the arguments are a non-empty series of such settings.
    With no argument, or at the first argument that is not a keyword, lacks
    its value or is a [line] style other than the two, it stops with
    "Illegal min_modify command"; the settings spelled before that argument
    have been assigned by then.  It touches nothing else. *)
Theorem modify_params_applies_settings (args : list string) (s : state) :
  exists xs rest,
    args = settings_args xs ++ rest /\
    let s' := mkSt (foldl (apply_setting atof) (minimize s) xs) (lmp s) (trace s) in
    (xs <> [] /\ rest = [] /\ modify_params atof args s = Ok tt s') \/
    ((args = [] \/ offending rest) /\ modify_params atof args s = Abort msg_min_modify s').
Proof.
  destruct (settings_prefix args) as (xs & rest & -> & Hr). exists xs, rest.
  split; [reflexivity|]. cbv zeta. unfold modify_params.
  destruct (settings_args xs ++ rest) as [|a l] eqn:Eargs.
  - right. split; [now left|].
    destruct xs as [|[v|[|]] xs]; try discriminate. now destruct s.
  - replace (Z.of_nat (length (a :: l)) =? 0) with false
      by (symmetry; apply Z.eqb_neq; cbn [length]; lia).
    rewrite bind_ret_eq, <- Eargs, modify_params_from_settings.
    destruct Hr as [->|Hr].
    + left. split; [|split; reflexivity]. intros ->. discriminate.
    + right. split; [now right|]. now apply modify_params_from_offending.
Qed.

End ModifyParams.

(** [dmax 0.2 line quadratic] is accepted; [dmax 0.2 line cubic] assigns
    [dmax] and then fails. *)
Lemma modify_params_examples :
  (let atof := fun v : string => if String.eqb v "0.2" then b64_of_Z 2 else b64_of_Z 0 in
   (fun s => (dmax (minimize s), linestyle (minimize s))) <$>
     final (modify_params atof ["dmax"; "0.2"; "line"; "quadratic"]%string Example.stopped) =
     Some (b64_of_Z 2, 1) /\
   (fun r => (r.1, dmax (minimize r.2), linestyle (minimize r.2))) <$>
     aborted (modify_params atof ["dmax"; "0.2"; "line"; "cubic"]%string Example.stopped) =
     Some (msg_min_modify, b64_of_Z 2, 0)).
Proof. split; vm_compute; reflexivity. Qed.

(** ** The norms and forces that are not numbers *)

Section NormsOfNaN.

Context {P C S X : Type}.

(** A component that is [+0.0] or [-0.0]. *)
Definition is_zero (x : spec_float) : bool :=
  match x with
  | S754_zero _ => true
  | _ => false
  end.

(** A component that is not a number. *)
Definition is_nan (x : spec_float) : bool :=
  match x with
  | S754_nan => true
  | _ => false
  end.

Lemma max_abs_nan (acc : spec_float) : max_abs acc S754_nan = acc.
Proof. unfold max_abs, MAX. cbn. now rewrite SFltb_nan. Qed.

Lemma foldl_max_abs_filter (l : list spec_float) (acc : spec_float) :
  foldl max_abs acc l = foldl max_abs acc (List.filter (fun x => negb (is_nan x)) l).
Proof.
  revert acc. induction l as [|x l IH]; intros acc; [reflexivity|].
  cbn [foldl List.filter]. destruct x as [b|b| |b m e]; cbn [is_nan negb foldl]; try apply IH.
  rewrite max_abs_nan. apply IH.
Qed.

Lemma add_sq_nan_l (x : spec_float) : add_sq S754_nan x = S754_nan.
Proof. reflexivity. Qed.

Lemma add_sq_nan_r (acc : spec_float) : add_sq acc S754_nan = S754_nan.
Proof. unfold add_sq. cbn. now destruct acc. Qed.

Lemma foldl_add_sq_nan (l : list spec_float) : foldl add_sq S754_nan l = S754_nan.
Proof. induction l as [|x l IH]; [reflexivity|]. cbn [foldl]. now rewrite add_sq_nan_l. Qed.

Lemma foldl_add_sq_has_nan (l : list spec_float) (acc : spec_float) :
  S754_nan ∈ l -> foldl add_sq acc l = S754_nan.
Proof.
  revert acc. induction l as [|x l IH]; intros acc Hin; [inversion Hin|].
  cbn [foldl]. apply elem_of_cons in Hin as [<-|Hin]; [|now apply IH].
  rewrite add_sq_nan_r. apply foldl_add_sq_nan.
Qed.

Lemma d_add_nan_l (x : spec_float) : d_add S754_nan x = S754_nan.
Proof. reflexivity. Qed.

Lemma d_add_nan_r (x : spec_float) : d_add x S754_nan = S754_nan.
Proof. cbn. now destruct x. Qed.

Lemma foldl_d_add_nan (l : list spec_float) : foldl d_add S754_nan l = S754_nan.
Proof. induction l as [|x l IH]; [reflexivity|]. cbn [foldl]. now rewrite d_add_nan_l. Qed.

Lemma mpi_sum_has_nan (xs : list spec_float) :
  S754_nan ∈ xs -> mpi_reduce d_add xs = S754_nan.
Proof.
  destruct xs as [|x xs]; [intros H; inversion H|]. cbn [mpi_reduce].
  intros Hin. apply elem_of_cons in Hin as [<-|Hin]; [apply foldl_d_add_nan|].
  revert x. induction xs as [|y ys IH]; intros x; [inversion Hin|].
  cbn [foldl]. apply elem_of_cons in Hin as [<-|Hin]; [|now apply IH].
  rewrite d_add_nan_r. apply foldl_d_add_nan.
Qed.

(** X5.  In double precision, when a force component of some process of
    the run is NaN, [fnorm_sqr] is NaN on every process; and it is NaN on a
    process whose force on a global extra degree of freedom is NaN.  So it
    is for the value of the run and for what a call of [fnorm_sqr] gets on
    a process whose communicator is that of the run. *)
Theorem fnorm_sqr_propagates_nan (ranks : list (Rank spec_float P C S X)) :
  exists vs,
    cluster_fnorm_sqr ranks = Some vs /\
    Forall2 (fun r v =>
               S754_nan ∈ cluster_components ranks ++ global_components r.1 ->
               v = S754_nan)
            ranks vs /\
    (S754_nan ∈ cluster_components ranks -> vs = map (fun _ => S754_nan) ranks) /\
    (forall i r,
        ranks !! i = Some r ->
        S754_nan ∈ cluster_components ranks ++ global_components r.1 ->
        fnorm_sqr r.1 (in_run fnorm_sqr_par ranks i r.2) = S754_nan).
Proof.
  eexists. split; [apply cluster_fnorm_sqr_fold|].
  assert (G : S754_nan ∈ cluster_components ranks ->
              mpi_reduce d_add
                (map (fun q => foldl add_sq d_zero (local_components q)) ranks) = S754_nan).
  { intros Hin. apply mpi_sum_has_nan.
    unfold cluster_components in Hin. apply elem_of_concat in Hin as (l & Hl & Hq).
    apply elem_of_map in Hq as (q & -> & Hq). apply elem_of_map. exists q.
    split; [|exact Hq]. symmetry. now apply foldl_add_sq_has_nan. }
  assert (V : forall r : Rank spec_float P C S X,
             S754_nan ∈ cluster_components ranks ++ global_components r.1 ->
             foldl add_sq
                   (mpi_reduce d_add
                      (map (fun q => foldl add_sq d_zero (local_components q)) ranks))
                   (global_components r.1) = S754_nan).
  { intros r Hin. apply elem_of_app in Hin as [Hin|Hin].
    - rewrite G by trivial. apply foldl_add_sq_nan.
    - now apply foldl_add_sq_has_nan. }
  split; [|split].
  - apply Forall2_map_self. intros r _. apply V.
  - intros Hin. apply map_ext. intros r. rewrite G by trivial. apply foldl_add_sq_nan.
  - intros i r Hi Hin. rewrite fnorm_sqr_in_run by trivial. now apply V.
Qed.

(** X6.  In double precision [fnorm_inf] is never NaN and never negative:
    NaN components are skipped by the comparison, so that the result on a
    process is the maximum norm of the components that are numbers.  It is
    [+0.0] exactly when every component is a zero or a NaN.  The value [v]
    of a process in the run is also what a call of [fnorm_inf] gets on that
    process when its communicator is that of the run. *)
Theorem fnorm_inf_ignores_nan (ranks : list (Rank spec_float P C S X)) :
  exists vs,
    cluster_fnorm_inf ranks = Some vs /\
    Forall2 (fun r v =>
               magnitude v = true /\
               v = foldl max_abs d_zero
                         (List.filter (fun x => negb (is_nan x))
                                      (cluster_components ranks ++ global_components r.1)) /\
               (v = S754_zero false <->
                forall x, x ∈ cluster_components ranks ++ global_components r.1 ->
                          is_zero x || is_nan x = true))
            ranks vs /\
    (forall i r,
        ranks !! i = Some r ->
        vs !! i = Some (fnorm_inf r.1 (in_run fnorm_inf_par ranks i r.2))).
Proof.
  eexists. split; [apply cluster_fnorm_inf_max|]. split.
  - apply Forall2_map_self. intros r _.
    set (l := cluster_components ranks ++ global_components r.1).
    destruct (foldl_is_max_abs l) as (Hm & Hc & Hu).
    split; [exact Hm|]. split; [apply foldl_max_abs_filter|]. split.
    + intros Hz x Hx. specialize (Hu x Hx). cbn [d_zero binary64] in Hz. rewrite Hz in Hu.
      destruct x as [b|b| |b m e]; try reflexivity; destruct b; discriminate.
    + intros Hall. destruct Hc as [Hz|(y & Hy & Hr)]; [exact Hz|].
      cbn [d_zero binary64] in *. rewrite Hr in *. specialize (Hall y Hy).
      destruct y as [b|b| |b m e]; try discriminate; reflexivity.
  - intros i r Hi. rewrite fnorm_inf_in_run, norm_inf_value by trivial.
    clear -Hi. revert i Hi. generalize (cluster_components ranks). intros cc.
    induction ranks as [|q qs IH]; intros [|i] Hi; try discriminate.
    + injection Hi as ->. reflexivity.
    + cbn [map]. cbn. now apply IH.
Qed.

End NormsOfNaN.

(** ** Programs run in segments *)

(** The calls of the reneighbouring phase, up to the build of the lists. *)
Definition rebuild_call (c : Call) : bool :=
  match c with
  | TimerStamp _ | ModifyMinPreExchange | DomainX2lamda _ | DomainPbc | DomainResetBox
  | CommSetup | NeighborSetupBins | CommExchange | AtomSort | CommBorders
  | DomainLamda2x _ => true
  | _ => false
  end.

(** The calls of the evaluation of energy and forces. *)
Definition evaluation_call (c : Call) : bool :=
  match c with
  | TimerStamp _ | ComputeMatchstep _ _ _ _ | ModifyMinPreForce _ | ModifySetupPreForce _
  | PairCompute _ _ | BondCompute _ _ | AngleCompute _ _ | DihedralCompute _ _
  | ImproperCompute _ _ | KspaceSetup | KspaceCompute _ _ | CommReverseComm
  | PairMinXfGet _ | ModifyMinPostForce _ | ModifySetup _ | ComputeScalar _
  | ModifyMinEnergy => true
  | _ => false
  end.

(** A call that is handed the flags of the evaluation is handed [ef] and
    [vf]. *)
Definition carries (ef vf : Z) (c : Call) : bool :=
  match c with
  | PairCompute e v | BondCompute e v | AngleCompute e v | DihedralCompute e v
  | ImproperCompute e v | KspaceCompute e v => (e =? ef) && (v =? vf)
  | ModifyMinPreForce v | ModifySetupPreForce v | ModifyMinPostForce v | ModifySetup v =>
      v =? vf
  | _ => true
  end.

(** The flags of the evaluation as [ev_set] leaves them in [Min]. *)
Definition flags {D P S : Type} (m : Min D P S) : Z * Z := (eflag m, vflag m).

Section Segments.

Context {D : Type} {SD : Scalar D} {P C S X : Type}.
Variable h : Hooks D P C S X.

Local Abbreviation state := (St D P C S X).
Local Abbreviation action := (M D P C S X).

Lemma bind_assoc_eq {A B E : Type} (m : action A) (f : A -> action B) (k : B -> action E)
      (s : state) :
  ((m ≫= f) ≫= k) s = (m ≫= (fun a => f a ≫= k)) s.
Proof. unfold mbind, M_bind. now destruct (m s). Qed.

Lemma bind_when_upd_min_eq {B : Type} (b : bool) (g : Min D P S -> Min D P S)
      (k : unit -> action B) (s : state) :
  (when b (upd_min g) ≫= k) s =
  k tt (mkSt (if b then g (minimize s) else minimize s) (lmp s) (trace s)).
Proof. destruct b; [reflexivity|]. unfold when, mbind, M_bind, mret, M_ret. now destruct s. Qed.

Section AnyFrame.

Context {T : Type} (p : Call -> bool) (pi : Min D P S -> T).

Local Abbreviation within := (frame (D:=D) (P:=P) (C:=C) (S:=S) (X:=X) p pi (fun _ => tt)).

Lemma within_call_matchstep (l : evlist) (c : nat) (t : Z) :
  (forall l c t r, p (ComputeMatchstep l c t r) = true) ->
  runs within (call_matchstep h l c t).
Proof.
  intros Hp s. unfold call_matchstep.
  destruct (Modify.compute (modify (lmp s)) !! c) as [cv|].
  - destruct (matchstep h t cv) as [r cv']. eexists r, _. split; [reflexivity|].
    split; simpl; [|split; reflexivity]. exists [ComputeMatchstep l c t r].
    split; [reflexivity|]. cbn. now rewrite Hp.
  - exists 0, s. split; [reflexivity|]. apply frame_preorder.
Qed.

Lemma within_scan (l : evlist) (cs : list nat) (t flag : Z) :
  (forall l c t r, p (ComputeMatchstep l c t r) = true) ->
  runs within (scan h l cs t flag).
Proof.
  intros Hp. revert flag. induction cs as [|c cs IH]; intros flag; simpl.
  - runs_step.
  - runs_step; [now apply within_call_matchstep | apply IH].
Qed.

Lemma within_ev_set (t : Z) :
  (forall l c t r, p (ComputeMatchstep l c t r) = true) ->
  (forall v m, pi (set_eflag v m) = pi m) -> (forall v m, pi (set_vflag v m) = pi m) ->
  runs within (ev_set h t).
Proof.
  intros Hp He Hv. unfold ev_set.
  repeat first [ apply within_scan; assumption | runs_step ].
Qed.

Lemma within_force_clear : runs within force_clear.
Proof. unfold force_clear. runs_auto. Qed.

Lemma within_harvest_extra_atom :
  (forall k, p (PairMinXfGet k) = true) -> runs within (harvest_extra_atom h).
Proof. intros Hp. unfold harvest_extra_atom. runs_auto. Qed.

Lemma within_potential_energy :
  (forall i, p (ComputeScalar i) = true) -> p ModifyMinEnergy = true ->
  (forall v m, pi (set_fextra v m) = pi m) ->
  runs within (potential_energy h).
Proof. intros Hc He Hf. unfold potential_energy. runs_auto. Qed.

End AnyFrame.

End Segments.

(** Runs the first statement of a program within the frame at hand; the
    tactic [solver] shows that the statement stays within it. *)
Ltac seg_step solver :=
  cbv zeta; rewrite ?bind_assoc_eq;
  lazymatch goal with
  | |- ?Q ((get_st ≫= ?k) ?s) => rewrite bind_get_st_eq; cbv beta
  | |- ?Q ((?m ≫= ?k) ?s) =>
      eapply (runs_then _ (HR:=frame_preorder _ _ _) m k Q);
      [ eassumption | solve [ solver ] | intros ? ? ? ]
  end.

Ltac carried := cbn; rewrite ?Z.eqb_refl; reflexivity.

Ltac within_step :=
  lazymatch goal with
  | |- runs _ (ev_set _ _) => apply within_ev_set; intros; reflexivity
  | |- runs _ force_clear => apply within_force_clear
  | |- runs _ (harvest_extra_atom _) => apply within_harvest_extra_atom; intros; reflexivity
  | |- runs _ (potential_energy _) => apply within_potential_energy; intros; reflexivity
  | |- runs _ (call _ _) => apply runs_call; [carried | intros; reflexivity]
  | |- _ => runs_step
  end.

(** The LAMMPS instance a step has produced, when only the trace matters. *)
Ltac forget_lmp :=
  lazymatch goal with
  | |- ?Q (_ (mkSt _ ?w _)) =>
      tryif is_var w then idtac else (let w' := fresh "w" in set (w' := w); clearbody w')
  | |- _ => idtac
  end.

(** The calls before the exchange of atoms. *)
Definition prepares_exchange (c : Call) : bool :=
  match c with
  | TimerStamp _ | ModifyMinPreExchange | DomainX2lamda _ | DomainPbc | DomainResetBox
  | CommSetup | NeighborSetupBins => true
  | _ => false
  end.

Definition is_matchstep (c : Call) : bool :=
  match c with
  | ComputeMatchstep _ _ _ _ => true
  | _ => false
  end.

Section Anatomy.

Context {D : Type} {SD : Scalar D} {P C S X : Type}.
Variable h : Hooks D P C S X.

Local Abbreviation state := (St D P C S X).
Local Abbreviation action := (M D P C S X).

Lemma bind_when_call_eq {B : Type} (b : bool) (c : Call) (g : LAMMPS D C X -> LAMMPS D C X)
      (k : unit -> action B) (s : state) :
  (when b (call c g) ≫= k) s =
  k tt (mkSt (minimize s) (if b then g (lmp s) else lmp s)
             (trace s ++ if b then [c] else [])).
Proof.
  destruct b; [reflexivity|]. unfold when, mbind, M_bind, mret, M_ret.
  rewrite app_nil_r. now destruct s.
Qed.

Lemma asks_is_matchstep (l : evlist) (cs : list nat) (t : Z) (evs : list Call) :
  Forall (asks l cs t) evs -> forallb is_matchstep evs = true.
Proof.
  induction 1 as [|c evs (k & r & -> & _) _ IH]; [reflexivity|]. cbn. exact IH.
Qed.

(** [ev_set] as a whole. *)
Lemma ev_set_outcome (t : Z) (s : state) :
  exists s' evs (a b c : bool),
    ev_set h t s = Ok tt s' /\
    trace s' = trace s ++ evs /\
    forallb is_matchstep evs = true /\
    minimize s' =
      set_vflag ((if b then virial_style (minimize s) else 0) + (if c then 4 else 0))
                (set_eflag (1 + (if a then 2 else 0)) (minimize s)).
Proof.
  unfold ev_set. cbv zeta. rewrite bind_get_st_eq. cbv beta.
  destruct (scan_spec h EGlobal (ev_list EGlobal (minimize s)) t 0 s)
    as (s1 & e1 & E1 & T1 & M1 & U1 & F1).
  rewrite (bind_of_ok _ _ _ _ _ E1). cbv beta.
  destruct (scan_spec h EAtom (ev_list EAtom (minimize s)) t 0 s1)
    as (s2 & e2 & E2 & T2 & M2 & U2 & F2).
  rewrite (bind_of_ok _ _ _ _ _ E2). cbv beta.
  rewrite !bind_when_upd_lmp_eq, bind_upd_min_eq. cbn [minimize lmp trace].
  set (s3 := mkSt _ _ (trace s2)).
  destruct (scan_spec h VGlobal (ev_list VGlobal (minimize s)) t 0 s3)
    as (s4 & e4 & E4 & T4 & M4 & U4 & F4).
  rewrite (bind_of_ok _ _ _ _ _ E4). cbv beta.
  destruct (scan_spec h VAtom (ev_list VAtom (minimize s)) t 0 s4)
    as (s5 & e5 & E5 & T5 & M5 & U5 & F5).
  rewrite (bind_of_ok _ _ _ _ _ E5). cbv beta.
  rewrite !bind_when_upd_lmp_eq. cbn [minimize lmp trace].
  eexists _, (e1 ++ e2 ++ e4 ++ e5), (demand EAtom e2), (demand VGlobal e4), (demand VAtom e5).
  split; [reflexivity|]. cbn [trace minimize]. split; [|split].
  - rewrite T5, T4. unfold s3. cbn [trace]. rewrite T2, T1. now rewrite <- !app_assoc.
  - rewrite !forallb_app.
    rewrite (asks_is_matchstep _ _ _ _ F1), (asks_is_matchstep _ _ _ _ F2),
      (asks_is_matchstep _ _ _ _ F4), (asks_is_matchstep _ _ _ _ F5). reflexivity.
  - rewrite M5, M4. unfold s3. cbn [minimize]. rewrite M2, M1.
    unfold truthy.
    destruct (demand EAtom e2), (demand VGlobal e4), (demand VAtom e5); reflexivity.
Qed.

(** The evaluation frame: calls of the evaluation that carry [ef], [vf]. *)
Definition evaluates (ef vf : Z) (c : Call) : bool := evaluation_call c && carries ef vf c.

(** [energy_force] from beginning to end. *)
Lemma energy_force_anatomy (resetflag : Z) (s : state) :
  exists e s' head tail ef vf,
    energy_force h resetflag s = Ok e s' /\
    trace s' = trace s ++ [MinEnergyForce resetflag;
                           NeighborDecide (neighbor_decide h (lmp s)).1]
                       ++ head ++ tail ++ reset_tail (neighbor_decide h (lmp s)).1 resetflag /\
    ((neighbor_decide h (lmp s)).1 = 0 ->
     head = [TimerStamp None; CommForwardComm; TimerStamp (Some T_COMM)]) /\
    ((neighbor_decide h (lmp s)).1 <> 0 ->
     exists a b c,
       head = a ++ [TimerStamp None; CommExchange] ++ b ++ [CommBorders] ++ c
                ++ [TimerStamp (Some T_COMM); NeighborBuild; TimerStamp (Some T_NEIGHBOR)] /\
       forallb prepares_exchange a = true /\
       (b = [] \/ b = [AtomSort]) /\ (c = [] \/ exists n, c = [DomainLamda2x n])) /\
    forallb (evaluates ef vf) tail = true /\
    (ef = 1 \/ ef = 3).
Proof.
  unfold energy_force. rewrite bind_log_eq, bind_callv_eq.
  cbn [lmp minimize trace].
  destruct (neighbor_decide h (lmp s)) as [nflag w1]. cbn [fst snd].
  set (s2 := mkSt _ _ (_ ++ [NeighborDecide _])).
  assert (T2 : trace s2 = trace s ++ [MinEnergyForce resetflag; NeighborDecide nflag]).
  { unfold s2; simpl. now rewrite <- app_assoc. }
  clearbody s2.
  set (Q := fun r : Res D P C S X D =>
              exists e s' head tail ef vf, r = Ok e s' /\
                trace s' = trace s ++ [MinEnergyForce resetflag; NeighborDecide nflag]
                                   ++ head ++ tail ++ reset_tail nflag resetflag /\
                (nflag = 0 ->
                 head = [TimerStamp None; CommForwardComm; TimerStamp (Some T_COMM)]) /\
                (nflag <> 0 ->
                 exists a b c,
                   head = a ++ [TimerStamp None; CommExchange] ++ b ++ [CommBorders] ++ c
                            ++ [TimerStamp (Some T_COMM); NeighborBuild;
                                TimerStamp (Some T_NEIGHBOR)] /\
                   forallb prepares_exchange a = true /\
                   (b = [] \/ b = [AtomSort]) /\ (c = [] \/ exists n, c = [DomainLamda2x n])) /\
                forallb (evaluates ef vf) tail = true /\
                (ef = 1 \/ ef = 3)).
  lazymatch goal with |- exists e s' head tail ef vf, ?prog = _ /\ _ => change (Q prog) end.
  lazymatch goal with |- Q ((_ ≫= ?k) s2) => set (rest := k) end.
  (* the evaluation, after any head *)
  assert (Tail : forall (s3 : state) (head : list Call),
             trace s3 = trace s2 ++ head ->
             (nflag = 0 ->
              head = [TimerStamp None; CommForwardComm; TimerStamp (Some T_COMM)]) ->
             (nflag <> 0 ->
              exists a b c,
                head = a ++ [TimerStamp None; CommExchange] ++ b ++ [CommBorders] ++ c
                         ++ [TimerStamp (Some T_COMM); NeighborBuild;
                             TimerStamp (Some T_NEIGHBOR)] /\
                forallb prepares_exchange a = true /\
                (b = [] \/ b = [AtomSort]) /\ (c = [] \/ exists n, c = [DomainLamda2x n])) ->
             Q (rest tt s3)).
  { intros s3 head T3 Hz Hnz. subst rest. cbv beta.
    rewrite bind_get_st_eq. cbv beta.
    destruct (ev_set_outcome (Update.ntimestep (update (lmp s3))) s3)
      as (s4 & e4 & fa & fb & fc & E4 & T4 & F4 & M4).
    rewrite (bind_of_ok _ _ _ _ _ E4). cbv beta.
    set (ef := 1 + (if fa then 2 else 0)) in M4.
    set (vf := (if fb then virial_style (minimize s3) else 0) + (if fc then 4 else 0)) in M4.
    assert (H4 : frame (evaluates ef vf) flags (fun _ : LAMMPS D C X => tt) s4 s4) by reflexivity.
    assert (V4 : flags (minimize s4) = (ef, vf)) by (rewrite M4; reflexivity).
    assert (Hef : ef = 1 \/ ef = 3) by (unfold ef; destruct fa; auto).
    clearbody ef vf.
    seg_step ltac:(repeat within_step).
    seg_step ltac:(repeat within_step).
    seg_step ltac:(repeat within_step).
    lazymatch goal with
    | Hf : frame _ flags _ s4 ?sx |- Q (_ ?sx) =>
        let Hp := fresh "Hp" in
        pose proof (proj1 (proj2 Hf)) as Hp; rewrite V4 in Hp; unfold flags in Hp;
        injection Hp as He Hv; rewrite ?He, ?Hv; clear He Hv
    end.
    seg_step ltac:(repeat within_step).
    seg_step ltac:(repeat within_step).
    lazymatch goal with
    | Hf : frame _ flags _ s4 ?sx |- Q (_ ?sx) =>
        let Hp := fresh "Hp" in
        pose proof (proj1 (proj2 Hf)) as Hp; rewrite V4 in Hp; unfold flags in Hp;
        injection Hp as He Hv; rewrite ?He, ?Hv; clear He Hv
    end.
    do 11 (seg_step ltac:(repeat within_step)).
    lazymatch goal with
    | Hf : frame _ flags _ s4 ?sx |- Q (_ ?sx) => destruct Hf as [(tail & Ht & Ft) _]
    end.
    assert (F4' : forallb (evaluates ef vf) (e4 ++ tail) = true).
    { rewrite forallb_app, Ft, andb_true_r. clear -F4.
      induction e4 as [|c e4 IH]; [reflexivity|]. cbn [forallb] in *.
      apply andb_true_iff in F4 as [Hc F4]. rewrite (IH F4), andb_true_r.
      destruct c; try discriminate. reflexivity. }
    unfold Q, reset_tail. destruct (truthy nflag) eqn:En.
    - destruct (truthy resetflag);
        unfold when, call, call_virtual, upd_lmp, log, get_st, mbind, M_bind, mret, M_ret;
        simpl; destruct (reset_vectors h _ _) as [m w]; eexists _, _, head, (e4 ++ tail), ef, vf;
        (split; [reflexivity|]); simpl; rewrite Ht, T4, T3, T2, <- !app_assoc; simpl;
        (split; [reflexivity|]); auto.
    - unfold when, mbind, M_bind, mret, M_ret. eexists _, _, head, (e4 ++ tail), ef, vf.
      split; [reflexivity|]. rewrite Ht, T4, T3, T2, <- !app_assoc, app_nil_r. simpl.
      split; [reflexivity|]. auto. }
  destruct (Z.eqb_spec nflag 0) as [Hn|Hn].
  - rewrite !bind_assoc_eq. unfold stamp. rewrite !bind_call_eq. cbn [minimize lmp trace].
    apply (Tail _ [TimerStamp None; CommForwardComm; TimerStamp (Some T_COMM)]).
    + cbn [trace]. now rewrite <- !app_assoc.
    + reflexivity.
    + intros Hne. contradiction.
  - assert (H0 : frame prepares_exchange (fun _ : Min D P S => tt)
                       (fun _ : LAMMPS D C X => tt) s2 s2) by reflexivity.
    do 7 (seg_step ltac:(repeat runs_step)).
    lazymatch goal with
    | Hf : frame _ _ _ s2 ?sx |- Q (_ ?sx) => destruct Hf as [(pre & Ha & Fa) _]
    end.
    unfold stamp.
    do 10 (rewrite ?bind_assoc_eq;
           first [ rewrite bind_get_st_eq | rewrite bind_call_eq | rewrite bind_when_call_eq ];
           cbv beta; cbn [minimize lmp trace]; forget_lmp).
    lazymatch goal with
    | |- Q (rest tt (mkSt _ _ (app (app (app (app (app (app _ ?b) _) ?c) _) _) _))) =>
        apply (Tail _ (pre ++ [TimerStamp None; CommExchange] ++ b ++ [CommBorders] ++ c
                           ++ [TimerStamp (Some T_COMM); NeighborBuild;
                               TimerStamp (Some T_NEIGHBOR)]));
        [ cbn [trace]; rewrite Ha, <- !app_assoc; reflexivity
        | intros Hz; contradiction
        | intros _; exists pre, b, c; split; [reflexivity|]; split; [exact Fa|] ]
    end.
    split.
    + destruct (_ && _); [right | left]; reflexivity.
    + destruct (truthy (triclinic _)); [right; eexists | left]; reflexivity.
Qed.

End Anatomy.

(** ** [energy_force]: resets after a rebuild *)

(** The pointers of [Min] into the atom arrays, and the fix that holds the
    reference coordinates. *)
Definition anchors {D P S : Type} (m : Min D P S) :
  (Z * dptr * list (cell dptr) * list (cell dptr)) * Z :=
  (aliases m, fix_minimize m).

Section EnergyForceResets.

Context {D : Type} {SD : Scalar D} {P C S X : Type}.
Variable h : Hooks D P C S X.

Local Abbreviation state := (St D P C S X).

(** C10.  [energy_force] never aborts.  It first reaches a state [s_e]
    through its entry, the answer [nflag] of [neighbor->decide()] and the
    calls of the pipeline, none of which is a reset; up to there the
    pointers of [Min] into the atom arrays and the index of the fix
    MINIMIZE are the ones it had on entry.  After a rebuild ([nflag]
    non-zero) it then leaves the [Min] object and the LAMMPS instance that
    the virtual [reset_vectors()] returns, called on [s_e] after
    [fix_minimize->reset_coords()] if [resetflag] is set, and on [s_e] as
    it is if not.  Without a rebuild it ends in [s_e]: neither method is
    called. *)
Theorem energy_force_resets_after_rebuild (resetflag : Z) (s : state) :
  exists e s_e body,
    trace s_e = trace s ++ [MinEnergyForce resetflag;
                            NeighborDecide (neighbor_decide h (lmp s)).1] ++ body /\
    forallb pipeline_call body = true /\
    pipeline_call FixMinimizeResetCoords = false /\
    pipeline_call MinResetVectors = false /\
    aliases (minimize s_e) = aliases (minimize s) /\
    fix_minimize (minimize s_e) = fix_minimize (minimize s) /\
    ((neighbor_decide h (lmp s)).1 <> 0 -> resetflag <> 0 ->
     let w := fix_minimize_reset_coords h (fix_minimize (minimize s)) (lmp s_e) in
     energy_force h resetflag s =
     Ok e (mkSt (reset_vectors h (minimize s_e) w).1 (reset_vectors h (minimize s_e) w).2
                (trace s_e ++ [FixMinimizeResetCoords; MinResetVectors]))) /\
    ((neighbor_decide h (lmp s)).1 <> 0 -> resetflag = 0 ->
     energy_force h resetflag s =
     Ok e (mkSt (reset_vectors h (minimize s_e) (lmp s_e)).1
                (reset_vectors h (minimize s_e) (lmp s_e)).2
                (trace s_e ++ [MinResetVectors]))) /\
    ((neighbor_decide h (lmp s)).1 = 0 -> energy_force h resetflag s = Ok e s_e).
Proof.
  unfold energy_force. rewrite bind_log_eq, bind_callv_eq.
  cbn [lmp minimize trace].
  destruct (neighbor_decide h (lmp s)) as [nflag w1]. cbn [fst snd].
  set (s2 := mkSt _ _ (_ ++ [NeighborDecide _])).
  assert (H0 : frame pipeline_call anchors (fun _ : LAMMPS D C X => tt) s2 s2) by reflexivity.
  assert (T2 : trace s2 = trace s ++ [MinEnergyForce resetflag; NeighborDecide nflag]).
  { unfold s2; simpl. now rewrite <- app_assoc. }
  assert (A2 : anchors (minimize s2) = anchors (minimize s)) by reflexivity.
  clearbody s2.
  set (Q := fun r : Res D P C S X D =>
              exists e s_e body,
                trace s_e = trace s ++ [MinEnergyForce resetflag; NeighborDecide nflag]
                                    ++ body /\
                forallb pipeline_call body = true /\
                pipeline_call FixMinimizeResetCoords = false /\
                pipeline_call MinResetVectors = false /\
                aliases (minimize s_e) = aliases (minimize s) /\
                fix_minimize (minimize s_e) = fix_minimize (minimize s) /\
                (nflag <> 0 -> resetflag <> 0 ->
                 let w := fix_minimize_reset_coords h (fix_minimize (minimize s)) (lmp s_e) in
                 r = Ok e (mkSt (reset_vectors h (minimize s_e) w).1
                                (reset_vectors h (minimize s_e) w).2
                                (trace s_e ++ [FixMinimizeResetCoords; MinResetVectors]))) /\
                (nflag <> 0 -> resetflag = 0 ->
                 r = Ok e (mkSt (reset_vectors h (minimize s_e) (lmp s_e)).1
                                (reset_vectors h (minimize s_e) (lmp s_e)).2
                                (trace s_e ++ [MinResetVectors]))) /\
                (nflag = 0 -> r = Ok e s_e)).
  lazymatch goal with |- exists e s_e body, _ /\ _ => idtac end.
  lazymatch goal with
  | |- context [?prog s2] =>
      lazymatch type of prog with
      | M _ _ _ _ _ _ => change (Q (prog s2))
      end
  end.
  do 19 (seg_step ltac:(repeat within_step)).
  lazymatch goal with
  | Hf : frame _ anchors _ s2 ?sx |- Q ((_ ≫= fun _ => mret ?e) ?sx) =>
      destruct Hf as [(body & Hb & Fb) [Ha _]]; rewrite A2 in Ha; unfold anchors in Ha;
      pose proof (f_equal fst Ha) as Hal; pose proof (f_equal snd Ha) as Hfx;
      cbn [fst snd] in Hal, Hfx; exists e, sx, body
  end.
  split; [rewrite Hb, T2, <- app_assoc; reflexivity|]. split; [exact Fb|].
  split; [reflexivity|]. split; [reflexivity|]. split; [exact Hal|]. split; [exact Hfx|].
  unfold truthy. split; [|split].
  - intros Hn Hr. cbv zeta.
    destruct (Z.eqb_spec nflag 0); [contradiction|].
    destruct (Z.eqb_spec resetflag 0); [contradiction|].
    unfold when, call, call_virtual, upd_lmp, log, get_st, mbind, M_bind, mret, M_ret.
    simpl. rewrite Hfx. destruct (reset_vectors h _ _) as [m w]. simpl.
    now rewrite <- app_assoc.
  - intros Hn Hr. subst resetflag.
    destruct (Z.eqb_spec nflag 0); [contradiction|].
    unfold when, call, call_virtual, upd_lmp, log, get_st, mbind, M_bind, mret, M_ret.
    simpl. destruct (reset_vectors h _ _) as [m w]. reflexivity.
  - intros Hn. subst nflag.
    unfold when, mbind, M_bind, mret, M_ret. simpl. reflexivity.
Qed.

End EnergyForceResets.


(** ** [energy_force]: reneighbouring first, one pair of flags *)

Section EnergyForceOrder.

Context {D : Type} {SD : Scalar D} {P C S X : Type}.
Variable h : Hooks D P C S X.

Local Abbreviation state := (St D P C S X).

Lemma forallb_weaken (p q : Call -> bool) (l : list Call) :
  (forall c, p c = true -> q c = true) -> forallb p l = true -> forallb q l = true.
Proof.
  intros Hpq. induction l as [|c l IH]; [reflexivity|]. cbn [forallb].
  intros H. apply andb_true_iff in H as [Hc Hl]. now rewrite (Hpq c Hc), IH.
Qed.

Lemma outside_class (p : Call -> bool) (l : list Call) (c : Call) :
  forallb p l = true -> p c = false -> ~ In c l.
Proof.
  intros Hl Hc Hin. rewrite forallb_forall in Hl. specialize (Hl c Hin). congruence.
Qed.

(** X7.  [energy_force] never aborts, and it settles the neighbour lists
    before it evaluates anything.  When [neighbor->decide()] answers 0 it
    only calls [comm->forward_comm()] between two timer stamps.  Otherwise
    it exchanges the atoms, then acquires the ghosts with
    [comm->borders()], then builds the lists, each once and in this order,
    with [atom->sort()] only between the first two and [domain->lamda2x]
    only between the last two.  What follows, up to the resets, are calls of
    the evaluation only: no communication other than [reverse_comm], no
    further exchange, borders or build. *)
Theorem energy_force_reneighbors_before_evaluating (resetflag : Z) (s : state) :
  exists e s' head tail,
    energy_force h resetflag s = Ok e s' /\
    trace s' = trace s ++ [MinEnergyForce resetflag;
                           NeighborDecide (neighbor_decide h (lmp s)).1]
                       ++ head ++ tail ++ reset_tail (neighbor_decide h (lmp s)).1 resetflag /\
    forallb evaluation_call tail = true /\
    ((neighbor_decide h (lmp s)).1 = 0 ->
     head = [TimerStamp None; CommForwardComm; TimerStamp (Some T_COMM)]) /\
    ((neighbor_decide h (lmp s)).1 <> 0 ->
     exists a b c,
       head = a ++ [TimerStamp None; CommExchange] ++ b ++ [CommBorders] ++ c
                ++ [TimerStamp (Some T_COMM); NeighborBuild; TimerStamp (Some T_NEIGHBOR)] /\
       forallb prepares_exchange a = true /\
       (b = [] \/ b = [AtomSort]) /\ (c = [] \/ exists n, c = [DomainLamda2x n])) /\
    ~ In CommForwardComm tail /\ ~ In CommExchange tail /\ ~ In CommBorders tail /\
    ~ In NeighborBuild tail.
Proof.
  destruct (energy_force_anatomy h resetflag s)
    as (e & s' & head & tail & ef & vf & E & T & Hz & Hnz & Ft & _).
  exists e, s', head, tail. split; [exact E|]. split; [exact T|].
  assert (Fe : forallb evaluation_call tail = true).
  { revert Ft. apply forallb_weaken. intros c Hc. unfold evaluates in Hc.
    now apply andb_true_iff in Hc as [Hc _]. }
  split; [exact Fe|]. split; [exact Hz|]. split; [exact Hnz|].
  repeat split; apply (outside_class evaluation_call); trivial.
Qed.

Lemma prepares_carries (ef vf : Z) (c : Call) :
  prepares_exchange c = true -> carries ef vf c = true.
Proof. destruct c; try discriminate; reflexivity. Qed.

(** X8.  Within one call of [energy_force] all who are handed the flags
    (the pair, bond, angle, dihedral, improper and kspace computations, and
    [min_pre_force], [min_post_force]) are handed the same [eflag] and
    [vflag]; [eflag] is 1 or 3, so that the global energy is always asked
    for. *)
Theorem energy_force_hands_out_one_pair_of_flags (resetflag : Z) (s : state) :
  exists e s' evs ef vf,
    energy_force h resetflag s = Ok e s' /\
    trace s' = trace s ++ evs /\
    forallb (carries ef vf) evs = true /\
    Z.land ef 1 = 1 /\ (ef = 1 \/ ef = 3).
Proof.
  destruct (energy_force_anatomy h resetflag s)
    as (e & s' & head & tail & ef & vf & E & T & Hz & Hnz & Ft & Hef).
  eexists e, s', _, ef, vf. split; [exact E|]. split; [exact T|].
  split; [|split; [destruct Hef as [-> | ->]; reflexivity | exact Hef]].
  assert (Fc : forallb (carries ef vf) tail = true).
  { revert Ft. apply forallb_weaken. intros c Hc. unfold evaluates in Hc.
    now apply andb_true_iff in Hc as [_ Hc]. }
  assert (Fh : forallb (carries ef vf) head = true).
  { destruct (Z.eq_dec (neighbor_decide h (lmp s)).1 0) as [Hn|Hn].
    - now rewrite (Hz Hn).
    - destruct (Hnz Hn) as (a & b & c & -> & Fa & Hb & Hc).
      rewrite !forallb_app, (forallb_weaken _ _ _ (prepares_carries ef vf) Fa).
      destruct Hb as [-> | ->], Hc as [-> | (n & ->)]; reflexivity. }
  cbn [app forallb carries]. rewrite !forallb_app, Fh, Fc. cbn [andb].
  unfold reset_tail. destruct (truthy _); [|reflexivity].
  destruct (truthy resetflag); reflexivity.
Qed.

End EnergyForceOrder.

(** ** [setup_minimal] and [setup] *)

(** The calls that tally the energy. *)
Definition tallies (c : Call) : bool :=
  match c with
  | ComputeScalar _ | ModifyMinEnergy => true
  | _ => false
  end.

(** The stepping tactic of the evaluation, once the flags are [ef], [vf]
    in the state [s0] the frame starts from. *)
Ltac know_flags s0 V :=
  lazymatch goal with
  | Hf : frame _ flags _ s0 ?sx |- _ (_ ?sx) =>
      let Hp := fresh "Hp" in
      let He := fresh "He" in
      let Hv := fresh "Hv" in
      pose proof (proj1 (proj2 Hf)) as Hp; rewrite V in Hp; unfold flags in Hp;
      injection Hp as He Hv; rewrite ?He, ?Hv; clear He Hv
  end.

Section SetupAnatomy.

Context {D : Type} {SD : Scalar D} {P C S X : Type}.
Variable h : Hooks D P C S X.

Local Abbreviation state := (St D P C S X).
Local Abbreviation action := (M D P C S X).

Lemma bind_call_virtual_eq {B : Type} (c : Call)
      (g : Min D P S -> LAMMPS D C X -> Min D P S * LAMMPS D C X)
      (k : unit -> action B) (s : state) :
  (call_virtual c g ≫= k) s =
  k tt (mkSt (g (minimize s) (lmp s)).1 (g (minimize s) (lmp s)).2 (trace s ++ [c])).
Proof. unfold mbind, M_bind, call_virtual. now destruct (g (minimize s) (lmp s)). Qed.

Lemma matchsteps_evaluate (ef vf : Z) (evs : list Call) :
  forallb is_matchstep evs = true -> forallb (evaluates ef vf) evs = true.
Proof.
  apply forallb_weaken. intros c Hc. destruct c; try discriminate. reflexivity.
Qed.

(** [setup_minimal] from beginning to end. *)
Lemma setup_minimal_anatomy (flag : Z) (s : state) :
  exists s' head t1 t2 ef vf,
    setup_minimal h flag s = Ok tt s' /\
    trace s' = trace s ++ head ++ [MinResetVectors] ++ t1 ++ [ModifySetup vf] ++ t2 /\
    (flag = 0 -> head = []) /\
    (flag <> 0 ->
     exists a b c,
       head = a ++ [DomainPbc; DomainResetBox; CommSetup] ++ b
                ++ [CommExchange; CommBorders] ++ c ++ [NeighborBuild] /\
       (a = [] \/ exists n, a = [DomainX2lamda n]) /\
       (b = [] \/ b = [NeighborSetupBins]) /\
       (c = [] \/ exists n, c = [DomainLamda2x n])) /\
    forallb (evaluates ef vf) t1 = true /\ forallb tallies t2 = true /\
    (ef = 1 \/ ef = 3) /\
    einitial (minimize s') = ecurrent (minimize s') /\
    fnorm2_init (minimize s') = d_sqrt (fnorm_sqr (minimize s') (lmp s')) /\
    fnorminf_init (minimize s') = fnorm_inf (minimize s') (lmp s').
Proof.
  unfold setup_minimal.
  set (Q := fun r : Res D P C S X unit =>
              exists s' head t1 t2 ef vf, r = Ok tt s' /\
                trace s' = trace s ++ head ++ [MinResetVectors] ++ t1
                                   ++ [ModifySetup vf] ++ t2 /\
                (flag = 0 -> head = []) /\
                (flag <> 0 ->
                 exists a b c,
                   head = a ++ [DomainPbc; DomainResetBox; CommSetup] ++ b
                            ++ [CommExchange; CommBorders] ++ c ++ [NeighborBuild] /\
                   (a = [] \/ exists n, a = [DomainX2lamda n]) /\
                   (b = [] \/ b = [NeighborSetupBins]) /\
                   (c = [] \/ exists n, c = [DomainLamda2x n])) /\
                forallb (evaluates ef vf) t1 = true /\ forallb tallies t2 = true /\
                (ef = 1 \/ ef = 3) /\
                einitial (minimize s') = ecurrent (minimize s') /\
                fnorm2_init (minimize s') = d_sqrt (fnorm_sqr (minimize s') (lmp s')) /\
                fnorminf_init (minimize s') = fnorm_inf (minimize s') (lmp s')).
  lazymatch goal with |- exists s' head t1 t2 ef vf, ?prog = _ /\ _ => change (Q prog) end.
  lazymatch goal with |- Q ((_ ≫= ?k) s) => set (rest := k) end.
  assert (Tail : forall (s3 : state) (head : list Call),
             trace s3 = trace s ++ head ->
             (flag = 0 -> head = []) ->
             (flag <> 0 ->
              exists a b c,
                head = a ++ [DomainPbc; DomainResetBox; CommSetup] ++ b
                         ++ [CommExchange; CommBorders] ++ c ++ [NeighborBuild] /\
                (a = [] \/ exists n, a = [DomainX2lamda n]) /\
                (b = [] \/ b = [NeighborSetupBins]) /\
                (c = [] \/ exists n, c = [DomainLamda2x n])) ->
             Q (rest tt s3)).
  { intros s3 head T3 Hz Hnz. subst rest. cbv beta.
    rewrite bind_call_virtual_eq. set (s3' := mkSt _ _ _).
    assert (T3' : trace s3' = trace s ++ head ++ [MinResetVectors]).
    { unfold s3'. cbn [trace]. now rewrite T3, <- app_assoc. }
    clearbody s3'. rewrite bind_get_st_eq. cbv beta.
    destruct (ev_set_outcome h (Update.ntimestep (update (lmp s3'))) s3')
      as (s4 & e4 & fa & fb & fc & E4 & T4 & F4 & M4).
    rewrite (bind_of_ok _ _ _ _ _ E4). cbv beta.
    set (ef := 1 + (if fa then 2 else 0)) in M4.
    set (vf := (if fb then virial_style (minimize s3') else 0) + (if fc then 4 else 0)) in M4.
    assert (H4 : frame (evaluates ef vf) flags (fun _ : LAMMPS D C X => tt) s4 s4) by reflexivity.
    assert (V4 : flags (minimize s4) = (ef, vf)) by (rewrite M4; reflexivity).
    assert (Hef : ef = 1 \/ ef = 3) by (unfold ef; destruct fa; auto).
    clearbody ef vf.
    seg_step ltac:(repeat within_step).
    seg_step ltac:(repeat within_step).
    know_flags s4 V4.
    do 10 (seg_step ltac:(repeat within_step)).
    lazymatch goal with
    | Hf : frame _ flags _ s4 ?sx |- Q (_ ?sx) => destruct Hf as [(t1 & Ht1 & Ft1) _]
    end.
    rewrite bind_call_eq. set (s5 := mkSt _ _ _).
    assert (T5 : trace s5 = trace s ++ head ++ [MinResetVectors] ++ (e4 ++ t1)
                                  ++ [ModifySetup vf]).
    { unfold s5. cbn [trace]. rewrite Ht1, T4, T3', <- !app_assoc. reflexivity. }
    assert (Hs5 : frame tallies (fun _ : Min D P S => tt) (fun _ : LAMMPS D C X => tt) s5 s5)
      by reflexivity.
    clearbody s5.
    seg_step ltac:(repeat within_step).
    lazymatch goal with
    | Hf : frame tallies _ _ s5 ?sx |- Q (_ ?sx) => destruct Hf as [(t2 & Ht2 & Ft2) _]
    end.
    do 4 exact_step. unfold upd_min, Q. cbn [minimize lmp trace].
    eexists _, head, (e4 ++ t1), t2, ef, vf. split; [reflexivity|].
    cbn [minimize lmp trace].
    split; [rewrite Ht2, T5, <- !app_assoc; reflexivity|].
    split; [exact Hz|]. split; [exact Hnz|].
    split; [rewrite forallb_app, Ft1, (matchsteps_evaluate _ _ _ F4); reflexivity|].
    split; [exact Ft2|]. split; [exact Hef|].
    repeat split. }
  destruct (truthy flag) eqn:Ef.
  - assert (Hne : flag <> 0) by (unfold truthy in Ef; lia).
    lazymatch goal with |- Q ((when true ?b ≫= ?k) s) => change (Q ((b ≫= k) s)) end.
    do 13 (rewrite ?bind_assoc_eq;
           first [ rewrite bind_get_st_eq | rewrite bind_call_eq | rewrite bind_when_call_eq
                 | rewrite bind_upd_lmp_eq ];
           cbv beta; cbn [minimize lmp trace]; forget_lmp).
    lazymatch goal with
    | |- Q (rest tt (mkSt _ _ (app (app (app (app (app (app (app (app (app _ ?a) _) _) _)
                                                  ?b) _) _) ?c) _))) =>
        apply (Tail _ (a ++ [DomainPbc; DomainResetBox; CommSetup] ++ b
                         ++ [CommExchange; CommBorders] ++ c ++ [NeighborBuild]));
        [ cbn [trace]; rewrite <- !app_assoc; reflexivity
        | intros Hz; contradiction
        | intros _; exists a, b, c; split; [reflexivity|] ]
    end.
    split; [|split].
    + destruct (truthy (triclinic _)); [right; eexists | left]; reflexivity.
    + destruct (truthy (Neighbor.style _)); [right | left]; reflexivity.
    + destruct (truthy (triclinic _)); [right; eexists | left]; reflexivity.
  - assert (He : flag = 0) by (unfold truthy in Ef; lia).
    lazymatch goal with |- Q ((when false ?b ≫= ?k) s) => change (Q (k tt s)) end.
    apply (Tail s []).
    + now rewrite app_nil_r.
    + reflexivity.
    + intros Hne. contradiction.
Qed.

(** The head of [setup], up to the build of the neighbour lists. *)
Definition setup_head (print a b b' c : list Call) : list Call :=
  print ++ [ModifyMinDof; ModifyFindCompute "thermo_pe"%string; MinSetupStyle; AtomSetup]
        ++ a ++ [DomainPbc; DomainResetBox; CommSetup] ++ b ++ [CommExchange] ++ b'
        ++ [CommBorders] ++ c ++ [NeighborBuild].

Definition setup_head_shape (print a b b' c : list Call) : Prop :=
  (print = [] \/ print = [ScreenPrint msg_setting_up]) /\
  (a = [] \/ exists n, a = [DomainX2lamda n]) /\
  (b = [] \/ b = [NeighborSetupBins]) /\
  (b' = [] \/ b' = [AtomSort]) /\
  (c = [] \/ exists n, c = [DomainLamda2x n]).

(** [setup] from beginning to end, by the answer [id] of
    [modify->find_compute("thermo_pe")] and the check on the extra degrees
    of freedom. *)
Lemma setup_anatomy (s : state) :
  (forall m w, dof_view (setup_style h m w).1 = dof_view m) ->
  let n := (modify_min_dof h (lmp s)).1 in
  let id := (modify_find_compute h "thermo_pe"%string (modify_min_dof h (lmp s)).2).1 in
  exists print,
    (print = [] \/ print = [ScreenPrint msg_setting_up]) /\
    if id <? 0 then
      exists s', setup h s = Abort msg_no_pe s' /\
                 trace s' = trace s ++ print
                                    ++ [ModifyMinDof; ModifyFindCompute "thermo_pe"%string]
    else
      exists a b b' c,
        setup_head_shape print a b b' c /\
        if truthy n && (searchflag (minimize s) =? 0) then
          exists s', setup h s = Abort msg_box_relax s' /\
                     trace s' = trace s ++ setup_head print a b b' c
        else if truthy (nextra_atom (minimize s)) && (searchflag (minimize s) =? 0) then
          exists s', setup h s = Abort msg_peratom_dof s' /\
                     trace s' = trace s ++ setup_head print a b b' c
        else
          exists s' t1 t2 ef vf,
            setup h s = Ok tt s' /\
            trace s' = trace s ++ setup_head print a b b' c ++ [MinResetVectors] ++ t1
                               ++ [ModifySetup vf; OutputSetup 1] ++ t2 /\
            forallb (evaluates ef vf) t1 = true /\ forallb tallies t2 = true /\
            (ef = 1 \/ ef = 3) /\
            einitial (minimize s') = ecurrent (minimize s') /\
            fnorm2_init (minimize s') = d_sqrt (fnorm_sqr (minimize s') (lmp s')) /\
            fnorminf_init (minimize s') = fnorm_inf (minimize s') (lmp s').
Proof.
  intros Hstyle. cbv zeta. unfold setup.
  rewrite bind_get_st_eq. cbv beta. rewrite bind_when_log_eq, bind_callv_eq.
  cbn [minimize lmp trace].
  destruct (modify_min_dof h (lmp s)) as [n w1]. cbn [fst snd].
  rewrite bind_upd_min_eq. cbn [minimize lmp trace].
  rewrite bind_get_st_eq. cbv beta. rewrite bind_when_upd_min_eq. cbn [minimize lmp trace].
  rewrite bind_callv_eq. cbn [minimize lmp trace].
  destruct (modify_find_compute h "thermo_pe" w1) as [id w2]. cbn [fst snd].
  exists (if (Comm.me (comm (lmp s)) =? 0) && screen (lmp s)
          then [ScreenPrint msg_setting_up] else []).
  split.
  { destruct ((Comm.me (comm (lmp s)) =? 0) && screen (lmp s)); [right | left]; reflexivity. }
  destruct (id <? 0).
  { rewrite bind_error_all_eq. eexists. split; [reflexivity|]. cbn [trace].
    now rewrite <- !app_assoc. }
  rewrite bind_ret_eq, bind_upd_min_eq. cbn [minimize lmp trace].
  rewrite bind_call_virtual_eq. cbn [minimize lmp trace].
  match goal with
  | |- context [setup_style h ?m ?w] =>
      pose proof (Hstyle m w) as Hv; destruct (setup_style h m w) as [m3 w3]
  end.
  cbn [fst snd] in *.
  assert (V3 : dof_view m3 = (searchflag (minimize s), nextra_atom (minimize s), n)).
  { rewrite Hv. destruct (truthy n); reflexivity. }
  clear Hv. unfold dof_view in V3. injection V3 as Vs Va Vn.
  lazymatch goal with
  | |- context [@eq (Res D P C S X unit) (?prog ?st) (Abort _ _)] => pattern (prog st)
  end.
  lazymatch goal with |- ?Q0 _ => set (Q := Q0) end.
  do 20 (rewrite ?bind_assoc_eq;
         first [ rewrite bind_get_st_eq | rewrite bind_call_eq | rewrite bind_when_call_eq
               | rewrite bind_upd_lmp_eq | rewrite bind_upd_min_eq ];
         cbv beta; cbn [minimize lmp trace]; forget_lmp).
  lazymatch goal with |- Q (_ (mkSt ?m _ _)) => set (m4 := m) end.
  assert (V4 : searchflag m4 = searchflag (minimize s) /\
               nextra_atom m4 = nextra_atom (minimize s) /\ nextra_global m4 = n).
  { unfold m4. cbn. auto. }
  clearbody m4. destruct V4 as (Ws & Wa & Wn). rewrite Ws, Wa, Wn.
  set (print := if (Comm.me (comm (lmp s)) =? 0) && screen (lmp s)
                then [ScreenPrint msg_setting_up] else []) in *.
  set (a := if truthy (triclinic m4) then [DomainX2lamda _] else []).
  set (b := if truthy (Neighbor.style _) then [NeighborSetupBins] else []).
  set (b' := if 0 <? _ then [AtomSort] else []).
  set (c := if truthy (triclinic m4) then [DomainLamda2x _] else []).
  lazymatch goal with |- Q (_ (mkSt _ _ ?t)) => set (tr := t) end.
  assert (T : tr = trace s ++ setup_head print a b b' c).
  { unfold tr, setup_head. rewrite <- !app_assoc. reflexivity. }
  assert (Shape : setup_head_shape print a b b' c).
  { unfold setup_head_shape, print, a, b, b', c.
    repeat split;
      match goal with |- context [if ?x then _ else _] => destruct x end; eauto. }
  clearbody tr print a b b' c.
  unfold Q. exists a, b, b', c. split; [exact Shape|].
  destruct (truthy n && (searchflag (minimize s) =? 0)).
  { rewrite bind_error_all_eq. eexists. split; [reflexivity | exact T]. }
  rewrite bind_ret_eq.
  destruct (truthy (nextra_atom (minimize s)) && (searchflag (minimize s) =? 0)).
  { rewrite bind_error_all_eq. eexists. split; [reflexivity | exact T]. }
  rewrite bind_ret_eq.
  rewrite bind_call_virtual_eq. set (s3' := mkSt _ _ _).
  assert (T3' : trace s3' = trace s ++ setup_head print a b b' c ++ [MinResetVectors]).
  { unfold s3'. cbn [trace]. now rewrite T, <- app_assoc. }
  clearbody s3'. rewrite bind_get_st_eq. cbv beta.
  destruct (ev_set_outcome h (Update.ntimestep (update (lmp s3'))) s3')
    as (s4 & e4 & fa & fb & fc & E4 & T4 & F4 & M4).
  rewrite (bind_of_ok _ _ _ _ _ E4). cbv beta.
  set (ef := 1 + (if fa then 2 else 0)) in M4.
  set (vf := (if fb then virial_style (minimize s3') else 0) + (if fc then 4 else 0)) in M4.
  assert (H4 : frame (evaluates ef vf) flags (fun _ : LAMMPS D C X => tt) s4 s4) by reflexivity.
  assert (V4 : flags (minimize s4) = (ef, vf)) by (rewrite M4; reflexivity).
  assert (Hef : ef = 1 \/ ef = 3) by (unfold ef; destruct fa; auto).
  clearbody ef vf.
  set (Q1 := fun r : Res D P C S X unit =>
               exists s' t1 t2 ef vf, r = Ok tt s' /\
                 trace s' = trace s ++ setup_head print a b b' c ++ [MinResetVectors] ++ t1
                                    ++ [ModifySetup vf; OutputSetup 1] ++ t2 /\
                 forallb (evaluates ef vf) t1 = true /\ forallb tallies t2 = true /\
                 (ef = 1 \/ ef = 3) /\
                 einitial (minimize s') = ecurrent (minimize s') /\
                 fnorm2_init (minimize s') = d_sqrt (fnorm_sqr (minimize s') (lmp s')) /\
                 fnorminf_init (minimize s') = fnorm_inf (minimize s') (lmp s')).
  lazymatch goal with |- exists s' t1 t2 ef vf, ?prog = _ /\ _ => change (Q1 prog) end.
  seg_step ltac:(repeat within_step).
  seg_step ltac:(repeat within_step).
  know_flags s4 V4.
  do 10 (seg_step ltac:(repeat within_step)).
  lazymatch goal with
  | Hf : frame _ flags _ s4 ?sx |- Q1 (_ ?sx) => destruct Hf as [(t1 & Ht1 & Ft1) _]
  end.
  rewrite !bind_call_eq. set (s5 := mkSt _ _ _).
  assert (T5 : trace s5 = trace s ++ setup_head print a b b' c ++ [MinResetVectors]
                                ++ (e4 ++ t1) ++ [ModifySetup vf; OutputSetup 1]).
  { unfold s5. cbn [trace]. rewrite Ht1, T4, T3', <- !app_assoc. reflexivity. }
  assert (Hs5 : frame tallies (fun _ : Min D P S => tt) (fun _ : LAMMPS D C X => tt) s5 s5)
    by reflexivity.
  clearbody s5.
  seg_step ltac:(repeat within_step).
  lazymatch goal with
  | Hf : frame tallies _ _ s5 ?sx |- Q1 (_ ?sx) => destruct Hf as [(t2 & Ht2 & Ft2) _]
  end.
  do 4 exact_step. unfold upd_min, Q1. cbn [minimize lmp trace].
  eexists _, (e4 ++ t1), t2, ef, vf. split; [reflexivity|].
  cbn [minimize lmp trace].
  split; [rewrite Ht2, T5, <- !app_assoc; reflexivity|].
  split; [rewrite forallb_app, Ft1, (matchsteps_evaluate _ _ _ F4); reflexivity|].
  split; [exact Ft2|]. split; [exact Hef|].
  repeat split.
Qed.

Lemma evaluates_split (ef vf : Z) (l : list Call) :
  forallb (evaluates ef vf) l = true ->
  forallb evaluation_call l = true /\ forallb (carries ef vf) l = true.
Proof.
  intros H. split; revert H; apply forallb_weaken; intros c Hc; unfold evaluates in Hc;
    apply andb_true_iff in Hc as [H1 H2]; assumption.
Qed.

Lemma tallies_evaluates (ef vf : Z) (l : list Call) :
  forallb tallies l = true -> forallb (evaluates ef vf) l = true.
Proof. apply forallb_weaken. intros c Hc. destruct c; try discriminate; reflexivity. Qed.

(** X9.  [setup_minimal] never aborts: it has none of the checks of
    [setup].  With [flag] 0 its first call is [reset_vectors]; otherwise it
    first runs [domain->pbc], [reset_box], [comm->setup], the exchange, the
    borders and the build of the neighbour lists, in this order.  After
    [reset_vectors] it makes calls of the evaluation only (no
    [output->setup], no [atom->setup], no sort), all handed the same flags,
    with the global energy asked for.  It leaves [einitial] equal to
    [ecurrent], and the initial norms it records are the norms of the state
    it leaves. *)
Theorem setup_minimal_rebuilds_on_request (flag : Z) (s : state) :
  exists s' head rest ef vf,
    setup_minimal h flag s = Ok tt s' /\
    trace s' = trace s ++ head ++ [MinResetVectors] ++ rest /\
    (flag = 0 -> head = []) /\
    (flag <> 0 ->
     exists a b c,
       head = a ++ [DomainPbc; DomainResetBox; CommSetup] ++ b
                ++ [CommExchange; CommBorders] ++ c ++ [NeighborBuild] /\
       (a = [] \/ exists n, a = [DomainX2lamda n]) /\
       (b = [] \/ b = [NeighborSetupBins]) /\
       (c = [] \/ exists n, c = [DomainLamda2x n])) /\
    forallb evaluation_call rest = true /\
    forallb (carries ef vf) rest = true /\ (ef = 1 \/ ef = 3) /\
    einitial (minimize s') = ecurrent (minimize s') /\
    fnorm2_init (minimize s') = d_sqrt (fnorm_sqr (minimize s') (lmp s')) /\
    fnorminf_init (minimize s') = fnorm_inf (minimize s') (lmp s').
Proof.
  destruct (setup_minimal_anatomy flag s)
    as (s' & head & t1 & t2 & ef & vf & E & T & Hz & Hnz & F1 & F2 & Hef & Hstats).
  exists s', head, (t1 ++ [ModifySetup vf] ++ t2), ef, vf.
  split; [exact E|]. split; [exact T|]. split; [exact Hz|]. split; [exact Hnz|].
  assert (F : forallb (evaluates ef vf) (t1 ++ [ModifySetup vf] ++ t2) = true).
  { rewrite !forallb_app, F1, (tallies_evaluates ef vf t2 F2). cbn.
    now rewrite Z.eqb_refl. }
  destruct (evaluates_split _ _ _ F) as [Fe Fc]. auto.
Qed.

(** X10.  Provided the style-specific setup leaves [searchflag] and the
    counts of extra degrees of freedom alone, and [modify->min_dof()] is
    not negative (for a negative count the allocation of [fextra] fails
    before anything else is done), [setup] returns exactly when
    the compute thermo_pe is found and no extra degree of freedom meets a
    minimiser without line search.  A missing thermo_pe aborts first, after
    [modify->min_dof()] and the lookup only; otherwise a global extra degree
    of freedom aborts with the message on fix box/relax, and a per-atom one
    (without a global one) with the message on per-atom DOF. *)
Theorem setup_succeeds_exactly_when (s : state) :
  (forall m w, dof_view (setup_style h m w).1 = dof_view m) ->
  0 <= (modify_min_dof h (lmp s)).1 ->
  let n := (modify_min_dof h (lmp s)).1 in
  let id := (modify_find_compute h "thermo_pe"%string (modify_min_dof h (lmp s)).2).1 in
  ((exists s', setup h s = Ok tt s') <->
   0 <= id /\ (searchflag (minimize s) <> 0 \/ n = 0 /\ nextra_atom (minimize s) = 0)) /\
  (id < 0 ->
   exists s' print,
     setup h s = Abort msg_no_pe s' /\
     trace s' = trace s ++ print ++ [ModifyMinDof; ModifyFindCompute "thermo_pe"%string] /\
     (print = [] \/ print = [ScreenPrint msg_setting_up])) /\
  (0 <= id -> searchflag (minimize s) = 0 -> n <> 0 ->
   exists s', setup h s = Abort msg_box_relax s') /\
  (0 <= id -> searchflag (minimize s) = 0 -> n = 0 -> nextra_atom (minimize s) <> 0 ->
   exists s', setup h s = Abort msg_peratom_dof s').
Proof.
  intros Hstyle Hcount. cbv zeta. destruct (setup_anatomy s Hstyle) as (print & Hprint & H).
  cbv zeta in H.
  set (n := (modify_min_dof h (lmp s)).1) in *.
  set (id := (modify_find_compute h "thermo_pe"%string (modify_min_dof h (lmp s)).2).1) in *.
  destruct (Z.ltb_spec id 0) as [Hid|Hid].
  { destruct H as (s' & E & T). split; [|split; [|split]].
    - split; [intros (s1 & E1); congruence | intros [Hge _]; lia].
    - intros _. exists s', print. auto.
    - intros Hge. lia.
    - intros Hge. lia. }
  destruct H as (a & b & b' & c & _ & H).
  unfold truthy in H.
  destruct (Z.eqb_spec n 0) as [Hn|Hn], (Z.eqb_spec (searchflag (minimize s)) 0) as [Hs|Hs],
    (Z.eqb_spec (nextra_atom (minimize s)) 0) as [Ha|Ha]; cbn [negb andb] in H.
  all: repeat match goal with
              | H : exists _, _ |- _ => destruct H as [? H]
              | H : _ /\ _ |- _ => destruct H as [? H]
              end.
  all: split; [split; [intros (s1 & E1); first [congruence | split; [lia|tauto]]
                      | intros [_ Hc]; first [eexists; eassumption | exfalso; tauto] ]|].
  all: split; [intros Hlt; lia|].
  all: split; intros; first [contradiction | eexists; eassumption | lia].
Qed.


End SetupAnatomy.

(** A line-search minimiser without extra degrees of freedom: [setup]
    goes through. *)
Lemma setup_succeeds_witness :
  exists s', setup (Example.hooks 0 0 0 0) Example.stopped = Ok tt s'.
Proof.
  assert (Hcount : 0 <= (modify_min_dof (Example.hooks 0 0 0 0) (lmp Example.stopped)).1)
    by (cbn; lia).
  apply (proj1 (setup_succeeds_exactly_when (Example.hooks 0 0 0 0) Example.stopped
                  (fun m w => eq_refl) Hcount)).
  cbn. split; [lia | left; lia].
Defined.


(** ** [ev_set]: the flags and the steps recorded in [update] *)

Section EvSetStamps.

Context {D : Type} {SD : Scalar D} {P C S X : Type}.
Variable h : Hooks D P C S X.

Local Abbreviation state := (St D P C S X).

(** X12.  [ev_set] never fails and changes of [Min] only [eflag] and
    [vflag].  It records the current step [update->ntimestep] in
    [update->eflag_global] always, and in [eflag_atom], [vflag_global] and
    [vflag_atom] exactly when the corresponding part is in the flags it
    sets; the other fields of [update] are kept.  [eflag] is 1 or 3, and
    when [virial_style] is 1 or 2, as [init] leaves it, [vflag] is one of
    0, 1, 2, 4, 5, 6. *)
Theorem ev_set_stamps_what_it_demands (t : Z) (s : state) :
  exists s' (atom_energy virial atom_virial : bool),
    ev_set h t s = Ok tt s' /\
    minimize s' =
      set_vflag ((if virial then virial_style (minimize s) else 0) +
                 (if atom_virial then 4 else 0))
                (set_eflag (1 + (if atom_energy then 2 else 0)) (minimize s)) /\
    (let u := update (lmp s) in
     let now := Update.ntimestep u in
     update (lmp s') =
       Update.mk now (Update.nsteps u) now
                 (if atom_energy then now else Update.eflag_atom u)
                 (if virial && truthy (virial_style (minimize s)) then now
                  else Update.vflag_global u)
                 (if atom_virial then now else Update.vflag_atom u)
                 (Update.restrict_output u)) /\
    (eflag (minimize s') = 1 \/ eflag (minimize s') = 3) /\
    (virial_style (minimize s) = 1 \/ virial_style (minimize s) = 2 ->
     In (vflag (minimize s')) [0; 1; 2; 4; 5; 6]).
Proof.
  unfold ev_set. cbv zeta. rewrite bind_get_st_eq. cbv beta.
  destruct (scan_spec h EGlobal (ev_list EGlobal (minimize s)) t 0 s)
    as (s1 & e1 & E1 & T1 & M1 & U1 & F1).
  rewrite (bind_of_ok _ _ _ _ _ E1). cbv beta.
  destruct (scan_spec h EAtom (ev_list EAtom (minimize s)) t 0 s1)
    as (s2 & e2 & E2 & T2 & M2 & U2 & F2).
  rewrite (bind_of_ok _ _ _ _ _ E2). cbv beta.
  rewrite !bind_when_upd_lmp_eq, bind_upd_min_eq. cbn [minimize lmp trace].
  set (s3 := mkSt _ _ (trace s2)).
  destruct (scan_spec h VGlobal (ev_list VGlobal (minimize s)) t 0 s3)
    as (s4 & e4 & E4 & T4 & M4 & U4 & F4).
  rewrite (bind_of_ok _ _ _ _ _ E4). cbv beta.
  destruct (scan_spec h VAtom (ev_list VAtom (minimize s)) t 0 s4)
    as (s5 & e5 & E5 & T5 & M5 & U5 & F5).
  rewrite (bind_of_ok _ _ _ _ _ E5). cbv beta.
  rewrite !bind_when_upd_lmp_eq. cbn [minimize lmp trace].
  eexists _, (demand EAtom e2), (demand VGlobal e4), (demand VAtom e5).
  split; [reflexivity|]. cbn [minimize lmp].
  assert (Hm : minimize s5 = set_eflag (1 + (if demand EAtom e2 then 2 else 0)) (minimize s)).
  { rewrite M5, M4. unfold s3. cbn [minimize]. rewrite M2, M1. unfold truthy.
    destruct (demand EAtom e2); reflexivity. }
  assert (Hu : update (lmp s5) =
               Update.mk (Update.ntimestep (update (lmp s)))
                         (Update.nsteps (update (lmp s)))
                         (Update.ntimestep (update (lmp s)))
                         (if demand EAtom e2 then Update.ntimestep (update (lmp s))
                          else Update.eflag_atom (update (lmp s)))
                         (Update.vflag_global (update (lmp s)))
                         (Update.vflag_atom (update (lmp s)))
                         (Update.restrict_output (update (lmp s)))).
  { rewrite U5, U4. unfold s3. cbn [lmp]. unfold truthy.
    destruct (demand EAtom e2); cbn; rewrite U2, U1; reflexivity. }
  rewrite Hm. split; [|split; [|split]].
  - unfold truthy. destruct (demand VGlobal e4), (demand VAtom e5); reflexivity.
  - cbv zeta. revert Hu. generalize (lmp s5). intros w5 Hu.
    destruct (demand VGlobal e4), (demand VAtom e5); unfold truthy; cbn [Z.eqb negb andb];
      destruct (Z.eqb_spec (virial_style (minimize s)) 0); cbn [negb];
      cbn [update set_update]; rewrite Hu; reflexivity.
  - cbn. destruct (demand EAtom e2); auto.
  - intros Hvs. cbn. destruct (demand VGlobal e4), (demand VAtom e5), Hvs as [-> | ->];
      cbn; auto 10.
Qed.

End EvSetStamps.

(** ** [init]: what the minimiser records of the system *)

(** What [init] records for the evaluations to come. *)
Definition recorded {D P S : Type} (m : Min D P S) :=
  (fix_minimize m, virial_style m, torqueflag m, erforceflag m, triclinic m,
   (niter m, neval m),
   (ev_list EGlobal m, ev_list EAtom m, ev_list VGlobal m, ev_list VAtom m)).

Section InitSettings.

Context {D : Type} {SD : Scalar D} {P C S X : Type}.
Variable h : Hooks D P C S X.

Local Abbreviation state := (St D P C S X).

Lemma ev_setup_recorded (s : state) :
  exists m,
    ev_setup h s = Ok tt (mkSt m (lmp s) (trace s)) /\
    (forall l, ev_list l m = ev_collect (ev_flag h l) (lmp s)) /\
    (fix_minimize m, virial_style m, torqueflag m, erforceflag m, triclinic m,
     (niter m, neval m)) =
    (fix_minimize (minimize s), virial_style (minimize s), torqueflag (minimize s),
     erforceflag (minimize s), triclinic (minimize s),
     (niter (minimize s), neval (minimize s))).
Proof.
  unfold ev_setup. cbv [mbind M_bind get_st upd_min]. cbn [minimize lmp trace].
  eexists. split; [reflexivity|]. split; [|reflexivity].
  intros l. destruct l; cbn [ev_list ev_flag]; cbn; rewrite Nat2Z.id; apply firstn_all.
Qed.

(** [init] up to the call of [init_style]. *)
Lemma init_recorded (s : state) :
  exists m w tr,
    init h s = call_virtual MinInitStyle (init_style h) (mkSt m w tr) /\
    let w0 := modify_add_fix h add_fix_args (lmp s) in
    recorded m =
      (Modify.nfix (modify w0) - 1,
       (if truthy (Force.newton_pair (force w0)) then 2 else 1),
       (if truthy (Atom.torque_flag (atom w0)) then 1 else 0),
       (if truthy (Atom.erforce_flag (atom w0)) then 1 else 0),
       Domain.triclinic (domain w0),
       (0, 0),
       (ev_collect (peflag h) w0, ev_collect (peatomflag h) w0,
        ev_collect (pressflag h) w0, ev_collect (pressatomflag h) w0)).
Proof.
  unfold init. fold add_fix_args.
  rewrite bind_call_eq. cbn [minimize lmp trace].
  rewrite bind_get_st_eq. cbv beta. cbn [minimize lmp trace].
  do 11 (rewrite bind_upd_min_eq; cbn [minimize lmp trace]).
  match goal with
  | |- context [(ev_setup h ≫= _) ?st] =>
      destruct (ev_setup_recorded st) as (m1 & E1 & L1 & R1);
      rewrite (bind_of_ok _ _ _ _ _ E1)
  end.
  cbv beta. cbn [minimize lmp trace] in *.
  rewrite bind_upd_min_eq, bind_when_upd_min_eq. cbn [minimize lmp trace].
  rewrite bind_upd_min_eq, bind_when_upd_min_eq. cbn [minimize lmp trace].
  do 4 (rewrite bind_upd_min_eq; cbn [minimize lmp trace]).
  rewrite bind_get_st_eq. cbv beta. rewrite bind_when_warning_eq. cbn [minimize lmp trace].
  do 3 (rewrite bind_upd_lmp_eq; cbn [minimize lmp trace]).
  do 2 (rewrite bind_upd_min_eq; cbn [minimize lmp trace]).
  eexists _, _, _. split; [reflexivity|]. cbv zeta.
  injection R1 as R1a R1b R1c R1d R1e R1f R1g.
  pose proof (L1 EGlobal) as LG. pose proof (L1 EAtom) as LA.
  pose proof (L1 VGlobal) as LV. pose proof (L1 VAtom) as LW.
  cbn [ev_list ev_flag] in LG, LA, LV, LW.
  unfold recorded.
  repeat match goal with
         | |- context [if ?b then _ else _] =>
             lazymatch b with truthy _ => destruct b end
         end;
    cbn; rewrite ?LG, ?LA, ?LV, ?LW, ?R1a, ?R1b; reflexivity.
Qed.

(** X13.  Provided [init_style] of the minimiser leaves these fields
    alone, [init] succeeds and records what it reads from the LAMMPS
    instance after [modify->add_fix]: the index of the fix it added
    ([nfix-1]), [virial_style] (2 under [newton_pair], else 1),
    [torqueflag] and [erforceflag] normalised to 0 or 1, [triclinic], the
    counters [niter] = [neval] = 0, and the four lists of computes that
    [ev_setup] collects. *)
Theorem init_records_the_system (s : state) :
  (forall m w, recorded (init_style h m w).1 = recorded m) ->
  exists s',
    init h s = Ok tt s' /\
    let w0 := modify_add_fix h add_fix_args (lmp s) in
    recorded (minimize s') =
      (Modify.nfix (modify w0) - 1,
       (if truthy (Force.newton_pair (force w0)) then 2 else 1),
       (if truthy (Atom.torque_flag (atom w0)) then 1 else 0),
       (if truthy (Atom.erforce_flag (atom w0)) then 1 else 0),
       Domain.triclinic (domain w0),
       (0, 0),
       (ev_collect (peflag h) w0, ev_collect (peatomflag h) w0,
        ev_collect (pressflag h) w0, ev_collect (pressatomflag h) w0)) /\
    (virial_style (minimize s') = 1 \/ virial_style (minimize s') = 2) /\
    (torqueflag (minimize s') = 0 \/ torqueflag (minimize s') = 1) /\
    (erforceflag (minimize s') = 0 \/ erforceflag (minimize s') = 1).
Proof.
  intros Hkeep. destruct (init_recorded s) as (m & w & tr & E & R). cbv zeta in R.
  rewrite E. unfold call_virtual. cbn [minimize lmp trace].
  specialize (Hkeep m w). destruct (init_style h m w) as [m' w']. cbn [fst] in Hkeep.
  eexists. split; [reflexivity|]. cbn [minimize]. cbv zeta.
  rewrite Hkeep, R. split; [reflexivity|].
  rewrite <- Hkeep in R. unfold recorded in R. injection R as _ Rv Rt Re _ _ _ _ _ _ _.
  rewrite Rv, Rt, Re.
  repeat split; match goal with |- context [if ?b then _ else _] => destruct b end; auto.
Qed.

End InitSettings.

Lemma init_records_witness :
  exists s',
    init (Example.hooks 0 0 0 0) Example.scheduled = Ok tt s' /\
    virial_style (minimize s') = 2 /\ torqueflag (minimize s') = 1 /\
    ev_list EAtom (minimize s') = [1%nat].
Proof.
  destruct (init_records_the_system (Example.hooks 0 0 0 0) Example.scheduled
              (fun m w => eq_refl)) as (s' & E & R & _).
  exists s'. split; [exact E|]. cbv zeta in R. unfold recorded in R.
  injection R as _ Rv Rt _ _ _ _ _ Ra _ _. cbn [ev_list]. rewrite Rv, Rt, Ra. repeat split.
Defined.

(** ** [run] then [cleanup]: what is reported at the end *)

Section FinalReport.

Context {D : Type} {SD : Scalar D} {P C S X : Type}.
Variable h : Hooks D P C S X.

Local Abbreviation state := (St D P C S X).

Lemma cleanup_exact (s : state) :
  exists w,
    cleanup h s =
    Ok tt (mkSt (set_fnorminf_final
                   (fnorm_inf (set_efinal (ecurrent (minimize s)) (minimize s)) (lmp s))
                   (set_fnorm2_final
                      (d_sqrt (fnorm_sqr (set_efinal (ecurrent (minimize s)) (minimize s))
                                         (lmp s)))
                      (set_efinal (ecurrent (minimize s)) (minimize s))))
                w (trace s ++ [ModifyDeleteFix "MINIMIZE"%string])).
Proof.
  unfold cleanup.
  rewrite bind_upd_min_eq. cbn [minimize lmp trace].
  rewrite bind_get_st_eq. cbv beta. cbn [minimize lmp trace].
  do 2 (rewrite bind_upd_min_eq; cbn [minimize lmp trace]).
  rewrite bind_get_st_eq. cbv beta. cbn [minimize lmp trace].
  do 3 (rewrite bind_upd_lmp_eq; cbn [minimize lmp trace]).
  unfold call, upd_lmp, log, mbind, M_bind. cbn [minimize lmp trace].
  eexists. reflexivity.
Qed.

(** The last statements of [run] after a stop. *)
Lemma run_finish_exact (s : state) :
  let now := Update.ntimestep (update (lmp s)) in
  let sx := mkSt (minimize s) (modify_addstep_compute_all h now (lmp s))
                 (trace s ++ [ModifyAddstepComputeAll now]) in
  exists e sy t,
    energy_force h 0 sx = Ok e sy /\
    run_finish h s =
    Ok tt (mkSt (set_ecurrent e (minimize sy)) (output_write h t (lmp sy))
                (trace sy ++ [OutputWrite t])).
Proof.
  cbv zeta. unfold run_finish.
  rewrite bind_get_st_eq. cbv beta. rewrite bind_call_eq. cbn [minimize lmp trace].
  match goal with
  | |- context [(energy_force h 0 ≫= _) ?st] =>
      destruct (energy_force_shape h 0 st) as (e & sy & body & E & _)
  end.
  rewrite (bind_of_ok _ _ _ _ _ E). cbv beta.
  rewrite bind_upd_min_eq. cbn [minimize lmp trace].
  rewrite bind_get_st_eq. cbv beta. cbn [minimize lmp trace].
  unfold call, upd_lmp, log, mbind, M_bind. cbn [minimize lmp trace].
  eexists e, sy, _. split; [exact E | reflexivity].
Qed.

(** X14.  [run] followed by [cleanup] never fails, and the final values
    [cleanup] stores are those of the state [run] leaves: [efinal] is
    [ecurrent], and the two final norms are computed from the forces of
    that state.  When [iterate] returns no stop condition, [ecurrent] is
    what [iterate] left; otherwise it is the energy returned by the
    additional [energy_force(0)], which [run] performs before its last
    [output->write]. *)
Theorem run_then_cleanup_reports_last_evaluation (n : Z) (s : state) :
  exists s1 s2,
    run h n s = Ok tt s1 /\ cleanup h s1 = Ok tt s2 /\
    efinal (minimize s2) = ecurrent (minimize s1) /\
    fnorm2_final (minimize s2) = d_sqrt (fnorm_sqr (minimize s1) (lmp s1)) /\
    fnorminf_final (minimize s2) = fnorm_inf (minimize s1) (lmp s1) /\
    ((iterate h n (minimize s) (lmp s)).1 = 0 ->
     ecurrent (minimize s1) = ecurrent (iterate h n (minimize s) (lmp s)).2.1) /\
    ((iterate h n (minimize s) (lmp s)).1 <> 0 ->
     exists sx sy t,
       energy_force h 0 sx = Ok (ecurrent (minimize s1)) sy /\
       lmp s1 = output_write h t (lmp sy) /\
       trace s1 = trace sy ++ [OutputWrite t]).
Proof.
  assert (Hc : forall s1 : state, exists s2,
               cleanup h s1 = Ok tt s2 /\
               efinal (minimize s2) = ecurrent (minimize s1) /\
               fnorm2_final (minimize s2) = d_sqrt (fnorm_sqr (minimize s1) (lmp s1)) /\
               fnorminf_final (minimize s2) = fnorm_inf (minimize s1) (lmp s1)).
  { intros s1. destruct (cleanup_exact s1) as (w & E). eexists. split; [exact E|].
    cbn [minimize]. repeat split. }
  rewrite run_eq. cbv zeta.
  destruct (iterate h n (minimize s) (lmp s)) as [stop [m1 w1]]. cbn [fst snd].
  unfold truthy. destruct (Z.eqb_spec stop 0) as [Hs|Hs]; cbn [negb].
  - eexists. destruct (Hc (mkSt (set_stopstr (stopstrings stop) (set_stop_condition stop m1))
                                w1 (trace s ++ [MinIterate n])))
      as (s2 & E2 & H1 & H2 & H3).
    exists s2. split; [reflexivity|]. split; [exact E2|]. split; [exact H1|].
    split; [exact H2|]. split; [exact H3|]. split; [reflexivity | intros Hne; contradiction].
  - match goal with
    | |- context [run_finish h ?st] => destruct (run_finish_exact st) as (e & sy & t & E & R)
    end.
    cbv zeta in E. rewrite R.
    eexists. match goal with
             | |- exists s2, Ok tt ?s1 = _ /\ _ =>
                 destruct (Hc s1) as (s2 & E2 & H1 & H2 & H3)
             end.
    exists s2. split; [reflexivity|]. split; [exact E2|]. split; [exact H1|].
    split; [exact H2|]. split; [exact H3|]. split; [intros Hz; contradiction|].
    intros _. eexists _, sy, t. split; [exact E|]. split; reflexivity.
Qed.

End FinalReport.
